(** * pykeen.evaluation.evaluator: the memory-adaptive batched evaluation engine

    A shallow embedding of [src/pykeen/evaluation/evaluator.py].

    - Integer identifiers (entity and relation ids, batch and slice sizes,
      column numbers) are Python / torch integers: [Z].
    - A triple tensor of shape (n, 3) is a list of rows.
    - Boolean 2-D tensors carry their shape, so that torch's broadcasting of
      [&] is written out; score tensors are lists of rows that live in a
      store, because [filter_scores_] writes into them in place.
    - Exceptions are values of [exn]; a computation that can raise returns
      [exn + A], and the stateful part of the engine runs in the monad [M],
      which threads the tensor store and a trace.  The trace records the
      calls of the model's scoring functions, the calls of the evaluators'
      [process] callbacks and of [finalize], the in-place writes to score
      tensors and the warning of [filter_scores_], and nothing else.
    - Device placement ([model.to(device)], [tensor.to(device)]), the switch
      of the model to evaluation mode ([model.eval()]), gradient tracking,
      the progress bar, timing and info/debug logging have no effect on the
      values computed; they are left out and the trace does not record
      them.  So is the wrapper method [Evaluator.evaluate], which only
      chains [batch_and_slice] and [evaluate]. *)

From Stdlib Require Import ZArith Lia Bool.
From stdpp Require Import list strings gmap.

(* ===================================================================== *)
(** * Part I: the embedding                                               *)
(* ===================================================================== *)

(** ** Exceptions *)

(** What an external collaborator (torch, the model's scoring function)
    can raise: a [RuntimeError] with its message, or anything else. *)
Inductive foreign_exn :=
| ForeignRuntimeError (msg : string)
| ForeignOther (msg : string).

(** The exceptions of the module.  Each raise site of the source has its own
    constructor; [RuntimeError] and [OtherError] are the images of what the
    collaborators raise. *)
Inductive exn :=
| UnboundLocalError (var : string)
| NoneNotSubscriptable             (* TypeError: 'NoneType' object is not subscriptable *)
| NoneArithmetic                   (* TypeError: unsupported operand type(s) for None *)
| ColumnValueError (column : Z)    (* ValueError, _evaluate *)
| FilterColNotImplemented (filter_col : Z) (* NotImplementedError, create_sparse_positive_filter_ *)
| AssertionError
| IndexError
| UnknownParameter (key : string)  (* AttributeError, _param_size_search *)
| KeyError (key : string)
| SlicingNotImplemented (batch_size : Z)  (* MemoryError, _check_slicing_availability *)
| CannotFitHardware                (* MemoryError, batch_and_slice *)
| RuntimeError (msg : string)
| OtherError (msg : string)
| OverflowError.                   (* int / int: result too large for a float *)

Definition of_foreign (e : foreign_exn) : exn :=
  match e with
  | ForeignRuntimeError msg => RuntimeError msg
  | ForeignOther msg => OtherError msg
  end.

(** [MemoryError] is the class of the two sizing failures. *)
Definition is_MemoryError (e : exn) : bool :=
  match e with
  | SlicingNotImplemented _ | CannotFitHardware => true
  | _ => false
  end.

(** Sequencing of computations that can raise: [exn + _] is a monad, and
    stdpp's [x ← c; k] is its bind. *)
#[global] Instance exn_ret : MRet (sum exn) := fun A a => inr a.
#[global] Instance exn_bind : MBind (sum exn) := fun A B k c =>
  match c with
  | inl e => inl e
  | inr a => k a
  end.

(** [l[i]] for a list, raising [IndexError] out of range. *)
Definition at_index {A} (l : list A) (i : nat) : exn + A :=
  match l !! i with
  | Some a => inr a
  | None => inl IndexError
  end.

(** A comprehension whose body can raise: the first failure wins. *)
Fixpoint mapE {A B} (f : A -> exn + B) (l : list A) : exn + list B :=
  match l with
  | [] => inr []
  | a :: l' =>
      b ← f a;
      bs ← mapE f l';
      inr (b :: bs)
  end.

(** ** Triples *)

Record Triple := hrt { head_of : Z; rel_of : Z; tail_of : Z }.

Abbreviation MappedTriples := (list Triple).

(** [t[c]] for the columns 0, 1, 2 of a row.  The source only ever reads
    the columns 0, 1 and 2 (a column argument outside {0, 2} is rejected
    before any read), so the last branch stands for column 2. *)
Definition column (c : Z) (t : Triple) : Z :=
  if (c =? 0)%Z then head_of t
  else if (c =? 1)%Z then rel_of t
  else tail_of t.

(** ** Restriction masks *)

(** [(x[:, None] == ids[None, :]).any(dim=-1)] for one entry [x]. *)
Definition any_eq (x : Z) (ids : list Z) : bool :=
  existsb (fun e => (x =? e)%Z) ids.

(** [mask &= other] and [mask |= other] on 1-D boolean tensors. *)
Definition mask_and (mask other : list bool) : list bool := zip_with andb mask other.
Definition mask_or (mask other : list bool) : list bool := zip_with orb mask other.

(** [mapped_triples[:, col] == entity_id] *)
Definition column_eq (mapped_triples : MappedTriples) (col : Z) (id : Z) : list bool :=
  map (fun t => (column col t =? id)%Z) mapped_triples.

Definition _compute_triples_mask_high_memory
    (mapped_triples : MappedTriples)
    (restrict_entities_to restrict_relations_to : option (list Z)) : list bool :=
  let mask := repeat true (length mapped_triples) in
  let mask :=
    match restrict_entities_to with
    | Some ents =>
        fold_left
          (fun mask col =>
             mask_and mask (map (fun t => any_eq (column col t) ents) mapped_triples))
          [0%Z; 2%Z] mask
    | None => mask
    end in
  let mask :=
    match restrict_relations_to with
    | Some rels => mask_and mask (map (fun t => any_eq (column 1 t) rels) mapped_triples)
    | None => mask
    end in
  mask.

Definition _compute_triples_mask_low_memory
    (mapped_triples : MappedTriples)
    (restrict_entities_to restrict_relations_to : option (list Z)) : list bool :=
  let mask := repeat true (length mapped_triples) in
  let mask :=
    match restrict_entities_to with
    | Some ents =>
        let triples_entity_mask := repeat false (length mapped_triples) in
        let triples_entity_mask :=
          fold_left
            (fun m entity_id =>
               fold_left
                 (fun m col => mask_or m (column_eq mapped_triples col entity_id))
                 [0%Z; 2%Z] m)
            ents triples_entity_mask in
        mask_and mask triples_entity_mask
    | None => mask
    end in
  (* the relation mask is accumulated, and the function returns [mask] *)
  let triples_relation_mask :=
    match restrict_relations_to with
    | Some rels =>
        Some (fold_left
                (fun m relation_id => mask_or m (column_eq mapped_triples 1 relation_id))
                rels (repeat false (length mapped_triples)))
    | None => None
    end in
  mask.

(** [mapped_triples[mask]]: the rows whose mask entry is set. *)
Definition select_rows {A} (rows : list A) (mask : list bool) : list A :=
  (zip rows mask) ≫= (fun '(r, b) => if b : bool then [r] else []).

(** ** Boolean 2-D tensors *)

Record BoolTensor := {
  bt_rows : nat;
  bt_cols : nat;
  bt_at : nat -> nat -> bool
}.

(** [cols.view(1, -1) == rows] for a column vector [rows] of shape (B, 1)
    and the values [cols] laid out as a row of shape (1, P): shape (B, P). *)
Definition outer_eq (cols rows : list Z) : BoolTensor :=
  {| bt_rows := length rows;
     bt_cols := length cols;
     bt_at i j :=
       match rows !! i, cols !! j with
       | Some a, Some b => (b =? a)%Z
       | _, _ => false
       end |}.

(** torch's broadcasting of one dimension. *)
Definition broadcast_dim (a b : nat) : option nat :=
  if decide (a = b) then Some a
  else if decide (a = 1) then Some b
  else if decide (b = 1) then Some a
  else None.

(** The entry a tensor contributes at (i, j) once broadcast. *)
Definition bt_get (t : BoolTensor) (i j : nat) : bool :=
  bt_at t (if decide (bt_rows t = 1) then 0 else i)
          (if decide (bt_cols t = 1) then 0 else j).

(** [a & b] *)
Definition tensor_and (a b : BoolTensor) : exn + BoolTensor :=
  match broadcast_dim (bt_rows a) (bt_rows b), broadcast_dim (bt_cols a) (bt_cols b) with
  | Some r, Some c =>
      inr {| bt_rows := r; bt_cols := c; bt_at i j := bt_get a i j && bt_get b i j |}
  | _, _ => inl (RuntimeError "The size of tensor a must match the size of tensor b")
  end.

(** [t.nonzero()]: the coordinates of the set entries, in row-major order. *)
Definition nonzero (t : BoolTensor) : list (nat * nat) :=
  seq 0 (bt_rows t) ≫= (fun i =>
    seq 0 (bt_cols t) ≫= (fun j =>
      if bt_at t i j then [(i, j)] else [])).

(** ** The sparse positive filter *)

Definition create_sparse_positive_filter_
    (hrt_batch : MappedTriples) (all_pos_triples : MappedTriples)
    (relation_filter : option BoolTensor) (filter_col : Z)
  : exn + (list (nat * Z) * BoolTensor) :=
  if negb ((filter_col =? 0)%Z || (filter_col =? 2)%Z) then
    inl (FilterColNotImplemented filter_col)
  else
    let relation_filter :=
      match relation_filter with
      | None =>
          let relations := map (column 1) hrt_batch in
          outer_eq (map (column 1) all_pos_triples) relations
      | Some rf => rf
      end in
    (* Split batch *)
    let other_col := (2 - filter_col)%Z in
    let entities := map (column other_col) hrt_batch in
    let entity_filter_test := outer_eq (map (column other_col) all_pos_triples) entities in
    both ← tensor_and entity_filter_test relation_filter;
    let filter_batch := nonzero both in
    filter_batch ←
      mapE (fun '(i, j) =>
              e ← at_index (map (column filter_col) all_pos_triples) j;
              inr (i, e))
           filter_batch;
    inr (filter_batch, relation_filter).

(** ** Keyword arguments of a size probe *)

(** The keyword arguments of one probe: [values_dict], a Python dict from
    parameter names to an integer or [None]. *)
Abbreviation Attempt := (gmap string (option Z)).

Definition dict_get (d : Attempt) (key : string) : exn + option Z :=
  match d !! key with
  | Some v => inr v
  | None => inl (KeyError key)
  end.

(** Integer arithmetic on a value that may be [None]. *)
Definition as_int (v : option Z) : exn + Z :=
  match v with
  | Some z => inr z
  | None => inl NoneArithmetic
  end.

(** [v == 1] *)
Definition is_one (v : option Z) : bool :=
  match v with
  | Some z => (z =? 1)%Z
  | None => false
  end.

(** ** Score tensors *)

(** The scores are floating-point numbers.  The engine never computes with
    them: it moves them around, writes NaN, 0 and 1, and tests for NaN
    ([scores != scores]).  These are the operations it needs from the type. *)
Class ScoreOps (score : Type) := {
  score_nan : score;
  score_zero : score;
  score_one : score;
  score_is_nan : score -> bool
}.

(** Python / torch indexing along a dimension of size [n]: an index in
    [-n, n) counts from the end when negative, anything else raises. *)
Definition resolve_index (n : nat) (i : Z) : exn + nat :=
  if ((0 <=? i) && (i <? Z.of_nat n))%Z then inr (Z.to_nat i)
  else if ((- Z.of_nat n <=? i) && (i <? 0))%Z then inr (Z.to_nat (i + Z.of_nat n))
  else inl IndexError.

Section Engine.

Context {score : Type} {ops : ScoreOps score}.

(** A score tensor of shape (batch_size, num_entities): its rows. *)
Abbreviation Matrix := (list (list score)).

(** [m[i, e]] *)
Definition read_entry (m : Matrix) (i : nat) (e : Z) : exn + score :=
  row ← at_index m i;
  k ← resolve_index (length row) e;
  at_index row k.

(** [m[i, e] = v] *)
Definition write_entry (m : Matrix) (i : nat) (e : Z) (v : score) : exn + Matrix :=
  row ← at_index m i;
  k ← resolve_index (length row) e;
  inr (<[i := <[k := v]> row]> m).

(** [m[torch.arange(0, batch.shape[0]), batch[:, column]]]: a new tensor. *)
Definition gather_true (m : Matrix) (batch : MappedTriples) (col : Z) : exn + list score :=
  mapE (fun '(i, t) => read_entry m i (column col t)) (zip (seq 0 (length batch)) batch).

(** [m[idx[:, 0], idx[:, 1]] = v] *)
Fixpoint scatter (m : Matrix) (idx : list (nat * Z)) (v : score) : exn + Matrix :=
  match idx with
  | [] => inr m
  | (i, e) :: rest =>
      m' ← write_entry m i e v;
      scatter m' rest v
  end.

(** [m[torch.arange(0, batch.shape[0]), batch[:, column]] = values], where
    [values] has one entry per row of the batch. *)
Fixpoint assign_true (m : Matrix) (rows : list (nat * Triple)) (col : Z)
    (values : list score) : exn + Matrix :=
  match rows, values with
  | (i, t) :: rows', v :: values' =>
      m' ← write_entry m i (column col t) v;
      assign_true m' rows' col values'
  | _, _ => inr m
  end.

(** [m[:, ids]]: a new tensor holding the selected columns. *)
Definition index_cols (m : Matrix) (ids : list Z) : exn + Matrix :=
  mapE (fun row => mapE (fun e => k ← resolve_index (length row) e; at_index row k) ids) m.

(** [torch.zeros_like(m)] *)
Definition zeros_like (m : Matrix) : Matrix := map (map (fun _ => score_zero)) m.

(** The tensor is written in place and returned; the caller passes a fresh
    [zeros_like], which nothing else refers to. *)
Definition create_dense_positive_mask_ (zero_tensor : Matrix)
    (filter_batch : list (nat * Z)) : exn + Matrix :=
  scatter zero_tensor filter_batch score_one.

(** ** Collaborators *)

Record Evaluator := {
  ev_id : nat;  (* which object this is *)
  filtered : bool;
  requires_positive_mask : bool
}.

Record Model := {
  factory_mapped_triples : MappedTriples;   (* model.triples_factory.mapped_triples *)
  create_inverse_triples : bool;            (* model.triples_factory.create_inverse_triples *)
  can_slice_h : bool;
  can_slice_t : bool;
  num_entities : Z;
  (* the opaque scoring functions: the (h, r) or (r, t) pairs and the slice size *)
  predict_scores_all_tails : list (Z * Z) -> option Z -> foreign_exn + Matrix;
  predict_scores_all_heads : list (Z * Z) -> option Z -> foreign_exn + Matrix
}.

Inductive MetricResults := ResultsOf (e : Evaluator).

(** ** The store of score tensors and the trace of calls *)

Inductive Event :=
| EvPredict (column : Z) (batch : MappedTriples) (slice_size : option Z)
    (* the model's scoring function is invoked *)
| EvProcess (e : Evaluator) (tail_side : bool) (hrt_batch : MappedTriples)
    (true_scores : list score) (scores_ref : nat) (scores : Matrix)
    (dense_positive_mask : option Matrix)
    (* [process_tail_scores_] / [process_head_scores_] of [e] is called with
       the tensor at [scores_ref], whose contents are [scores] at that time *)
| EvInplace (ref : nat)
    (* the tensor at [ref] is written in place *)
| EvWarning
    (* logger.warning: all corrupted triples of a row are positives *)
| EvFinalize (e : Evaluator).

Record World := { heap : list Matrix; trace : list Event }.

Definition M (A : Type) : Type := World -> (exn + A) * World.

#[global] Instance M_ret : MRet M := fun A a w => (inr a, w).
#[global] Instance M_bind : MBind M := fun A B k c w =>
  match c w with
  | (inl e, w') => (inl e, w')
  | (inr a, w') => k a w'
  end.

Definition raise {A} (e : exn) : M A := fun w => (inl e, w).

Definition lift {A} (c : exn + A) : M A := fun w => (c, w).

Definition emit (ev : Event) : M unit :=
  fun w => (inr tt, {| heap := heap w; trace := trace w ++ [ev] |}).

(** A new tensor object. *)
Definition alloc (m : Matrix) : M nat :=
  fun w => (inr (length (heap w)), {| heap := heap w ++ [m]; trace := trace w |}).

(** The contents of a tensor object.  Every reference the engine holds was
    returned by [alloc], so the second branch is never taken. *)
Definition load (ref : nat) : M Matrix :=
  fun w =>
    match heap w !! ref with
    | Some m => (inr m, w)
    | None => (inl (OtherError "dangling tensor reference"), w)
    end.

(** An in-place write to a tensor object. *)
Definition store_inplace (ref : nat) (m : Matrix) : M unit :=
  fun w => (inr tt, {| heap := <[ref := m]> (heap w); trace := trace w ++ [EvInplace ref] |}).

(** Reading a local variable of a Python function: [None] is a variable
    that no assignment has bound yet. *)
Definition read_local {A} (name : string) (v : option A) : exn + A :=
  match v with
  | Some a => inr a
  | None => inl (UnboundLocalError name)
  end.

(** [for x in l: body(x)] *)
Fixpoint for_each {A} (l : list A) (body : A -> M unit) : M unit :=
  match l with
  | [] => mret tt
  | a :: l' => _ ← body a; for_each l' body
  end.

(** ** filter_scores_ *)

(** [((scores != scores).sum(dim=1) == num_entities).any()] *)
Definition all_filtered_row (num_entities : nat) (scores : Matrix) : bool :=
  existsb
    (fun row => length (filter (fun s => score_is_nan s = true) row) =? num_entities)
    scores.

Definition filter_scores_ (scores : nat) (filter_batch : list (nat * Z)) : M nat :=
  m ← load scores;
  (* Bind shape *)
  let num_entities := length (default [] (head m)) in
  (* Set all filtered triples to NaN *)
  m' ← lift (scatter m filter_batch score_nan);
  _ ← store_inplace scores m';
  (* Warn if all entities will be filtered *)
  _ ← (if all_filtered_row num_entities m' then emit EvWarning else mret tt);
  mret scores.

(** ** _evaluate *)

(** The model's scoring function for one side of a batch: all tails for
    the (h, r) pairs, or all heads for the (r, t) pairs. *)
Definition model_scores (model : Model) (col : Z) (batch : MappedTriples)
    (slice_size : option Z) : foreign_exn + Matrix :=
  if (col =? 2)%Z
  then predict_scores_all_tails model (map (fun t => (head_of t, rel_of t)) batch) slice_size
  else predict_scores_all_heads model (map (fun t => (rel_of t, tail_of t)) batch) slice_size.

(** The call of the scoring function; the result is a new tensor object. *)
Definition predict (model : Model) (col : Z) (batch : MappedTriples)
    (slice_size : option Z) : M nat :=
  _ ← emit (EvPredict col batch slice_size);
  m ← lift (match model_scores model col batch slice_size with
            | inl e => inl (of_foreign e)
            | inr m => inr m
            end);
  alloc m.

(** [process(hrt_batch=..., true_scores=..., scores=..., dense_positive_mask=...)]
    where [process] is the evaluator's tail or head callback. *)
Definition process (e : Evaluator) (col : Z) (hrt_batch : MappedTriples)
    (true_scores : list score) (scores : nat) (dense_positive_mask : option Matrix) : M unit :=
  m ← load scores;
  emit (EvProcess e (col =? 2)%Z hrt_batch true_scores scores m dense_positive_mask).

(** The blocks of [_evaluate], in the order of the source.  Between the
    scoring call and the filter block nothing writes to the score tensor:
    its contents, [raw], are read once and the blocks that only compute
    from them are functions of [raw]. *)

(** "Create positive filter for all corrupted tails": the values of the
    locals [positive_filter_tails] (unbound when the branch is not taken)
    and [relation_filter]. *)
Definition positive_filter_block
    (batch : MappedTriples) (col : Z) (all_pos_triples : option MappedTriples)
    (relation_filter : option BoolTensor)
    (positive_masks_required filtering_necessary : bool)
  : exn + (option (list (nat * Z)) * option BoolTensor) :=
  if filtering_necessary || positive_masks_required then
    match all_pos_triples with
    | None => inl AssertionError
    | Some pos =>
        '(fb, rf) ← create_sparse_positive_filter_ batch pos relation_filter col;
        inr (Some fb, Some rf)
    end
  else inr (None, relation_filter).

(** "Create a positive mask with the size of the scores from the positive
    tails filter" *)
Definition positive_mask_block
    (raw : Matrix) (positive_filter_tails : option (list (nat * Z)))
    (positive_masks_required : bool) : exn + option Matrix :=
  if positive_masks_required then
    fb ← read_local "positive_filter_tails" positive_filter_tails;
    mask ← create_dense_positive_mask_ (zeros_like raw) fb;
    inr (Some mask)
  else inr None.

(** "Restrict to entities of interest": the values of the locals
    [scores_of_corrupted_tails_batch_] and [positive_mask_tails]. *)
Definition restrict_block
    (scores_of_corrupted_tails_batch : nat) (raw : Matrix)
    (positive_mask_tails : option Matrix)
    (restrict_entities_to : option (list Z)) : M (nat * option Matrix) :=
  match restrict_entities_to with
  | Some ids =>
      selected ← lift (index_cols raw ids);
      selected ← alloc selected;
      match positive_mask_tails with
      | None => raise NoneNotSubscriptable
      | Some mask =>
          mask ← lift (index_cols mask ids);
          mret (selected, Some mask)
      end
  | None => mret (scores_of_corrupted_tails_batch, positive_mask_tails)
  end.

(** "Evaluate metrics on these *unfiltered* tail scores" *)
Definition unfiltered_block
    (unfiltered_evaluators : list Evaluator) (col : Z) (batch : MappedTriples)
    (scores_of_true_tails_batch : list score)
    (scores_of_corrupted_tails_batch_ : nat)
    (positive_mask_tails : option Matrix) : M unit :=
  for_each unfiltered_evaluators (fun unfiltered_evaluator =>
    process unfiltered_evaluator col batch scores_of_true_tails_batch
            scores_of_corrupted_tails_batch_ positive_mask_tails).

(** "Filter" *)
Definition filter_block
    (filtered_evaluators : list Evaluator) (col : Z) (batch : MappedTriples)
    (scores_of_true_tails_batch : list score)
    (scores_of_corrupted_tails_batch : nat)
    (positive_filter_tails : option (list (nat * Z)))
    (restrict_entities_to : option (list Z))
    (filtering_necessary : bool) : M unit :=
  if filtering_necessary then
    fb ← lift (read_local "positive_filter_tails" positive_filter_tails);
    filtered_scores ← filter_scores_ scores_of_corrupted_tails_batch fb;
    (* The scores for the true triples have to be rewritten to the scores tensor *)
    m ← load filtered_scores;
    m ← lift (assign_true m (zip (seq 0 (length batch)) batch) col
                          scores_of_true_tails_batch);
    _ ← store_inplace filtered_scores m;
    (* Restrict to entities of interest *)
    filtered_scores ←
      match restrict_entities_to with
      | Some ids =>
          m ← load filtered_scores;
          selected ← lift (index_cols m ids);
          alloc selected
      | None => mret filtered_scores
      end;
    (* Evaluate metrics on these *filtered* tail scores *)
    for_each filtered_evaluators (fun filtered_evaluator =>
      process filtered_evaluator col batch scores_of_true_tails_batch
              filtered_scores None)
  else mret tt.

Definition _evaluate
    (batch : MappedTriples) (model : Model) (col : Z)
    (filtered_evaluators unfiltered_evaluators : list Evaluator)
    (slice_size : option Z)
    (all_pos_triples : option MappedTriples)
    (relation_filter : option BoolTensor)
    (restrict_entities_to : option (list Z))
    (positive_masks_required filtering_necessary : bool)
  : M (option BoolTensor) :=
  if negb ((col =? 0)%Z || (col =? 2)%Z) then raise (ColumnValueError col)
  else
    (* Predict scores once *)
    scores_of_corrupted_tails_batch ← predict model col batch slice_size;
    raw ← load scores_of_corrupted_tails_batch;
    scores_of_true_tails_batch ← lift (gather_true raw batch col);
    '(positive_filter_tails, relation_filter) ←
      lift (positive_filter_block batch col all_pos_triples relation_filter
                                  positive_masks_required filtering_necessary);
    positive_mask_tails ←
      lift (positive_mask_block raw positive_filter_tails positive_masks_required);
    '(scores_of_corrupted_tails_batch_, positive_mask_tails) ←
      restrict_block scores_of_corrupted_tails_batch raw positive_mask_tails
                     restrict_entities_to;
    _ ← unfiltered_block unfiltered_evaluators col batch scores_of_true_tails_batch
                         scores_of_corrupted_tails_batch_ positive_mask_tails;
    _ ← filter_block filtered_evaluators col batch scores_of_true_tails_batch
                     scores_of_corrupted_tails_batch positive_filter_tails
                     restrict_entities_to filtering_necessary;
    mret relation_filter.

(** ** evaluate *)

Section Evaluate.

(** [split_list_in_batches_iter] of [pykeen.utils] is imported by the
    source and its code is not part of it: the engine is parametric in the
    function that cuts the triples into batches. *)
Variable split_list_in_batches_iter : MappedTriples -> Z -> list MappedTriples.

(** [evaluators: Union[Evaluator, Collection[Evaluator]]] *)
Inductive Evaluators :=
| OneEvaluator (e : Evaluator)
| ManyEvaluators (l : list Evaluator).

(** [Union[MetricResults, List[MetricResults]]] *)
Inductive EvaluateResult :=
| SingleResult (r : MetricResults)
| ResultList (l : list MetricResults).

Section Loop.

Variables (model : Model) (filtered_evaluators unfiltered_evaluators : list Evaluator)
  (slice_size : option Z) (all_pos_triples : option MappedTriples)
  (restrict_entities_to : option (list Z))
  (positive_masks_required filtering_necessary only_size_probing : bool).

(** [for column in (0, 2): relation_filter = _evaluate(..., relation_filter=relation_filter, ...)].
    [relation_filter] is a local variable of [evaluate]; the arguments of
    the call are evaluated, and so the variable is read, before the call. *)
Fixpoint evaluate_columns (batch : MappedTriples) (columns : list Z)
    (relation_filter : option (option BoolTensor)) : M (option (option BoolTensor)) :=
  match columns with
  | [] => mret relation_filter
  | col :: columns' =>
      relation_filter_arg ← lift (read_local "relation_filter" relation_filter);
      new_filter ← _evaluate batch model col filtered_evaluators unfiltered_evaluators
                     slice_size all_pos_triples relation_filter_arg restrict_entities_to
                     positive_masks_required filtering_necessary;
      evaluate_columns batch columns' (Some new_filter)
  end.

(** [for batch in batches: ...], with the locals [relation_filter] and
    [evaluated_once] of [evaluate]. *)
Fixpoint evaluate_batches (batches : list MappedTriples)
    (relation_filter : option (option BoolTensor)) (evaluated_once : bool) : M unit :=
  match batches with
  | [] => mret tt
  | batch :: batches' =>
      relation_filter ← evaluate_columns batch [0%Z; 2%Z] relation_filter;
      (* If we only probe sizes we do not need more than one batch *)
      if only_size_probing && evaluated_once then mret tt
      else evaluate_batches batches' relation_filter true
  end.

End Loop.

(** [[evaluator.finalize() for evaluator in evaluators]] *)
Fixpoint finalize_all (evaluators : list Evaluator) : M (list MetricResults) :=
  match evaluators with
  | [] => mret []
  | e :: evaluators' =>
      _ ← emit (EvFinalize e);
      rs ← finalize_all evaluators';
      mret (ResultsOf e :: rs)
  end.

(** The triples that are evaluated: those the restriction retains. *)
Definition restrict_triples (mapped_triples : MappedTriples)
    (restrict_entities_to restrict_relations_to : option (list Z))
    (memory_intense_filtering : bool) : MappedTriples :=
  if bool_decide (is_Some restrict_relations_to) || bool_decide (is_Some restrict_entities_to) then
    let _compute_triples_mask :=
      if memory_intense_filtering then _compute_triples_mask_high_memory
      else _compute_triples_mask_low_memory in
    let mask := _compute_triples_mask mapped_triples restrict_entities_to restrict_relations_to in
    (* Actual filtering *)
    select_rows mapped_triples mask
  else mapped_triples.

Definition evaluate
    (model : Model) (mapped_triples : MappedTriples) (evaluators : Evaluators)
    (only_size_probing : bool) (batch_size slice_size : option Z) (squeeze : bool)
    (restrict_entities_to restrict_relations_to : option (list Z))
    (memory_intense_filtering : bool)
  : M EvaluateResult :=
  let evaluators :=
    match evaluators with
    | OneEvaluator e => [e]
    | ManyEvaluators l => l
    end in
  (* Filter triples *)
  let mapped_triples :=
    restrict_triples mapped_triples restrict_entities_to restrict_relations_to
                     memory_intense_filtering in
  (* Split evaluators *)
  let filtered_evaluators := List.filter (fun e => filtered e) evaluators in
  let unfiltered_evaluators := List.filter (fun e => negb (filtered e)) evaluators in
  let filtering_necessary := (0 <? length filtered_evaluators)%nat in
  let positive_masks_required := existsb requires_positive_mask unfiltered_evaluators in
  (* Prepare for result filtering *)
  let all_pos_triples :=
    if filtering_necessary || positive_masks_required
    then Some (factory_mapped_triples model ++ mapped_triples)
    else None in
  (* Prepare batches *)
  let batch_size := default 1%Z batch_size in
  let batches := split_list_in_batches_iter mapped_triples batch_size in
  (* batch-wise processing; [relation_filter] is not bound yet *)
  _ ← evaluate_batches model filtered_evaluators unfiltered_evaluators slice_size
        all_pos_triples restrict_entities_to positive_masks_required filtering_necessary
        only_size_probing batches None false;
  (* Finalize *)
  results ← finalize_all evaluators;
  match results with
  | [r] => if squeeze then mret (SingleResult r) else mret (ResultList results)
  | _ => mret (ResultList results)
  end.

End Evaluate.

(** ** The size controller *)

Definition _check_slicing_availability (model : Model) (batch_size : Z) : exn + unit :=
  if create_inverse_triples model then
    if negb (can_slice_t model) then inl (SlicingNotImplemented batch_size)
    else inr tt
  else if negb (can_slice_t model) || negb (can_slice_h model) then
    inl (SlicingNotImplemented batch_size)
  else inr tt.

Section SizeSearch.

(** [is_cudnn_error] and [is_cuda_oom_error] of [pykeen.utils] classify the
    message of a [RuntimeError]; their code is not part of the source. *)
Variables is_cudnn_error is_cuda_oom_error : string -> bool.

(** One probe is the call
    [evaluate(model=model, mapped_triples=mapped_triples, evaluators=self,
              only_size_probing=True, ...)] with the entries of
    [values_dict] as further keyword arguments.
    What it does depends on the hardware: the search is parametric in its
    outcome, [None] when the call returns and [Some e] when it raises [e],
    as a function of the probes made so far and of [values_dict]. *)
Variable probe : list Attempt -> Attempt -> option exn.

(** The local variables of [_param_size_search], and the probes made. *)
Record SearchState := {
  values_dict : Attempt;
  reached_max : bool;
  evaluated_once : bool;
  attempts : list Attempt
}.

Inductive Step :=
| Continue (st : SearchState)
| Break (st : SearchState)
| Raise (e : exn) (st : SearchState).

(** Leaving the body of the loop by an exception. *)
Definition step_of (st : SearchState) (c : exn + Step) : Step :=
  match c with
  | inl e => Raise e st
  | inr s => s
  end.

(** One iteration of [while True]. *)
Definition search_step (key : string) (maximum_triples : Z) (st : SearchState) : Step :=
  let outcome := probe (attempts st) (values_dict st) in
  let st :=
    {| values_dict := values_dict st; reached_max := reached_max st;
       evaluated_once := evaluated_once st;
       attempts := attempts st ++ [values_dict st] |} in
  match outcome with
  | Some (RuntimeError msg) =>
      (* except RuntimeError as runtime_error *)
      if negb (is_cudnn_error msg) && negb (is_cuda_oom_error msg) then
        Raise (RuntimeError msg) st
      else step_of st (
        v ← dict_get (values_dict st) key;
        if is_one v then inr (Break st)
        else
          z ← as_int v;
          inr (Continue
                 {| values_dict := <[key := Some (z / 2)%Z]> (values_dict st);
                    reached_max := true;
                    evaluated_once := false;
                    attempts := attempts st |}))
  | Some e => Raise e st
  | None =>
      (* else *)
      step_of st (
        grow ←
          (if negb (reached_max st) then
             b ← dict_get (values_dict st) "batch_size";
             b ← as_int b;
             inr (b <? maximum_triples)%Z
           else inr false);
        if grow : bool then
          v ← dict_get (values_dict st) key;
          z ← as_int v;
          inr (Continue
                 {| values_dict := <[key := Some (z * 2)%Z]> (values_dict st);
                    reached_max := reached_max st;
                    evaluated_once := true;
                    attempts := attempts st |})
        else if evaluated_once st then inr (Break st)
        else
          inr (Continue
                 {| values_dict := values_dict st;
                    reached_max := reached_max st;
                    evaluated_once := true;
                    attempts := attempts st |}))
  end.

(** What a search ends with: the pair it returns or the exception it
    raises, and the probes made. *)
Definition SearchResult : Type := (exn + (option Z * bool)) * list Attempt.

(** [while True: ...].  [None] when [fuel] iterations did not reach the end
    of the loop. *)
Fixpoint search_loop (fuel : nat) (key : string) (maximum_triples : Z)
    (st : SearchState) : option SearchResult :=
  match fuel with
  | O => None
  | S fuel' =>
      match search_step key maximum_triples st with
      | Continue st' => search_loop fuel' key maximum_triples st'
      | Break st' =>
          Some (v ← dict_get (values_dict st') key; inr (v, evaluated_once st'),
                attempts st')
      | Raise e st' => Some (inl e, attempts st')
      end
  end.

(** [history] holds the probes made before the call. *)
Definition _param_size_search (fuel : nat) (history : list Attempt)
    (key : string) (start_value : option Z) (model : Model)
    (mapped_triples : MappedTriples) : option SearchResult :=
  let maximum_triples := Z.of_nat (length mapped_triples) in
  let start st := search_loop fuel key maximum_triples st in
  if String.eqb key "batch_size" then
    let start_value := default 256%Z start_value in
    let start_value :=
      if (start_value >? maximum_triples)%Z then maximum_triples else start_value in
    start {| values_dict := <["slice_size" := None]> (<[key := Some start_value]> ∅);
             reached_max := false; evaluated_once := false; attempts := history |}
  else if String.eqb key "slice_size" then
    match _check_slicing_availability model 1 with
    | inl e => Some (inl e, history)
    | inr _ =>
        start {| values_dict := <["batch_size" := Some 1%Z]> (<[key := start_value]> ∅);
                 reached_max := false; evaluated_once := false; attempts := history |}
    end
  else Some (inl (UnknownParameter key), history).

(** [m / d] rounded to the nearest integer, ties to the even one, for a
    positive [d]. *)
Definition round_half_even (m d : Z) : Z :=
  let q := (m / d)%Z in
  let r := (m mod d)%Z in
  if (2 * r <? d)%Z then q
  else if (d <? 2 * r)%Z then (q + 1)%Z
  else if Z.even q then q else (q + 1)%Z.

(** [ceil(n / 2)] for an integer [n].  [/] is the true division of Python:
    its result is a float, the exact quotient rounded to 53 significant
    bits (ties to even), and the division raises [OverflowError] when the
    rounded quotient is beyond the range of a float; [ceil] then returns
    the least integer that is not below the float.  For an [n] of at most
    53 bits the quotient is a float as it is; for a longer [n] it is
    rounded to a multiple of [2 ^ (bits - 54)], which is an integer. *)
Definition ceil_half (n : Z) : exn + Z :=
  let m := Z.abs n in
  let bits := (Z.log2 m + 1)%Z in
  if (bits <=? 53)%Z then inr ((n + 1) / 2)%Z
  else
    let shift := (bits - 53)%Z in
    let v := (round_half_even m (2 ^ shift) * 2 ^ (shift - 1))%Z in
    if (2 ^ 1024 <=? v)%Z then inl OverflowError
    else inr (Z.sgn n * v)%Z.

(** The pair it returns is (batch_size, slice_size). *)
Definition batch_and_slice (fuel : nat) (model : Model) (mapped_triples : MappedTriples)
    (batch_size : option Z)
  : option ((exn + (option Z * option Z)) * list Attempt) :=
  match _param_size_search fuel [] "batch_size" batch_size model mapped_triples with
  | None => None
  | Some (inl e, log) => Some (inl e, log)
  | Some (inr (batch_size, evaluated_once), log) =>
      if evaluated_once : bool then Some (inr (batch_size, None), log)
      else
        (* We need to try slicing; the arguments of the call are evaluated
           before the call *)
        match ceil_half (num_entities model) with
        | inl e => Some (inl e, log)
        | inr start_value =>
            match _param_size_search fuel log "slice_size" (Some start_value)
                    model mapped_triples with
            | None => None
            | Some (inl e, log) => Some (inl e, log)
            | Some (inr (slice_size, evaluated_once), log) =>
                if evaluated_once : bool then Some (inr (batch_size, slice_size), log)
                else Some (inl CannotFitHardware, log)
            end
        end
  end.

End SizeSearch.

(** The probe of the source: [evaluate] in size-probing mode, started in
    the world [w], with the entries of [values_dict] as keyword arguments. *)
Definition evaluate_probe
    (split_list_in_batches_iter : MappedTriples -> Z -> list MappedTriples)
    (model : Model) (mapped_triples : MappedTriples) (self : Evaluator) (w : World)
  : list Attempt -> Attempt -> option exn :=
  fun _ values =>
    match evaluate split_list_in_batches_iter model mapped_triples (OneEvaluator self)
            true (default None (values !! "batch_size"))
            (default None (values !! "slice_size")) true None None false w with
    | (inl e, _) => Some e
    | (inr _, _) => None
    end.

End Engine.

(** ** Sample instances *)

(** A score type for the examples: a number or NaN. *)
Inductive sample_score := Num (z : Z) | NotANumber.

#[global] Instance sample_ops : ScoreOps sample_score := {
  score_nan := NotANumber;
  score_zero := Num 0;
  score_one := Num 1;
  score_is_nan s := match s with NotANumber => true | Num _ => false end
}.

(** The two triples of the end-to-end scenario, over three entities. *)
Definition sample_triples : MappedTriples := [hrt 0 0 1; hrt 1 0 2].

(** A model over three entities whose scoring functions return fixed
    scores for a batch of two triples. *)
Definition sample_model (inverse slice_h slice_t : bool) : @Model sample_score := {|
  factory_mapped_triples := sample_triples;
  create_inverse_triples := inverse;
  can_slice_h := slice_h;
  can_slice_t := slice_t;
  num_entities := 3;
  predict_scores_all_tails _ _ := inr [[Num 5; Num 1; Num 3]; [Num 2; Num 6; Num 4]];
  predict_scores_all_heads _ _ := inr [[Num 7; Num 8; Num 9]; [Num 1; Num 2; Num 3]]
|}.

(** The message of an out-of-memory [RuntimeError], and classifiers that
    recognise it. *)
Definition oom_message : string := "CUDA out of memory.".
Definition sample_is_cuda_oom_error (msg : string) : bool := String.eqb msg oom_message.
Definition sample_is_cudnn_error (msg : string) : bool := String.eqb msg "cuDNN error".

(** A synthetic probe that fails with an out-of-memory error exactly when
    the value under [key] exceeds [K]. *)
Definition threshold_scorer (key : string) (K : Z) : list Attempt -> Attempt -> option exn :=
  fun _ d =>
    match d !! key with
    | Some (Some v) => if (K <? v)%Z then Some (RuntimeError oom_message) else None
    | _ => None
    end.

(** A synthetic probe that always fails with an out-of-memory error. *)
Definition failing_scorer : list Attempt -> Attempt -> option exn :=
  fun _ _ => Some (RuntimeError oom_message).

(** One batch per triple. *)
Definition singleton_batches (l : MappedTriples) (batch_size : Z) : list MappedTriples :=
  map (fun t => [t]) l.

(* ===================================================================== *)
(** * Part II: properties                                                 *)
(* ===================================================================== *)

(** ** Restriction masks *)

(** Membership in an optional restriction: no restriction admits all. *)
Definition allowed (x : Z) (restriction : option (list Z)) : bool :=
  match restriction with
  | Some ids => any_eq x ids
  | None => true
  end.

Lemma mask_and_map {A} (f g : A -> bool) (l : list A) :
  mask_and (map f l) (map g l) = map (fun a => f a && g a) l.
Proof.
  unfold mask_and. induction l as [|a l IH]; simpl; [reflexivity|].
  now rewrite IH.
Qed.

Lemma mask_or_map {A} (f g : A -> bool) (l : list A) :
  mask_or (map f l) (map g l) = map (fun a => f a || g a) l.
Proof.
  unfold mask_or. induction l as [|a l IH]; simpl; [reflexivity|].
  now rewrite IH.
Qed.

Lemma repeat_as_map {A} (b : bool) (l : list A) :
  repeat b (length l) = map (fun _ => b) l.
Proof. induction l as [|a l IH]; simpl; [reflexivity|]. now rewrite IH. Qed.

Lemma map_ext_bool {A} (f g : A -> bool) (l : list A) :
  (forall a, f a = g a) -> map f l = map g l.
Proof. intros H. induction l as [|a l IH]; simpl; [reflexivity|]. now rewrite H, IH. Qed.

(** The broadcast variant keeps a triple when head and tail are both
    allowed entities and the relation is an allowed relation. *)
Lemma high_memory_mask_spec triples ents rels :
  _compute_triples_mask_high_memory triples ents rels
  = map (fun t => allowed (head_of t) ents && allowed (tail_of t) ents
                  && allowed (rel_of t) rels) triples.
Proof.
  unfold _compute_triples_mask_high_memory.
  rewrite repeat_as_map.
  destruct ents as [ents|], rels as [rels|]; simpl;
    rewrite ?mask_and_map; apply map_ext_bool; intros t;
    unfold column; simpl; now rewrite ?andb_true_r.
Qed.

Lemma low_memory_entity_loop triples ents (g : Triple -> bool) :
  fold_left
    (fun m entity_id =>
       fold_left (fun m col => mask_or m (column_eq triples col entity_id)) [0%Z; 2%Z] m)
    ents (map g triples)
  = map (fun t => g t || (any_eq (head_of t) ents || any_eq (tail_of t) ents)) triples.
Proof.
  revert g. induction ents as [|e ents IH]; intros g; simpl.
  - apply map_ext_bool. intros t. now rewrite orb_false_r.
  - unfold column_eq. rewrite !mask_or_map, IH.
    apply map_ext_bool. intros t. unfold column. simpl.
    destruct (g t), (head_of t =? e)%Z, (tail_of t =? e)%Z,
      (any_eq (head_of t) ents), (any_eq (tail_of t) ents); reflexivity.
Qed.

(** The incremental variant keeps a triple when its head or its tail is an
    allowed entity, whatever the relation restriction. *)
Lemma low_memory_mask_spec triples ents rels :
  _compute_triples_mask_low_memory triples ents rels
  = map (fun t =>
           match ents with
           | Some ids => any_eq (head_of t) ids || any_eq (tail_of t) ids
           | None => true
           end) triples.
Proof.
  unfold _compute_triples_mask_low_memory.
  rewrite !repeat_as_map.
  destruct ents as [ents|]; [|reflexivity].
  rewrite low_memory_entity_loop, mask_and_map.
  apply map_ext_bool. intros t. reflexivity.
Qed.

(** C2.  The two variants do not return the same mask.  For the triple
    (0, 0, 1) and the entity restriction {0} the broadcast variant drops the
    triple (its tail is not allowed) and the incremental variant keeps it;
    for the same triple and the relation restriction {1} the broadcast
    variant drops it and the incremental variant keeps it. *)
Theorem triples_mask_variants_disagree :
  _compute_triples_mask_high_memory [hrt 0 0 1] (Some [0%Z]) None = [false]
  /\ _compute_triples_mask_low_memory [hrt 0 0 1] (Some [0%Z]) None = [true]
  /\ _compute_triples_mask_high_memory [hrt 0 0 1] None (Some [1%Z]) = [false]
  /\ _compute_triples_mask_low_memory [hrt 0 0 1] None (Some [1%Z]) = [true].
Proof. repeat split; reflexivity. Qed.

(** Without any restriction the two variants agree. *)
Lemma triples_mask_variants_agree_unrestricted triples :
  _compute_triples_mask_high_memory triples None None
  = _compute_triples_mask_low_memory triples None None.
Proof. reflexivity. Qed.

(** ** The sparse positive filter *)

Lemma mapE_inr_map {A B} (f : A -> exn + B) (g : A -> B) (l : list A) :
  (forall a, a ∈ l -> f a = inr (g a)) -> mapE f l = inr (g <$> l).
Proof.
  induction l as [|a l IH]; intros H; simpl; [reflexivity|].
  rewrite (H a) by apply list_elem_of_here. simpl.
  rewrite IH; [reflexivity|].
  intros b Hb. apply H. now apply list_elem_of_further.
Qed.

Lemma broadcast_dim_same n : broadcast_dim n n = Some n.
Proof. unfold broadcast_dim. now rewrite decide_True. Qed.

Lemma bt_get_in_range t i j :
  i < bt_rows t -> j < bt_cols t -> bt_get t i j = bt_at t i j.
Proof.
  intros Hi Hj. unfold bt_get.
  destruct (decide (bt_rows t = 1)), (decide (bt_cols t = 1));
    f_equal; lia.
Qed.

Lemma elem_of_nonzero t i j :
  (i, j) ∈ nonzero t <-> i < bt_rows t /\ j < bt_cols t /\ bt_at t i j = true.
Proof.
  unfold nonzero. rewrite list_elem_of_bind. split.
  - intros (i' & Hin & Hi'). apply elem_of_seq in Hi'.
    apply list_elem_of_bind in Hin as (j' & Hin & Hj'). apply elem_of_seq in Hj'.
    destruct (bt_at t i' j') eqn:E; [|now apply not_elem_of_nil in Hin].
    apply list_elem_of_singleton in Hin. inversion Hin; subst.
    repeat split; [lia | lia | assumption].
  - intros (Hi & Hj & E). exists i. split; [|apply elem_of_seq; lia].
    apply list_elem_of_bind. exists j. split; [|apply elem_of_seq; lia].
    rewrite E. apply list_elem_of_singleton. reflexivity.
Qed.

(** The documented contract of the optional [relation_filter] argument:
    shape (batch_size, num_positive_triples), and entry (i, j) is set iff
    the j-th positive triple has the relation of the i-th batch triple. *)
Definition relation_filter_ok (hrt_batch all_pos_triples : MappedTriples)
    (relation_filter : option BoolTensor) : Prop :=
  match relation_filter with
  | None => True
  | Some rf =>
      bt_rows rf = length hrt_batch /\ bt_cols rf = length all_pos_triples
      /\ forall i j b p, hrt_batch !! i = Some b -> all_pos_triples !! j = Some p ->
           bt_at rf i j = (rel_of p =? rel_of b)%Z
  end.

(** The filter the function computes when both tensors have the shape
    (batch_size, num_positive_triples). *)
Lemma create_sparse_positive_filter_value hrt_batch all_pos_triples relation_filter filter_col :
  (filter_col = 0 \/ filter_col = 2)%Z ->
  relation_filter_ok hrt_batch all_pos_triples relation_filter ->
  exists both rf,
    create_sparse_positive_filter_ hrt_batch all_pos_triples relation_filter filter_col
    = inr ((fun '(i, j) =>
              (i, default 0%Z (map (column filter_col) all_pos_triples !! j)))
             <$> nonzero both, rf)
    /\ relation_filter_ok hrt_batch all_pos_triples (Some rf)
    /\ bt_rows both = length hrt_batch /\ bt_cols both = length all_pos_triples
    /\ forall i j b p, hrt_batch !! i = Some b -> all_pos_triples !! j = Some p ->
         bt_at both i j
         = ((column (2 - filter_col) p =? column (2 - filter_col) b)%Z
            && (rel_of p =? rel_of b)%Z).
Proof.
  intros Hcol Hrf. unfold create_sparse_positive_filter_.
  replace (negb ((filter_col =? 0)%Z || (filter_col =? 2)%Z)) with false
    by (destruct Hcol; subst; reflexivity).
  set (rf := match relation_filter with
             | Some rf => rf
             | None => outer_eq (map (column 1) all_pos_triples) (map (column 1) hrt_batch)
             end).
  assert (Hok : relation_filter_ok hrt_batch all_pos_triples (Some rf)).
  { subst rf. destruct relation_filter as [rf|]; [exact Hrf|].
    simpl. rewrite !length_map. repeat split.
    intros i j b p Hb Hp. rewrite !list_lookup_fmap, Hb, Hp. reflexivity. }
  destruct Hok as (Hr & Hc & Hat).
  set (eft := outer_eq (map (column (2 - filter_col)) all_pos_triples)
                       (map (column (2 - filter_col)) hrt_batch)).
  unfold tensor_and. simpl bt_rows. simpl bt_cols.
  rewrite !length_map, Hr, Hc, !broadcast_dim_same.
  set (both := {| bt_rows := length hrt_batch; bt_cols := length all_pos_triples;
                  bt_at := fun i j => bt_get eft i j && bt_get rf i j |}).
  simpl.
  rewrite (mapE_inr_map _
             (fun '(i, j) => (i, default 0%Z (map (column filter_col) all_pos_triples !! j)))).
  - simpl. exists both, rf. split; [reflexivity|].
    split; [now repeat split|]. repeat split.
    intros i j b p Hb Hp.
    change (bt_at both i j) with (bt_get eft i j && bt_get rf i j).
    assert (i < length hrt_batch) by (apply lookup_lt_is_Some; eauto).
    assert (j < length all_pos_triples) by (apply lookup_lt_is_Some; eauto).
    rewrite (bt_get_in_range rf) by lia.
    rewrite (bt_get_in_range eft) by (unfold eft; simpl; rewrite length_map; lia).
    rewrite (Hat i j b p Hb Hp). unfold eft. simpl.
    rewrite !list_lookup_fmap, Hb, Hp. reflexivity.
  - intros [i j] Hin. apply elem_of_nonzero in Hin as (_ & Hj & _). simpl in Hj.
    unfold at_index.
    destruct (map (column filter_col) all_pos_triples !! j) eqn:E; [reflexivity|].
    apply lookup_ge_None in E. rewrite length_map in E. lia.
Qed.

(** C3.  For a column in {0, 2}, any batch and any positive triples, with
    the relation filter absent or as documented, the call returns, and the
    pairs (i, e) it returns are exactly those for which some positive triple
    has the relation of batch row i, the entity of row i in the other
    column, and the entity e in the filter column. *)
Theorem create_sparse_positive_filter_exact
    hrt_batch all_pos_triples relation_filter filter_col :
  (filter_col = 0 \/ filter_col = 2)%Z ->
  relation_filter_ok hrt_batch all_pos_triples relation_filter ->
  exists filter_batch rf,
    create_sparse_positive_filter_ hrt_batch all_pos_triples relation_filter filter_col
    = inr (filter_batch, rf)
    /\ forall i e,
         (i, e) ∈ filter_batch <->
         exists b p, hrt_batch !! i = Some b /\ p ∈ all_pos_triples
                     /\ rel_of p = rel_of b
                     /\ column (2 - filter_col) p = column (2 - filter_col) b
                     /\ column filter_col p = e.
Proof.
  intros Hcol Hrf.
  destruct (create_sparse_positive_filter_value _ _ _ _ Hcol Hrf)
    as (both & rf & Heq & _ & Hr & Hc & Hat).
  eexists _, rf. split; [exact Heq|].
  intros i e. rewrite list_elem_of_fmap. split.
  - intros ([i' j] & Hpair & Hin). inversion Hpair; subst i' e; clear Hpair.
    apply elem_of_nonzero in Hin as (Hi & Hj & Hset).
    rewrite Hr in Hi. rewrite Hc in Hj.
    destruct (lookup_lt_is_Some_2 hrt_batch i Hi) as [b Hb].
    destruct (lookup_lt_is_Some_2 all_pos_triples j Hj) as [p Hp].
    rewrite (Hat i j b p Hb Hp) in Hset.
    apply andb_true_iff in Hset as [He Hrel].
    apply Z.eqb_eq in He. apply Z.eqb_eq in Hrel.
    exists b, p. repeat split; try assumption.
    + apply list_elem_of_lookup. eauto.
    + rewrite list_lookup_fmap, Hp. reflexivity.
  - intros (b & p & Hb & Hp & Hrel & He & Hcolp).
    apply list_elem_of_lookup in Hp as [j Hp].
    exists (i, j). split.
    + rewrite list_lookup_fmap, Hp. simpl. now rewrite Hcolp.
    + apply elem_of_nonzero. rewrite Hr, Hc.
      split; [apply lookup_lt_is_Some; eauto|].
      split; [apply lookup_lt_is_Some; eauto|].
      rewrite (Hat i j b p Hb Hp), He, Hrel, !Z.eqb_refl. reflexivity.
Qed.

(** ** Running the engine *)

Section EngineProperties.

Context {score : Type} {ops : ScoreOps score}.

Abbreviation Matrix := (list (list score)).

Implicit Types (h : list (Matrix)) (tr : list (@Event score)).

Lemma run_bind {A B} (c : @M score A) (k : A -> @M score B) (w : @World score) :
  (c ≫= k) w
  = match c w return (exn + B) * @World score with
    | (inl e, w') => (inl e, w')
    | (inr a, w') => k a w'
    end.
Proof. reflexivity. Qed.

Lemma lookup_fresh h (m : Matrix) : (h ++ [m]) !! length h = Some m.
Proof. rewrite lookup_app_r by lia. now rewrite Nat.sub_diag. Qed.

Lemma predict_run (model : @Model score) col batch slice_size h tr :
  predict model col batch slice_size {| heap := h; trace := tr |}
  = match model_scores model col batch slice_size with
    | inl e =>
        (inl (of_foreign e),
         {| heap := h; trace := tr ++ [EvPredict col batch slice_size] |})
    | inr raw =>
        (inr (length h),
         {| heap := h ++ [raw]; trace := tr ++ [EvPredict col batch slice_size] |})
    end.
Proof.
  unfold predict. rewrite !run_bind. simpl.
  destruct (model_scores model col batch slice_size); reflexivity.
Qed.

(** The calls one dispatch loop makes. *)
Definition dispatch (evaluators : list Evaluator) (col : Z) (batch : MappedTriples)
    (true_scores : list score) (ref : nat) (scores : Matrix)
    (mask : option (Matrix)) : list (@Event score) :=
  (fun e => EvProcess e (col =? 2)%Z batch true_scores ref scores mask) <$> evaluators.

Lemma for_each_process_run evaluators col batch true_scores ref scores mask h tr :
  h !! ref = Some scores ->
  for_each evaluators
    (fun e => process e col batch true_scores ref mask) {| heap := h; trace := tr |}
  = (inr tt,
     {| heap := h;
        trace := tr ++ dispatch evaluators col batch true_scores ref scores mask |}).
Proof.
  intros Href. revert tr.
  induction evaluators as [|e evaluators IH]; intros tr; simpl.
  - unfold dispatch. simpl. now rewrite app_nil_r.
  - rewrite run_bind. unfold process at 1. rewrite run_bind.
    unfold load, emit. cbn [heap trace]. rewrite Href, IH.
    unfold dispatch. cbn [trace]. rewrite <- app_assoc. reflexivity.
Qed.

Lemma finalize_all_run evaluators h tr :
  finalize_all evaluators {| heap := h; trace := tr |}
  = (inr (ResultsOf <$> evaluators),
     {| heap := h; trace := tr ++ (EvFinalize <$> evaluators) |}).
Proof.
  revert tr. induction evaluators as [|e evaluators IH]; intros tr; simpl.
  - now rewrite app_nil_r.
  - rewrite run_bind. unfold emit. cbn [heap trace].
    rewrite run_bind, IH. cbn [trace]. rewrite <- app_assoc. reflexivity.
Qed.

(** ** evaluate and its unbound local *)

(** The first batch is never evaluated: reading [relation_filter] raises. *)
Lemma evaluate_batches_unbound
    (model : @Model score) filtered_evaluators unfiltered_evaluators slice_size
    all_pos_triples restrict positive_masks_required filtering_necessary
    only_size_probing batch batches evaluated_once (w : @World score) :
  evaluate_batches model filtered_evaluators unfiltered_evaluators slice_size
    all_pos_triples restrict positive_masks_required filtering_necessary
    only_size_probing (batch :: batches) None evaluated_once w
  = (inl (UnboundLocalError "relation_filter"), w).
Proof. simpl evaluate_batches. rewrite !run_bind. reflexivity. Qed.

(** C1.  [evaluate] reads its local [relation_filter] before any assignment
    has bound it.  When the triples that remain after the restriction are
    cut into at least one batch, the call raises the unbound-local error and
    leaves the world as it found it: no tensor was created and no call was
    made, so the scoring function was not invoked.  When there is no batch,
    the call returns after finalizing the evaluators.  Hence the call
    returns only when there is no batch. *)
Theorem evaluate_reads_unbound_relation_filter
    (split_list_in_batches_iter : MappedTriples -> Z -> list MappedTriples)
    (model : @Model score) mapped_triples evaluators only_size_probing batch_size
    slice_size squeeze restrict_entities_to restrict_relations_to
    memory_intense_filtering (w : @World score) :
  let batches :=
    split_list_in_batches_iter
      (restrict_triples mapped_triples restrict_entities_to restrict_relations_to
                        memory_intense_filtering)
      (default 1%Z batch_size) in
  let run :=
    evaluate split_list_in_batches_iter model mapped_triples evaluators only_size_probing
             batch_size slice_size squeeze restrict_entities_to restrict_relations_to
             memory_intense_filtering w in
  (batches <> [] -> run = (inl (UnboundLocalError "relation_filter"), w))
  /\ (batches = [] ->
      exists results w', run = (inr results, w') /\ heap w' = heap w
        /\ forall ev, ev ∈ trace w' -> ev ∈ trace w \/ exists e, ev = EvFinalize e)
  /\ (forall results w', run = (inr results, w') -> batches = []).
Proof.
  intros batches run.
  assert (Hraise : batches <> [] -> run = (inl (UnboundLocalError "relation_filter"), w)).
  { intros Hne. subst run. unfold evaluate. fold batches.
    destruct batches as [|batch rest]; [congruence|].
    rewrite run_bind, evaluate_batches_unbound. reflexivity. }
  split; [exact Hraise|]. split.
  - intros Hnil. subst run. unfold evaluate. fold batches. rewrite Hnil.
    destruct w as [h tr]. rewrite run_bind. simpl evaluate_batches.
    unfold mret at 1, M_ret at 1.
    rewrite run_bind, finalize_all_run.
    set (evs := match evaluators with OneEvaluator e => [e] | ManyEvaluators l => l end).
    assert (Htrace : forall ev, ev ∈ tr ++ (EvFinalize <$> evs) ->
                       ev ∈ tr \/ exists e, ev = EvFinalize e).
    { intros ev Hev. apply elem_of_app in Hev as [Hev|Hev]; [now left|right].
      apply list_elem_of_fmap in Hev as (e & -> & _). now exists e. }
    destruct (ResultsOf <$> evs) as [|r [|r' rs]]; [| destruct squeeze |];
      (eexists _, _; split; [reflexivity|]; split; [reflexivity|exact Htrace]).
  - intros results w' Hrun.
    destruct batches as [|batch rest] eqn:Hb; [reflexivity|].
    rewrite Hraise in Hrun by congruence. discriminate.
Qed.

(** ** The blocks of _evaluate *)

Lemma restrict_block_run ref (raw : Matrix) mask restrict h tr :
  restrict_block ref raw mask restrict {| heap := h; trace := tr |}
  = match restrict with
    | None => (inr (ref, mask), {| heap := h; trace := tr |})
    | Some ids =>
        match index_cols raw ids with
        | inl e => (inl e, {| heap := h; trace := tr |})
        | inr selected =>
            match mask with
            | None => (inl NoneNotSubscriptable, {| heap := h ++ [selected]; trace := tr |})
            | Some mask =>
                match index_cols mask ids with
                | inl e => (inl e, {| heap := h ++ [selected]; trace := tr |})
                | inr mask' =>
                    (inr (length h, Some mask'), {| heap := h ++ [selected]; trace := tr |})
                end
            end
        end
    end.
Proof.
  unfold restrict_block. destruct restrict as [ids|]; [|reflexivity].
  rewrite run_bind. unfold lift at 1.
  destruct (index_cols raw ids) as [e|selected]; [reflexivity|].
  rewrite run_bind. unfold alloc. cbn [heap trace].
  destruct mask as [mask|]; [|reflexivity].
  rewrite run_bind. unfold lift.
  destruct (index_cols mask ids); reflexivity.
Qed.

(** What the logger receives from [filter_scores_]. *)
Definition warning (num_entities : nat) (scores : Matrix) : list (@Event score) :=
  if all_filtered_row num_entities scores then [EvWarning] else [].

Lemma filter_scores__run ref (m : Matrix) filter_batch h tr :
  h !! ref = Some m ->
  filter_scores_ ref filter_batch {| heap := h; trace := tr |}
  = match scatter m filter_batch score_nan with
    | inl e => (inl e, {| heap := h; trace := tr |})
    | inr m' =>
        (inr ref,
         {| heap := <[ref := m']> h;
            trace := (tr ++ [EvInplace ref]) ++ warning (length (default [] (head m))) m' |})
    end.
Proof.
  intros Href. unfold filter_scores_. rewrite run_bind.
  unfold load. cbn [heap trace]. rewrite Href.
  rewrite run_bind. unfold lift.
  destruct (scatter m filter_batch score_nan) as [e|m']; [reflexivity|].
  rewrite run_bind. unfold store_inplace. cbn [heap trace].
  rewrite run_bind. unfold warning.
  destruct (all_filtered_row _ m'); [|now rewrite app_nil_r].
  reflexivity.
Qed.

Lemma filter_block_run
    filtered_evaluators col batch true_scores ref (raw : Matrix)
    positive_filter_tails restrict filtering_necessary h tr :
  h !! ref = Some raw ->
  filter_block filtered_evaluators col batch true_scores ref positive_filter_tails
               restrict filtering_necessary {| heap := h; trace := tr |}
  = if filtering_necessary then
      match read_local "positive_filter_tails" positive_filter_tails with
      | inl e => (inl e, {| heap := h; trace := tr |})
      | inr fb =>
          match scatter raw fb score_nan with
          | inl e => (inl e, {| heap := h; trace := tr |})
          | inr m1 =>
              let tr1 := (tr ++ [EvInplace ref])
                         ++ warning (length (default [] (head raw))) m1 in
              match assign_true m1 (zip (seq 0 (length batch)) batch) col true_scores with
              | inl e => (inl e, {| heap := <[ref := m1]> h; trace := tr1 |})
              | inr m2 =>
                  let h2 := <[ref := m2]> (<[ref := m1]> h) in
                  let tr2 := tr1 ++ [EvInplace ref] in
                  match restrict with
                  | None =>
                      (inr tt,
                       {| heap := h2;
                          trace := tr2 ++ dispatch filtered_evaluators col batch
                                                   true_scores ref m2 None |})
                  | Some ids =>
                      match index_cols m2 ids with
                      | inl e => (inl e, {| heap := h2; trace := tr2 |})
                      | inr selected =>
                          (inr tt,
                           {| heap := h2 ++ [selected];
                              trace := tr2 ++ dispatch filtered_evaluators col batch
                                                       true_scores (length h2) selected
                                                       None |})
                      end
                  end
              end
          end
      end
    else (inr tt, {| heap := h; trace := tr |}).
Proof.
  intros Href. unfold filter_block.
  destruct filtering_necessary; [|reflexivity].
  assert (Hlt : ref < length h) by (apply lookup_lt_is_Some; eauto).
  rewrite run_bind. unfold lift at 1.
  destruct (read_local _ positive_filter_tails) as [e|fb]; [reflexivity|].
  rewrite run_bind, (filter_scores__run _ _ _ _ _ Href).
  destruct (scatter raw fb score_nan) as [e|m1]; [reflexivity|].
  rewrite run_bind. unfold load at 1. cbn [heap trace].
  rewrite list_lookup_insert_eq by assumption.
  rewrite run_bind. unfold lift at 1.
  destruct (assign_true m1 _ col true_scores) as [e|m2]; [reflexivity|].
  rewrite run_bind. unfold store_inplace. cbn [heap trace].
  assert (Href2 : <[ref := m2]> (<[ref := m1]> h) !! ref = Some m2)
    by (apply list_lookup_insert_eq; now rewrite length_insert).
  destruct restrict as [ids|].
  - rewrite !run_bind. unfold load. cbn [heap trace]. rewrite Href2.
    unfold lift. destruct (index_cols m2 ids) as [e|selected]; [reflexivity|].
    unfold alloc, mbind, M_bind. cbn [heap trace].
    rewrite (for_each_process_run _ _ _ _ _ selected); [reflexivity|].
    apply lookup_fresh.
  - rewrite run_bind. unfold mret, M_ret.
    now rewrite (for_each_process_run _ _ _ _ _ m2).
Qed.

(** ** _evaluate, block by block *)

(** What remains of [_evaluate] once the scores, the true scores, the
    positive filter and the positive mask are there. *)
Definition dispatch_blocks
    (filtered_evaluators unfiltered_evaluators : list Evaluator) (col : Z)
    (batch : MappedTriples) (true_scores : list score) (ref : nat) (raw : Matrix)
    (positive_filter_tails : option (list (nat * Z)))
    (relation_filter : option BoolTensor) (mask : option (Matrix))
    (restrict : option (list Z)) (filtering_necessary : bool)
  : @M score (option BoolTensor) :=
  '(scores_, mask) ← restrict_block ref raw mask restrict;
  _ ← unfiltered_block unfiltered_evaluators col batch true_scores scores_ mask;
  _ ← filter_block filtered_evaluators col batch true_scores ref positive_filter_tails
                   restrict filtering_necessary;
  mret relation_filter.

Lemma _evaluate_unfold
    batch (model : @Model score) col filtered_evaluators unfiltered_evaluators slice_size
    all_pos_triples relation_filter restrict positive_masks_required
    filtering_necessary h tr :
  _evaluate batch model col filtered_evaluators unfiltered_evaluators slice_size
            all_pos_triples relation_filter restrict positive_masks_required
            filtering_necessary {| heap := h; trace := tr |}
  = if negb ((col =? 0)%Z || (col =? 2)%Z) then
      (inl (ColumnValueError col), {| heap := h; trace := tr |})
    else
      let tr1 := tr ++ [EvPredict col batch slice_size] in
      match model_scores model col batch slice_size with
      | inl e => (inl (of_foreign e), {| heap := h; trace := tr1 |})
      | inr raw =>
          let w1 := {| heap := h ++ [raw]; trace := tr1 |} in
          match gather_true raw batch col with
          | inl e => (inl e, w1)
          | inr true_scores =>
              match positive_filter_block batch col all_pos_triples relation_filter
                      positive_masks_required filtering_necessary with
              | inl e => (inl e, w1)
              | inr (positive_filter_tails, relation_filter') =>
                  match positive_mask_block raw positive_filter_tails
                          positive_masks_required with
                  | inl e => (inl e, w1)
                  | inr mask =>
                      dispatch_blocks filtered_evaluators unfiltered_evaluators col batch
                        true_scores (length h) raw positive_filter_tails relation_filter'
                        mask restrict filtering_necessary w1
                  end
              end
          end
      end.
Proof.
  unfold _evaluate.
  destruct (negb ((col =? 0)%Z || (col =? 2)%Z)); [reflexivity|].
  rewrite run_bind, predict_run.
  destruct (model_scores model col batch slice_size) as [e|raw]; [reflexivity|].
  cbv zeta. rewrite run_bind. unfold load at 1. cbn [heap trace].
  rewrite lookup_fresh.
  rewrite run_bind. unfold lift at 1.
  destruct (gather_true raw batch col) as [e|true_scores]; [reflexivity|].
  rewrite run_bind. unfold lift at 1.
  destruct (positive_filter_block _ _ _ _ _ _) as [e|[pf rf']]; [reflexivity|].
  rewrite run_bind. unfold lift at 1.
  destruct (positive_mask_block raw pf positive_masks_required) as [e|mask];
    reflexivity.
Qed.

(** The blocks after the scoring, from a world in which the tensor [ref]
    holds [raw], without and with an entity restriction. *)
Lemma dispatch_blocks_unrestricted
    filtered_evaluators unfiltered_evaluators col batch true_scores ref (raw : Matrix)
    positive_filter_tails relation_filter mask filtering_necessary h tr :
  h !! ref = Some raw ->
  dispatch_blocks filtered_evaluators unfiltered_evaluators col batch true_scores ref raw
    positive_filter_tails relation_filter mask None filtering_necessary
    {| heap := h; trace := tr |}
  = match filter_block filtered_evaluators col batch true_scores ref
            positive_filter_tails None filtering_necessary
            {| heap := h;
               trace := tr ++ dispatch unfiltered_evaluators col batch true_scores
                                       ref raw mask |} with
    | (inl e, w') => (inl e, w')
    | (inr _, w') => (inr relation_filter, w')
    end.
Proof.
  intros Href. unfold dispatch_blocks.
  rewrite run_bind, restrict_block_run.
  rewrite run_bind. unfold unfiltered_block.
  rewrite (for_each_process_run _ _ _ _ _ raw) by assumption.
  rewrite run_bind.
  destruct (filter_block _ _ _ _ _ _ _ _ _) as [[e|[]] w']; reflexivity.
Qed.

Lemma dispatch_blocks_restricted
    filtered_evaluators unfiltered_evaluators col batch true_scores ref (raw : Matrix)
    positive_filter_tails relation_filter mask ids filtering_necessary h tr :
  dispatch_blocks filtered_evaluators unfiltered_evaluators col batch true_scores ref raw
    positive_filter_tails relation_filter mask (Some ids) filtering_necessary
    {| heap := h; trace := tr |}
  = match index_cols raw ids with
    | inl e => (inl e, {| heap := h; trace := tr |})
    | inr selected =>
        match mask with
        | None => (inl NoneNotSubscriptable, {| heap := h ++ [selected]; trace := tr |})
        | Some mask =>
            match index_cols mask ids with
            | inl e => (inl e, {| heap := h ++ [selected]; trace := tr |})
            | inr mask' =>
                match filter_block filtered_evaluators col batch true_scores ref
                        positive_filter_tails (Some ids) filtering_necessary
                        {| heap := h ++ [selected];
                           trace := tr ++ dispatch unfiltered_evaluators col batch
                                                   true_scores (length h) selected
                                                   (Some mask') |} with
                | (inl e, w') => (inl e, w')
                | (inr _, w') => (inr relation_filter, w')
                end
            end
        end
    end.
Proof.
  unfold dispatch_blocks.
  rewrite run_bind, restrict_block_run.
  destruct (index_cols raw ids) as [e|selected]; [reflexivity|].
  destruct mask as [mask|]; [|reflexivity].
  destruct (index_cols mask ids) as [e|mask']; [reflexivity|].
  rewrite run_bind. unfold unfiltered_block.
  rewrite (for_each_process_run _ _ _ _ _ selected) by apply lookup_fresh.
  rewrite run_bind.
  destruct (filter_block _ _ _ _ _ _ _ _ _) as [[e|[]] w']; reflexivity.
Qed.

(** ** Entity restriction without a positive mask *)

(** C10.  With an entity restriction and no positive mask required, every
    call of [_evaluate] raises, and the trace it leaves holds at most the
    call of the scoring function: no evaluator was called.  When the steps
    before the restriction go through (a valid column, scores from the
    model, the true scores, the positive filter, and the restricted columns
    of the scores), the exception is the one for subscripting [None]. *)
Theorem restricted_evaluation_without_mask_fails
    batch (model : @Model score) col filtered_evaluators unfiltered_evaluators slice_size
    all_pos_triples relation_filter ids filtering_necessary (w : @World score) :
  exists e w',
    _evaluate batch model col filtered_evaluators unfiltered_evaluators slice_size
              all_pos_triples relation_filter (Some ids) false filtering_necessary w
    = (inl e, w')
    /\ (trace w' = trace w \/ trace w' = trace w ++ [EvPredict col batch slice_size])
    /\ (forall raw true_scores filters selected,
          (col = 0 \/ col = 2)%Z ->
          model_scores model col batch slice_size = inr raw ->
          gather_true raw batch col = inr true_scores ->
          positive_filter_block batch col all_pos_triples relation_filter false
                                filtering_necessary = inr filters ->
          index_cols raw ids = inr selected ->
          e = NoneNotSubscriptable).
Proof.
  destruct w as [h tr]. rewrite _evaluate_unfold. cbn [heap trace].
  destruct (negb ((col =? 0)%Z || (col =? 2)%Z)) eqn:Hguard.
  { eexists _, _. split; [reflexivity|]. split; [now left|].
    intros raw ts fl sel Hcol. destruct Hcol; subst; discriminate. }
  cbv zeta.
  destruct (model_scores model col batch slice_size) as [e|raw] eqn:Hs.
  { eexists _, _. split; [reflexivity|]. split; [now right|].
    intros; discriminate. }
  destruct (gather_true raw batch col) as [e|ts] eqn:Hg.
  { eexists _, _. split; [reflexivity|]. split; [now right|].
    intros raw' ts' fl sel _ [= <-]. congruence. }
  destruct (positive_filter_block _ _ _ _ _ _) as [e|[pf rf']] eqn:Hpf.
  { eexists _, _. split; [reflexivity|]. split; [now right|].
    intros; discriminate. }
  unfold positive_mask_block.
  rewrite dispatch_blocks_restricted.
  destruct (index_cols raw ids) as [e|sel] eqn:Hsel.
  { eexists _, _. split; [reflexivity|]. split; [now right|].
    intros raw' ts' fl sel _ [= <-]. congruence. }
  eexists _, _. split; [reflexivity|]. split; [now right|]. reflexivity.
Qed.

(** ** The order of dispatch and in-place filtering *)

(** What the filter block adds to the trace: nothing, or an in-place write
    to the score tensor [ref] followed by further writes to it, warnings,
    and calls of the filtered evaluators (which get no mask). *)
Definition filter_events (ref : nat) (filtered_evaluators : list Evaluator) (col : Z)
    (batch : MappedTriples) (true_scores : list score)
    (tail : list (@Event score)) : Prop :=
  tail = []
  \/ exists tail', tail = EvInplace ref :: tail'
       /\ forall ev, ev ∈ tail' ->
            ev = EvInplace ref \/ ev = EvWarning
            \/ exists e fref fview,
                 e ∈ filtered_evaluators
                 /\ ev = EvProcess e (col =? 2)%Z batch true_scores fref fview None.

Lemma elem_of_warning n (m : Matrix) ev : ev ∈ warning n m -> ev = EvWarning.
Proof.
  unfold warning. destruct (all_filtered_row n m); intros H.
  - now apply list_elem_of_singleton in H.
  - now apply not_elem_of_nil in H.
Qed.

Lemma elem_of_dispatch evaluators col batch true_scores ref (view : Matrix) mask ev :
  ev ∈ dispatch evaluators col batch true_scores ref view mask ->
  exists e, e ∈ evaluators /\ ev = EvProcess e (col =? 2)%Z batch true_scores ref view mask.
Proof.
  unfold dispatch. intros H. apply list_elem_of_fmap in H as (e & -> & He). eauto.
Qed.

Lemma filter_block_trace
    filtered_evaluators col batch true_scores ref (raw : Matrix)
    positive_filter_tails restrict filtering_necessary h tr :
  h !! ref = Some raw ->
  exists r h' tail,
    filter_block filtered_evaluators col batch true_scores ref positive_filter_tails
                 restrict filtering_necessary {| heap := h; trace := tr |}
    = (r, {| heap := h'; trace := tr ++ tail |})
    /\ filter_events ref filtered_evaluators col batch true_scores tail.
Proof.
  intros Href. rewrite (filter_block_run _ _ _ _ _ raw) by assumption.
  assert (Hnil : forall (r : exn + unit),
            exists r' h' tail,
              (r, {| heap := h; trace := tr |}) = (r', {| heap := h'; trace := tr ++ tail |})
              /\ filter_events ref filtered_evaluators col batch true_scores tail).
  { intros r. exists r, h, []. rewrite app_nil_r. split; [reflexivity|now left]. }
  destruct filtering_necessary; [|apply Hnil].
  destruct (read_local _ positive_filter_tails) as [e|fb]; [apply Hnil|].
  destruct (scatter raw fb score_nan) as [e|m1]; [apply Hnil|].
  cbv zeta.
  set (wn := warning _ m1).
  assert (Hwn : forall ev, ev ∈ wn -> ev = EvWarning) by apply elem_of_warning.
  destruct (assign_true m1 _ col true_scores) as [e|m2].
  { eexists _, _, (EvInplace ref :: wn). split.
    - rewrite <- app_assoc. reflexivity.
    - right. eexists. split; [reflexivity|]. intros ev Hev. right; left. auto. }
  destruct restrict as [ids|].
  - destruct (index_cols m2 ids) as [e|selected].
    + eexists _, _, (EvInplace ref :: wn ++ [EvInplace ref]). split.
      * rewrite <- !app_assoc. reflexivity.
      * right. eexists. split; [reflexivity|]. intros ev Hev.
        apply elem_of_app in Hev as [Hev|Hev]; [right; left; auto|].
        apply list_elem_of_singleton in Hev. now left.
    + eexists _, _, (EvInplace ref :: wn ++ EvInplace ref :: dispatch _ _ _ _ _ _ _).
      split.
      * rewrite <- !app_assoc. reflexivity.
      * right. eexists. split; [reflexivity|]. intros ev Hev.
        apply elem_of_app in Hev as [Hev|Hev]; [right; left; auto|].
        apply elem_of_cons in Hev as [->|Hev]; [now left|].
        right; right. apply elem_of_dispatch in Hev as (e & He & ->). eauto.
  - eexists _, _, (EvInplace ref :: wn ++ EvInplace ref :: dispatch _ _ _ _ _ _ _).
    split.
    + rewrite <- !app_assoc. reflexivity.
    + right. eexists. split; [reflexivity|]. intros ev Hev.
      apply elem_of_app in Hev as [Hev|Hev]; [right; left; auto|].
      apply elem_of_cons in Hev as [->|Hev]; [now left|].
      right; right. apply elem_of_dispatch in Hev as (e & He & ->). eauto.
Qed.

(** C8.  The trace one call of [_evaluate] adds is empty (invalid column),
    or the scoring call alone (a step before the dispatch raised), or:
    the scoring call, then the calls of all unfiltered evaluators, then what
    the filter block does.  Each unfiltered evaluator is called with a
    tensor whose contents at the time of the call are the model's output
    [raw], or the restricted columns of [raw] under an entity restriction;
    without a restriction the tensor passed is the very tensor (the one
    created by the scoring call) that the filter block then writes in place.
    Every in-place write comes after the last unfiltered call. *)
Theorem unfiltered_dispatch_precedes_filtering
    batch (model : @Model score) col filtered_evaluators unfiltered_evaluators slice_size
    all_pos_triples relation_filter restrict positive_masks_required
    filtering_necessary (w : @World score) :
  let w' :=
    snd (_evaluate batch model col filtered_evaluators unfiltered_evaluators slice_size
                   all_pos_triples relation_filter restrict positive_masks_required
                   filtering_necessary w) in
  trace w' = trace w
  \/ trace w' = trace w ++ [EvPredict col batch slice_size]
  \/ exists raw true_scores ref view mask tail,
       model_scores model col batch slice_size = inr raw
       /\ gather_true raw batch col = inr true_scores
       /\ match restrict with
          | None => view = raw /\ ref = length (heap w)
          | Some ids => index_cols raw ids = inr view /\ ref = S (length (heap w))
          end
       /\ trace w'
          = trace w ++ EvPredict col batch slice_size
              :: dispatch unfiltered_evaluators col batch true_scores ref view mask ++ tail
       /\ filter_events (length (heap w)) filtered_evaluators col batch true_scores tail.
Proof.
  destruct w as [h tr]. cbv zeta. rewrite _evaluate_unfold. cbn [heap trace].
  destruct (negb ((col =? 0)%Z || (col =? 2)%Z)); [now left|].
  cbv zeta.
  destruct (model_scores model col batch slice_size) as [e|raw] eqn:Hs;
    [right; now left|].
  destruct (gather_true raw batch col) as [e|ts] eqn:Hg; [right; now left|].
  destruct (positive_filter_block _ _ _ _ _ _) as [e|[pf rf']]; [right; now left|].
  destruct (positive_mask_block raw pf positive_masks_required) as [e|mask];
    [right; now left|].
  destruct restrict as [ids|].
  - rewrite dispatch_blocks_restricted.
    destruct (index_cols raw ids) as [e|selected] eqn:Hsel; [right; now left|].
    destruct mask as [mask|]; [|right; now left].
    destruct (index_cols mask ids) as [e|mask']; [right; now left|].
    destruct (filter_block_trace filtered_evaluators col batch ts (length h) raw pf
                (Some ids) filtering_necessary ((h ++ [raw]) ++ [selected])
                ((tr ++ [EvPredict col batch slice_size])
                 ++ dispatch unfiltered_evaluators col batch ts (length (h ++ [raw]))
                             selected (Some mask')))
      as (r & h' & tail & Hrun & Htail).
    { rewrite lookup_app_l by (rewrite length_app; simpl; lia). apply lookup_fresh. }
    rewrite Hrun. right; right.
    exists raw, ts, (S (length h)), selected, (Some mask'), tail.
    split; [reflexivity|]. split; [exact Hg|]. split; [now split|].
    split; [|exact Htail].
    replace (length (h ++ [raw])) with (S (length h)) by (rewrite length_app; simpl; lia).
    destruct r as [e|[]]; cbn [snd trace]; now rewrite <- !app_assoc.
  - rewrite (dispatch_blocks_unrestricted _ _ _ _ _ _ raw) by apply lookup_fresh.
    destruct (filter_block_trace filtered_evaluators col batch ts (length h) raw pf
                None filtering_necessary (h ++ [raw])
                ((tr ++ [EvPredict col batch slice_size])
                 ++ dispatch unfiltered_evaluators col batch ts (length h) raw mask))
      as (r & h' & tail & Hrun & Htail); [apply lookup_fresh|].
    rewrite Hrun. right; right.
    exists raw, ts, (length h), raw, mask, tail.
    split; [reflexivity|]. split; [exact Hg|]. split; [now split|].
    split; [|exact Htail].
    destruct r as [e|[]]; cbn [snd trace]; now rewrite <- !app_assoc.
Qed.

(** ** The column contract *)

(** The two programming-contract errors. *)
Definition contract_error (e : exn) : bool :=
  match e with
  | ColumnValueError _ | FilterColNotImplemented _ => true
  | _ => false
  end.

(** A computation that raises no contract error. *)
Definition benign {A} (c : exn + A) : Prop :=
  forall e, c = inl e -> contract_error e = false.

Lemma benign_inr {A} (a : A) : benign (inr a : exn + A).
Proof. intros e; discriminate. Qed.

Lemma benign_inl {A} e : contract_error e = false -> benign (inl e : exn + A).
Proof. intros H e' [= <-]. exact H. Qed.

Lemma benign_bind {A B} (c : exn + A) (k : A -> exn + B) :
  benign c -> (forall a, benign (k a)) -> benign (c ≫= k).
Proof.
  intros Hc Hk e. destruct c as [e'|a]; simpl.
  - intros [= <-]. now apply Hc.
  - apply Hk.
Qed.

Lemma benign_mapE {A B} (f : A -> exn + B) (l : list A) :
  (forall a, benign (f a)) -> benign (mapE f l).
Proof.
  intros Hf. induction l as [|a l IH]; simpl; [apply benign_inr|].
  apply benign_bind; [apply Hf|]. intros b.
  apply benign_bind; [apply IH|]. intros bs. apply benign_inr.
Qed.

Lemma benign_at_index {A} (l : list A) i : benign (at_index l i).
Proof. unfold at_index. destruct (l !! i); [apply benign_inr|now apply benign_inl]. Qed.

Lemma benign_resolve_index n i : benign (resolve_index n i).
Proof.
  unfold resolve_index. repeat case_match; try apply benign_inr. now apply benign_inl.
Qed.

Lemma benign_read_local {A} name (v : option A) : benign (read_local name v).
Proof. destruct v; [apply benign_inr|now apply benign_inl]. Qed.

Lemma benign_read_entry (m : Matrix) i e : benign (read_entry m i e).
Proof.
  unfold read_entry.
  apply benign_bind; [apply benign_at_index|]. intros row.
  apply benign_bind; [apply benign_resolve_index|]. intros k. apply benign_at_index.
Qed.

Lemma benign_write_entry (m : Matrix) i e v : benign (write_entry m i e v).
Proof.
  unfold write_entry.
  apply benign_bind; [apply benign_at_index|]. intros row.
  apply benign_bind; [apply benign_resolve_index|]. intros k. apply benign_inr.
Qed.

Lemma benign_scatter (m : Matrix) idx v : benign (scatter m idx v).
Proof.
  revert m. induction idx as [|[i e] idx IH]; intros m; simpl; [apply benign_inr|].
  apply benign_bind; [apply benign_write_entry|]. intros m'. apply IH.
Qed.

Lemma benign_assign_true (m : Matrix) rows col values :
  benign (assign_true m rows col values).
Proof.
  revert m values. induction rows as [|[i t] rows IH]; intros m values; simpl;
    [apply benign_inr|].
  destruct values as [|v values]; [apply benign_inr|].
  apply benign_bind; [apply benign_write_entry|]. intros m'. apply IH.
Qed.

Lemma benign_index_cols (m : Matrix) ids : benign (index_cols m ids).
Proof.
  unfold index_cols. apply benign_mapE. intros row. apply benign_mapE. intros e.
  apply benign_bind; [apply benign_resolve_index|]. intros k. apply benign_at_index.
Qed.

Lemma benign_gather_true (m : Matrix) batch col : benign (gather_true m batch col).
Proof. unfold gather_true. apply benign_mapE. intros [i t]. apply benign_read_entry. Qed.

Lemma benign_tensor_and a b : benign (tensor_and a b).
Proof.
  unfold tensor_and. repeat case_match; try apply benign_inr; now apply benign_inl.
Qed.

Lemma benign_create_sparse_positive_filter_ batch pos relation_filter col :
  (col = 0 \/ col = 2)%Z ->
  benign (create_sparse_positive_filter_ batch pos relation_filter col).
Proof.
  intros Hcol. unfold create_sparse_positive_filter_.
  replace (negb ((col =? 0)%Z || (col =? 2)%Z)) with false
    by (destruct Hcol; subst; reflexivity).
  apply benign_bind; [apply benign_tensor_and|]. intros both.
  apply benign_bind; [|intros; apply benign_inr].
  apply benign_mapE. intros [i j].
  apply benign_bind; [apply benign_at_index|]. intros; apply benign_inr.
Qed.

Lemma benign_positive_filter_block batch col pos relation_filter pmr fn :
  (col = 0 \/ col = 2)%Z ->
  benign (positive_filter_block batch col pos relation_filter pmr fn).
Proof.
  intros Hcol. unfold positive_filter_block.
  destruct (fn || pmr); [|apply benign_inr].
  destruct pos as [pos|]; [|now apply benign_inl].
  apply benign_bind; [now apply benign_create_sparse_positive_filter_|].
  intros [fb rf]. apply benign_inr.
Qed.

Lemma benign_positive_mask_block (raw : Matrix) pf pmr :
  benign (positive_mask_block raw pf pmr).
Proof.
  unfold positive_mask_block. destruct pmr; [|apply benign_inr].
  apply benign_bind; [apply benign_read_local|]. intros fb.
  apply benign_bind; [apply benign_scatter|]. intros; apply benign_inr.
Qed.

Lemma benign_filter_block
    filtered_evaluators col batch true_scores ref (raw : Matrix) pf restrict fn h tr e w' :
  h !! ref = Some raw ->
  filter_block filtered_evaluators col batch true_scores ref pf restrict fn
               {| heap := h; trace := tr |} = (inl e, w') ->
  contract_error e = false.
Proof.
  intros Href. rewrite (filter_block_run _ _ _ _ _ raw) by assumption.
  destruct fn; [|discriminate].
  destruct (read_local _ pf) as [e1|fb] eqn:E1.
  { intros [= <- _]. now apply (benign_read_local _ _ _ E1). }
  destruct (scatter raw fb score_nan) as [e2|m1] eqn:E2.
  { intros [= <- _]. now apply (benign_scatter _ _ _ _ E2). }
  cbv zeta.
  destruct (assign_true m1 _ col true_scores) as [e3|m2] eqn:E3.
  { intros [= <- _]. now apply (benign_assign_true _ _ _ _ _ E3). }
  destruct restrict as [ids|]; [|discriminate].
  destruct (index_cols m2 ids) as [e4|sel] eqn:E4; [|discriminate].
  intros [= <- _]. now apply (benign_index_cols _ _ _ E4).
Qed.

(** C9.  For a column outside {0, 2}, [create_sparse_positive_filter_]
    raises its contract error and [_evaluate] raises its contract error,
    before doing anything else.  For a column in {0, 2}, whatever either of
    them raises is not a contract error. *)
Theorem column_contract
    batch (model : @Model score) col filtered_evaluators unfiltered_evaluators slice_size
    all_pos_triples relation_filter restrict positive_masks_required
    filtering_necessary pos (w : @World score) :
  let filter := create_sparse_positive_filter_ batch pos relation_filter col in
  let run :=
    _evaluate batch model col filtered_evaluators unfiltered_evaluators slice_size
              all_pos_triples relation_filter restrict positive_masks_required
              filtering_necessary w in
  (col <> 0%Z /\ col <> 2%Z ->
   filter = inl (FilterColNotImplemented col)
   /\ run = (inl (ColumnValueError col), w))
  /\ (col = 0%Z \/ col = 2%Z ->
      (forall e, filter = inl e -> contract_error e = false)
      /\ (forall e, fst run = inl e -> contract_error e = false)).
Proof.
  cbv zeta. split.
  - intros [H0 H2].
    assert (Hguard : negb ((col =? 0)%Z || (col =? 2)%Z) = true).
    { apply Z.eqb_neq in H0. apply Z.eqb_neq in H2. now rewrite H0, H2. }
    split.
    + unfold create_sparse_positive_filter_. now rewrite Hguard.
    + unfold _evaluate. now rewrite Hguard.
  - intros Hcol. split; [now apply benign_create_sparse_positive_filter_|].
    destruct w as [h tr]. rewrite _evaluate_unfold.
    replace (negb ((col =? 0)%Z || (col =? 2)%Z)) with false
      by (destruct Hcol; subst; reflexivity).
    cbv zeta.
    destruct (model_scores model col batch slice_size) as [e1|raw].
    { intros e [= <-]. now destruct e1. }
    destruct (gather_true raw batch col) as [e2|ts] eqn:E2.
    { intros e [= <-]. now apply (benign_gather_true _ _ _ _ E2). }
    destruct (positive_filter_block _ _ _ _ _ _) as [e3|[pf rf']] eqn:E3.
    { intros e [= <-]. now apply (benign_positive_filter_block _ _ _ _ _ _ Hcol _ E3). }
    destruct (positive_mask_block raw pf positive_masks_required) as [e4|mask] eqn:E4.
    { intros e [= <-]. now apply (benign_positive_mask_block _ _ _ _ E4). }
    destruct restrict as [ids|].
    + rewrite dispatch_blocks_restricted.
      destruct (index_cols raw ids) as [e5|sel] eqn:E5.
      { intros e [= <-]. now apply (benign_index_cols _ _ _ E5). }
      destruct mask as [mask|]; [|now intros e [= <-]].
      destruct (index_cols mask ids) as [e6|mask'] eqn:E6.
      { intros e [= <-]. now apply (benign_index_cols _ _ _ E6). }
      destruct (filter_block _ _ _ _ _ _ _ _ _) as [[e7|[]] w'] eqn:E7;
        [|discriminate].
      intros e [= <-].
      apply (benign_filter_block _ _ _ _ _ raw _ _ _ _ _ _ _) in E7; [exact E7|].
      rewrite lookup_app_l by (rewrite length_app; simpl; lia). apply lookup_fresh.
    + rewrite (dispatch_blocks_unrestricted _ _ _ _ _ _ raw) by apply lookup_fresh.
      destruct (filter_block _ _ _ _ _ _ _ _ _) as [[e7|[]] w'] eqn:E7;
        [|discriminate].
      intros e [= <-].
      apply (benign_filter_block _ _ _ _ _ raw _ _ _ _ _ _ _) in E7; [exact E7|].
      apply lookup_fresh.
Qed.

(** ** The size search *)

Section SizeSearchProperties.

Variables is_cudnn_error is_cuda_oom_error : string -> bool.
Variable probe : list Attempt -> Attempt -> option exn.

(** A memory-class error: a [RuntimeError] that one of the two classifiers
    recognises. *)
Definition memory_error (e : exn) : Prop :=
  exists msg, e = RuntimeError msg
              /\ (is_cudnn_error msg || is_cuda_oom_error msg) = true.

(** The probe fails with a memory-class error exactly when the probed
    parameter exceeds [K]. *)
Definition threshold_probe (key : string) (K : Z) : Prop :=
  forall history (d : Attempt) v,
    d !! key = Some (Some v) ->
    ((v <= K)%Z -> probe history d = None)
    /\ ((K < v)%Z -> exists e, probe history d = Some e /\ memory_error e).

(** Every probe fails with a memory-class error. *)
Definition always_failing_probe : Prop :=
  forall history (d : Attempt), exists e, probe history d = Some e /\ memory_error e.

Abbreviation step := (search_step is_cudnn_error is_cuda_oom_error probe).
Abbreviation loop := (search_loop is_cudnn_error is_cuda_oom_error probe).

(** The loop ends with [result], given enough fuel. *)
Definition ends_with (key : string) (maximum_triples : Z) (st : SearchState)
    (result : SearchResult) : Prop :=
  exists fuel0, forall fuel, fuel0 <= fuel -> loop fuel key maximum_triples st = Some result.

Lemma ends_continue key maximum_triples st st' result :
  step key maximum_triples st = Continue st' ->
  ends_with key maximum_triples st' result ->
  ends_with key maximum_triples st result.
Proof.
  intros Hstep [fuel0 H]. exists (S fuel0). intros fuel Hle.
  destruct fuel as [|fuel]; [lia|]. simpl. rewrite Hstep. apply H. lia.
Qed.

Lemma ends_break key maximum_triples st st' v :
  step key maximum_triples st = Break st' ->
  values_dict st' !! key = Some v ->
  ends_with key maximum_triples st (inr (v, evaluated_once st'), attempts st').
Proof.
  intros Hstep Hv. exists 1. intros fuel Hle.
  destruct fuel as [|fuel]; [lia|]. simpl. rewrite Hstep.
  unfold dict_get. rewrite Hv. reflexivity.
Qed.

(** More fuel does not change the outcome of a search that has ended. *)
Lemma search_loop_more_fuel key maximum_triples fuel : forall st result fuel',
  loop fuel key maximum_triples st = Some result -> fuel <= fuel' ->
  loop fuel' key maximum_triples st = Some result.
Proof.
  induction fuel as [|fuel IH]; intros st result fuel' Hrun Hle; [discriminate|].
  destruct fuel' as [|fuel']; [lia|]. simpl in *.
  destruct (step key maximum_triples st); [|assumption|assumption].
  apply (IH _ _ fuel' Hrun). lia.
Qed.

(** The state after the probe has been recorded. *)
Definition probed (st : SearchState) : SearchState :=
  {| values_dict := values_dict st; reached_max := reached_max st;
     evaluated_once := evaluated_once st;
     attempts := attempts st ++ [values_dict st] |}.

Lemma step_memory_failure key maximum_triples st e v :
  probe (attempts st) (values_dict st) = Some e -> memory_error e ->
  values_dict st !! key = Some (Some v) ->
  step key maximum_triples st
  = if (v =? 1)%Z then Break (probed st)
    else Continue {| values_dict := <[key := Some (v / 2)%Z]> (values_dict st);
                     reached_max := true; evaluated_once := false;
                     attempts := attempts st ++ [values_dict st] |}.
Proof.
  destruct st as [d rm eo log]. unfold probed. cbn [values_dict attempts reached_max evaluated_once].
  intros Hp (msg & -> & Hmem) Hv. unfold search_step.
  cbn [values_dict attempts reached_max evaluated_once]. rewrite Hp.
  replace (negb (is_cudnn_error msg) && negb (is_cuda_oom_error msg)) with false
    by (destruct (is_cudnn_error msg), (is_cuda_oom_error msg); simpl in *; congruence).
  cbn [values_dict attempts]. unfold dict_get. rewrite Hv. simpl.
  destruct (v =? 1)%Z; reflexivity.
Qed.

Lemma step_success key maximum_triples st v b :
  probe (attempts st) (values_dict st) = None ->
  values_dict st !! key = Some (Some v) ->
  values_dict st !! "batch_size" = Some (Some b) ->
  step key maximum_triples st
  = if negb (reached_max st) && (b <? maximum_triples)%Z then
      Continue {| values_dict := <[key := Some (v * 2)%Z]> (values_dict st);
                  reached_max := reached_max st; evaluated_once := true;
                  attempts := attempts st ++ [values_dict st] |}
    else if evaluated_once st then Break (probed st)
    else Continue {| values_dict := values_dict st; reached_max := reached_max st;
                     evaluated_once := true;
                     attempts := attempts st ++ [values_dict st] |}.
Proof.
  destruct st as [d rm eo log]. unfold probed. cbn [values_dict attempts reached_max evaluated_once].
  intros Hp Hv Hb. unfold search_step. cbn [values_dict attempts reached_max evaluated_once].
  rewrite Hp. unfold dict_get. rewrite Hb, Hv.
  destruct rm; simpl.
  - destruct eo; reflexivity.
  - destruct (b <? maximum_triples)%Z; simpl; [reflexivity|].
    destruct eo; reflexivity.
Qed.

(** The batch size in force while [key] has the value [v]. *)
Definition batch_size_at (key : string) (v : Z) : Z :=
  if String.eqb key "batch_size" then v else 1%Z.

(** [values_dict] holds [v] under [key] and the batch size in force. *)
Definition dict_ok (key : string) (d : Attempt) (v : Z) : Prop :=
  d !! key = Some (Some v) /\ d !! "batch_size" = Some (Some (batch_size_at key v)).

Lemma dict_ok_insert key d v v' :
  dict_ok key d v -> dict_ok key (<[key := Some v']> d) v'.
Proof.
  intros [Hk Hb]. split; [apply lookup_insert_eq|].
  unfold batch_size_at in *.
  destruct (String.eqb_spec key "batch_size") as [->|Hne].
  - apply lookup_insert_eq.
  - rewrite lookup_insert_ne by assumption. exact Hb.
Qed.

Section Threshold.

Variables (key : string) (K maximum_triples : Z).
Hypothesis HK : (1 <= K)%Z.
Hypothesis Hprobe : threshold_probe key K.

(** After a failure the search only shrinks: it ends at the first value on
    the halving ladder that fits. *)
Lemma shrink_ends n : forall v d eo log,
  Z.to_nat v <= n -> (1 <= v)%Z -> dict_ok key d v ->
  exists v' log',
    ends_with key maximum_triples
      {| values_dict := d; reached_max := true; evaluated_once := eo; attempts := log |}
      (inr (Some v', true), log')
    /\ (1 <= v' <= K)%Z /\ ((v <= K)%Z -> v' = v) /\ ((K < v)%Z -> (K <= 2 * v')%Z).
Proof.
  induction n as [|n IH]; intros v d eo log Hn Hv Hd; [lia|].
  destruct Hd as [Hk Hb].
  destruct (Hprobe log d v Hk) as [Hfit Hfail].
  destruct (Z_le_gt_dec v K) as [Hle|Hgt].
  - (* the value fits *)
    exists v. 
    assert (Hlast : forall log0, ends_with key maximum_triples
              {| values_dict := d; reached_max := true; evaluated_once := true;
                 attempts := log0 |}
              (inr (Some v, true), log0 ++ [d])).
    { intros log0.
      apply (ends_break _ _ _ (probed {| values_dict := d; reached_max := true;
                                         evaluated_once := true; attempts := log0 |}));
        [|exact Hk].
      rewrite (step_success _ _ _ v (batch_size_at key v));
        [reflexivity| |exact Hk|exact Hb].
      apply (Hprobe log0 d v Hk). exact Hle. }
    destruct eo.
    + exists (log ++ [d]). split; [apply Hlast|]. repeat split; lia.
    + exists ((log ++ [d]) ++ [d]). split; [|repeat split; lia].
      eapply ends_continue; [|apply Hlast].
      rewrite (step_success _ _ _ v (batch_size_at key v));
        [reflexivity|now apply Hfit|exact Hk|exact Hb].
  - (* the value is too big *)
    destruct (Hfail ltac:(lia)) as (e & He & Hmem).
    destruct (IH (v / 2)%Z (<[key := Some (v / 2)%Z]> d) false (log ++ [d]))
      as (v' & log' & Hends & Hrange & Heq & Hhalf).
    { assert (v / 2 < v)%Z by (apply Z.div_lt; lia).
      assert (0 <= v / 2)%Z by (apply Z.div_pos; lia). lia. }
    { assert (1 <= v / 2)%Z by (apply Z.div_le_lower_bound; lia). lia. }
    { now apply (dict_ok_insert _ _ v). }
    exists v', log'. split.
    + eapply ends_continue; [|exact Hends].
      erewrite (step_memory_failure _ _ _ e v); [|exact He|exact Hmem|exact Hk].
      replace (v =? 1)%Z with false by (symmetry; apply Z.eqb_neq; lia).
      reflexivity.
    + split; [exact Hrange|]. split; [lia|]. intros _.
      destruct (Z_le_gt_dec (v / 2) K) as [Hle2|Hgt2].
      * rewrite (Heq Hle2).
        assert (v <= 2 * (v / 2) + 1)%Z.
        { pose proof (Z.div_mod v 2 ltac:(lia)).
          pose proof (Z.mod_pos_bound v 2 ltac:(lia)). lia. }
        lia.
      * apply Hhalf. lia.
Qed.

(** Before any failure the search doubles while the batch size in force is
    below the number of triples. *)
Lemma grow_ends n : forall v d eo log,
  Z.to_nat (K + 1 - v) <= n -> (1 <= v)%Z -> dict_ok key d v ->
  exists v' log',
    ends_with key maximum_triples
      {| values_dict := d; reached_max := false; evaluated_once := eo; attempts := log |}
      (inr (Some v', true), log')
    /\ (1 <= v' <= K)%Z
    /\ ((K <= 2 * v')%Z \/ (maximum_triples <= batch_size_at key v')%Z).
Proof.
  induction n as [|n IH]; intros v d eo log Hn Hv Hd.
  - (* v > K: the first probe fails *)
    destruct Hd as [Hk Hb].
    destruct (Hprobe log d v Hk) as [_ Hfail].
    destruct (Hfail ltac:(lia)) as (e & He & Hmem).
    destruct (shrink_ends (Z.to_nat (v / 2)) (v / 2)%Z (<[key := Some (v / 2)%Z]> d)
                false (log ++ [d]))
      as (v' & log' & Hends & Hrange & Heq & Hhalf).
    { lia. }
    { assert (1 <= v / 2)%Z by (apply Z.div_le_lower_bound; lia). lia. }
    { now apply (dict_ok_insert _ _ v). }
    exists v', log'. split; [|split; [exact Hrange|left]].
    + eapply ends_continue; [|exact Hends].
      erewrite (step_memory_failure _ _ _ e v); [|exact He|exact Hmem|exact Hk].
      replace (v =? 1)%Z with false by (symmetry; apply Z.eqb_neq; lia).
      reflexivity.
    + destruct (Z_le_gt_dec (v / 2) K) as [Hle2|Hgt2].
      * rewrite (Heq Hle2).
        pose proof (Z.div_mod v 2 ltac:(lia)).
        pose proof (Z.mod_pos_bound v 2 ltac:(lia)). lia.
      * apply Hhalf. lia.
  - destruct (Z_le_gt_dec v K) as [Hle|Hgt].
    2:{ apply (IH v d eo log); [lia|exact Hv|exact Hd]. }
    pose proof Hd as [Hk Hb].
    destruct (Hprobe log d v Hk) as [Hfit _].
    destruct (batch_size_at key v <? maximum_triples)%Z eqn:Hgrow.
    + (* double *)
      destruct (IH (v * 2)%Z (<[key := Some (v * 2)%Z]> d) true (log ++ [d]))
        as (v' & log' & Hends & Hrange & Hmax).
      { lia. } { lia. } { now apply (dict_ok_insert _ _ v). }
      exists v', log'. split; [|now split].
      eapply ends_continue; [|exact Hends].
      rewrite (step_success _ _ _ v (batch_size_at key v));
        [|now apply Hfit|exact Hk|exact Hb].
      cbn [reached_max]. rewrite Hgrow. reflexivity.
    + (* no room to grow: confirm and stop *)
      apply Z.ltb_ge in Hgrow.
      assert (Hlast : forall log0, ends_with key maximum_triples
                {| values_dict := d; reached_max := false; evaluated_once := true;
                   attempts := log0 |}
                (inr (Some v, true), log0 ++ [d])).
      { intros log0.
        apply (ends_break _ _ _ (probed {| values_dict := d; reached_max := false;
                                           evaluated_once := true; attempts := log0 |}));
          [|exact Hk].
        rewrite (step_success _ _ _ v (batch_size_at key v));
          [|apply (Hprobe log0 d v Hk); exact Hle|exact Hk|exact Hb].
        cbn [reached_max evaluated_once].
        replace (batch_size_at key v <? maximum_triples)%Z with false
          by (symmetry; now apply Z.ltb_ge).
        reflexivity. }
      exists v. destruct eo.
      * exists (log ++ [d]). split; [apply Hlast|]. split; [lia|now right].
      * exists ((log ++ [d]) ++ [d]). split; [|split; [lia|now right]].
        eapply ends_continue; [|apply Hlast].
        rewrite (step_success _ _ _ v (batch_size_at key v));
          [|now apply Hfit|exact Hk|exact Hb].
        cbn [reached_max evaluated_once].
        replace (batch_size_at key v <? maximum_triples)%Z with false
          by (symmetry; now apply Z.ltb_ge).
        reflexivity.
Qed.

End Threshold.


(** On a probe that always fails with a memory-class error the search halves
    down to 1, probes 1, and returns (1, False).  The probes it makes differ
    from the first one only under [key]. *)
Lemma all_fail_ends key maximum_triples n :
  always_failing_probe ->
  forall v (d : Attempt) rm log,
    Z.to_nat v <= n -> (1 <= v)%Z -> d !! key = Some (Some v) ->
    exists d1 rest,
      ends_with key maximum_triples
        {| values_dict := d; reached_max := rm; evaluated_once := false; attempts := log |}
        (inr (Some 1%Z, false), log ++ d :: rest)
      /\ last (d :: rest) = Some d1 /\ d1 !! key = Some (Some 1%Z)
      /\ forall a, a ∈ d :: rest -> forall k, k <> key -> a !! k = d !! k.
Proof.
  intros Hfail. induction n as [|n IH]; intros v d rm log Hn Hv Hk; [lia|].
  destruct (Hfail log d) as (e & He & Hmem).
  destruct (Z.eq_dec v 1%Z) as [->|Hne].
  - exists d, []. split; [|split; [reflexivity|split; [exact Hk|]]].
    + apply (ends_break _ _ _ (probed {| values_dict := d; reached_max := rm;
                                         evaluated_once := false; attempts := log |}));
        [|exact Hk].
      erewrite (step_memory_failure _ _ _ e 1%Z); [|exact He|exact Hmem|exact Hk].
      reflexivity.
    + intros a Ha k _. apply list_elem_of_singleton in Ha. now subst.
  - destruct (IH (v / 2)%Z (<[key := Some (v / 2)%Z]> d) true (log ++ [d]))
      as (d1 & rest & Hends & Hlast & Hd1 & Hother).
    { assert (v / 2 < v)%Z by (apply Z.div_lt; lia).
      assert (0 <= v / 2)%Z by (apply Z.div_pos; lia). lia. }
    { assert (1 <= v / 2)%Z by (apply Z.div_le_lower_bound; lia). lia. }
    { apply lookup_insert_eq. }
    exists d1, (<[key := Some (v / 2)%Z]> d :: rest).
    split; [|split; [exact Hlast|split; [exact Hd1|]]].
    + eapply ends_continue.
      * erewrite (step_memory_failure _ _ _ e v); [|exact He|exact Hmem|exact Hk].
        replace (v =? 1)%Z with false by (symmetry; apply Z.eqb_neq; lia).
        reflexivity.
      * rewrite <- app_assoc in Hends. exact Hends.
    + intros a Ha k Hkne. apply elem_of_cons in Ha as [->|Ha]; [reflexivity|].
      rewrite (Hother a Ha k Hkne). now apply lookup_insert_ne.
Qed.

(** C7, as the code has it.  The check passes exactly when the model can
    slice on the tail side and, unless the triples factory creates inverse
    triples, also on the head side.  When it does not pass, a slice-size
    search raises the sizing error of the check with the probes as they
    were: none was made. *)
Theorem slicing_check_precedes_probing
    (model : @Model score) batch_size fuel history start (mapped_triples : MappedTriples) :
  _check_slicing_availability model batch_size
  = (if can_slice_t model && (create_inverse_triples model || can_slice_h model)
     then inr tt else inl (SlicingNotImplemented batch_size))
  /\ (forall e, _check_slicing_availability model 1 = inl e ->
        is_MemoryError e = true
        /\ _param_size_search is_cudnn_error is_cuda_oom_error probe fuel history
             "slice_size" start model mapped_triples
           = Some (inl e, history)).
Proof.
  split.
  - unfold _check_slicing_availability.
    destruct (create_inverse_triples model), (can_slice_t model), (can_slice_h model);
      reflexivity.
  - intros e He. split.
    + unfold _check_slicing_availability in He.
      destruct (create_inverse_triples model), (can_slice_t model), (can_slice_h model);
        simpl in He; try discriminate; injection He as <-; reflexivity.
    + unfold _param_size_search. simpl String.eqb. cbv iota. now rewrite He.
Qed.

(** Up to [2 ^ 53] the division is exact, and [ceil_half] is the half
    rounded up. *)
Lemma ceil_half_exact n :
  (0 <= n <= 2 ^ 53)%Z -> ceil_half n = inr ((n + 1) / 2)%Z.
Proof.
  intros [H0 H1]. unfold ceil_half. rewrite Z.abs_eq by exact H0.
  destruct (Z.eq_dec n (2 ^ 53)%Z) as [->|Hne]; [reflexivity|].
  replace (Z.log2 n + 1 <=? 53)%Z with true; [reflexivity|].
  symmetry. apply Z.leb_le.
  destruct (Z.eq_dec n 0%Z) as [->|Hpos]; [simpl; lia|].
  assert (Z.log2 n < 53)%Z by (apply Z.log2_lt_pow2; lia). lia.
Qed.

(** The run of the controller on a probe that always fails, from the start
    value [c] of the slice-size search. *)
Lemma exhaustion_run
    (model : @Model score) (mapped_triples : MappedTriples) start c :
  always_failing_probe ->
  mapped_triples <> [] ->
  (forall s, start = Some s -> (1 <= s)%Z) ->
  ceil_half (num_entities model) = inr c ->
  (1 <= c)%Z ->
  exists fuel0 log1 last1 e log,
    (forall fuel, fuel0 <= fuel ->
       _param_size_search is_cudnn_error is_cuda_oom_error probe fuel [] "batch_size"
                          start model mapped_triples
       = Some (inr (Some 1%Z, false), log1)
       /\ batch_and_slice is_cudnn_error is_cuda_oom_error probe fuel model
                          mapped_triples start
          = Some (inl e, log))
    /\ last log1 = Some last1 /\ last1 !! "batch_size" = Some (Some 1%Z)
    /\ is_MemoryError e = true
    /\ (forall e', _check_slicing_availability model 1 = inl e' -> e = e' /\ log = log1)
    /\ (_check_slicing_availability model 1 = inr tt ->
        e = CannotFitHardware
        /\ exists rest,
             log = log1
                   ++ <["batch_size" := Some 1%Z]> (<["slice_size" := Some c]> ∅)
                   :: rest
             /\ forall a, a ∈ rest -> a !! "batch_size" = Some (Some 1%Z)).
Proof.
  intros Hfail Hne Hstart Hhalf Hc.
  set (maximum_triples := Z.of_nat (length mapped_triples)).
  assert (Hmax : (1 <= maximum_triples)%Z).
  { subst maximum_triples. destruct mapped_triples; [congruence|]. simpl length. lia. }
  set (s0 := default 256%Z start).
  assert (Hs0 : (1 <= s0)%Z).
  { subst s0. destruct start as [s|]; simpl; [now apply Hstart|lia]. }
  set (s1 := if (s0 >? maximum_triples)%Z then maximum_triples else s0).
  assert (Hs1 : (1 <= s1)%Z) by (subst s1; destruct (s0 >? maximum_triples)%Z; lia).
  set (d0 := <["slice_size" := None]> (<["batch_size" := Some s1]> (∅ : Attempt))).
  destruct (all_fail_ends "batch_size" maximum_triples (Z.to_nat s1) Hfail s1 d0 false [])
    as (last1 & rest1 & [fuel1 Hends1] & Hlast1 & Hone1 & _); [lia|exact Hs1| |].
  { subst d0. rewrite lookup_insert_ne by discriminate. apply lookup_insert_eq. }
  assert (Hsearch1 : forall fuel, fuel1 <= fuel ->
            _param_size_search is_cudnn_error is_cuda_oom_error probe fuel [] "batch_size"
              start model mapped_triples
            = Some (inr (Some 1%Z, false), d0 :: rest1)).
  { intros fuel Hle. unfold _param_size_search. simpl String.eqb. cbv iota.
    now apply Hends1. }
  destruct (_check_slicing_availability model 1) as [e'|[]] eqn:Hcheck.
  - (* no slicing *)
    exists fuel1, (d0 :: rest1), last1, e', (d0 :: rest1).
    split; [|split; [exact Hlast1|split; [exact Hone1|split; [|split]]]].
    + intros fuel Hle. split; [now apply Hsearch1|].
      unfold batch_and_slice. rewrite (Hsearch1 fuel Hle), Hhalf.
      unfold _param_size_search. simpl String.eqb. cbv iota. now rewrite Hcheck.
    + unfold _check_slicing_availability in Hcheck.
      destruct (create_inverse_triples model), (can_slice_t model), (can_slice_h model);
        simpl in Hcheck; try discriminate; injection Hcheck as <-; reflexivity.
    + intros e'' [= <-]. now split.
    + discriminate.
  - (* slicing is available: the second search fails as well *)
    set (d2 := <["batch_size" := Some 1%Z]> (<["slice_size" := Some c]> (∅ : Attempt))).
    destruct (all_fail_ends "slice_size" maximum_triples (Z.to_nat c) Hfail c d2 false
                (d0 :: rest1))
      as (last2 & rest2 & [fuel2 Hends2] & _ & _ & Hother); [lia|exact Hc| |].
    { subst d2. rewrite lookup_insert_ne by discriminate. apply lookup_insert_eq. }
    exists (max fuel1 fuel2), (d0 :: rest1), last1, CannotFitHardware,
           ((d0 :: rest1) ++ d2 :: rest2).
    split; [|split; [exact Hlast1|split; [exact Hone1|split; [reflexivity|split]]]].
    + intros fuel Hle. split; [apply Hsearch1; lia|].
      unfold batch_and_slice. rewrite (Hsearch1 fuel) by lia. rewrite Hhalf.
      unfold _param_size_search. simpl String.eqb. cbv iota. rewrite Hcheck.
      fold maximum_triples. fold d2.
      rewrite Hends2 by lia. reflexivity.
    + discriminate.
    + intros _. split; [reflexivity|]. exists rest2. split; [reflexivity|].
      intros a Ha. rewrite (Hother a) by (try discriminate; now apply list_elem_of_further).
      subst d2. apply lookup_insert_eq.
Qed.

(** C6, as the code has it.  When every probe fails with a memory-class
    error, for a non-empty triple set, a start value from 1 on (or the
    default) and a model with at least one and at most 2^53 entities: the
    batch-size search ends unsuccessfully, its last probe being at batch
    size 1; [batch_and_slice] then raises a [MemoryError] and makes no
    further probe.  If the model supports slicing, that error is the final
    sizing failure, raised after a slice-size search whose first probe is
    at [half], the number of entities halved and rounded up
    ([num_entities <= 2 * half <= num_entities + 1]), and whose probes all
    have batch size 1; if it does not, the error is that of the slicing
    check, and no probe follows those of the batch-size search. *)
Theorem sizing_exhaustion
    (model : @Model score) (mapped_triples : MappedTriples) start :
  always_failing_probe ->
  mapped_triples <> [] ->
  (forall s, start = Some s -> (1 <= s)%Z) ->
  (1 <= num_entities model <= 2 ^ 53)%Z ->
  exists fuel0 log1 last1 e log,
    (forall fuel, fuel0 <= fuel ->
       _param_size_search is_cudnn_error is_cuda_oom_error probe fuel [] "batch_size"
                          start model mapped_triples
       = Some (inr (Some 1%Z, false), log1)
       /\ batch_and_slice is_cudnn_error is_cuda_oom_error probe fuel model
                          mapped_triples start
          = Some (inl e, log))
    /\ last log1 = Some last1 /\ last1 !! "batch_size" = Some (Some 1%Z)
    /\ is_MemoryError e = true
    /\ (forall e', _check_slicing_availability model 1 = inl e' -> e = e' /\ log = log1)
    /\ (_check_slicing_availability model 1 = inr tt ->
        e = CannotFitHardware
        /\ exists half rest,
             (num_entities model <= 2 * half <= num_entities model + 1)%Z
             /\ log = log1
                      ++ <["batch_size" := Some 1%Z]> (<["slice_size" := Some half]> ∅)
                      :: rest
             /\ forall a, a ∈ rest -> a !! "batch_size" = Some (Some 1%Z)).
Proof.
  intros Hfail Hne Hstart Hent.
  set (half := ((num_entities model + 1) / 2)%Z).
  assert (Hhalf : (num_entities model <= 2 * half <= num_entities model + 1)%Z).
  { subst half. pose proof (Z.div_mod (num_entities model + 1) 2 ltac:(lia)).
    pose proof (Z.mod_pos_bound (num_entities model + 1) 2 ltac:(lia)). lia. }
  destruct (exhaustion_run model mapped_triples start half Hfail Hne Hstart)
    as (fuel0 & log1 & last1 & e & log & Hrun & Hlast & Hone & Hmem & Hno & Hyes).
  { apply ceil_half_exact. lia. }
  { lia. }
  exists fuel0, log1, last1, e, log.
  do 5 (split; [assumption|]).
  intros Hcheck. destruct (Hyes Hcheck) as (-> & rest & -> & Hrest).
  split; [reflexivity|]. exists half, rest. now repeat split.
Qed.

End SizeSearchProperties.


End EngineProperties.

(** ** Self-inclusion and the restored true score *)

Section TrueScore.

Context {score : Type} {ops : ScoreOps score}.

(** A tensor of shape (B, N). *)
Definition well_shaped (m : list (list score)) (B N : nat) : Prop :=
  length m = B /\ Forall (fun row => length row = N) m.

(** A valid entity id for [N] entities. *)
Definition entity_id (N : nat) (e : Z) : Prop := (0 <= e < Z.of_nat N)%Z.

Lemma resolve_entity_id N e : entity_id N e -> resolve_index N e = inr (Z.to_nat e).
Proof.
  intros [H0 H1]. unfold resolve_index.
  replace ((0 <=? e)%Z && (e <? Z.of_nat N)%Z) with true; [reflexivity|].
  symmetry. apply andb_true_iff. split; [now apply Z.leb_le|now apply Z.ltb_lt].
Qed.

Lemma resolve_index_ok N e :
  (- Z.of_nat N <= e < Z.of_nat N)%Z -> exists k, resolve_index N e = inr k /\ k < N.
Proof.
  intros H. unfold resolve_index.
  destruct ((0 <=? e)%Z && (e <? Z.of_nat N)%Z) eqn:E1.
  - apply andb_true_iff in E1 as [Ha Hb]. apply Z.leb_le in Ha. apply Z.ltb_lt in Hb.
    eexists. split; [reflexivity|lia].
  - destruct ((- Z.of_nat N <=? e)%Z && (e <? 0)%Z) eqn:E2.
    + apply andb_true_iff in E2 as [Ha Hb]. apply Z.leb_le in Ha. apply Z.ltb_lt in Hb.
      eexists. split; [reflexivity|lia].
    + exfalso. apply andb_false_iff in E1. apply andb_false_iff in E2.
      rewrite !Z.leb_gt, !Z.ltb_ge in *. lia.
Qed.

Lemma well_shaped_row (m : list (list score)) B N i :
  well_shaped m B N -> i < B -> exists row, m !! i = Some row /\ length row = N.
Proof.
  intros [Hlen Hrows] Hi.
  destruct (lookup_lt_is_Some_2 m i ltac:(lia)) as [row Hrow].
  exists row. split; [exact Hrow|].
  rewrite Forall_forall in Hrows. apply Hrows.
  apply list_elem_of_lookup. eauto.
Qed.

Lemma read_entry_ok (m : list (list score)) B N i e :
  well_shaped m B N -> i < B -> entity_id N e -> exists s, read_entry m i e = inr s.
Proof.
  intros Hm Hi He. destruct (well_shaped_row m B N i Hm Hi) as (row & Hrow & Hlen).
  unfold read_entry, at_index. rewrite Hrow. simpl.
  rewrite Hlen, (resolve_entity_id N e He). simpl.
  destruct (lookup_lt_is_Some_2 row (Z.to_nat e)) as [s Hs].
  { unfold entity_id in He. lia. }
  rewrite Hs. eauto.
Qed.

Lemma write_entry_ok (m : list (list score)) B N i e v :
  well_shaped m B N -> i < B -> entity_id N e ->
  exists m', write_entry m i e v = inr m'
             /\ well_shaped m' B N
             /\ read_entry m' i e = inr v
             /\ forall i' e', i' <> i -> read_entry m' i' e' = read_entry m i' e'.
Proof.
  intros Hm Hi He. destruct (well_shaped_row m B N i Hm Hi) as (row & Hrow & Hlen).
  destruct Hm as [HB Hrows].
  unfold write_entry, at_index. rewrite Hrow. simpl.
  rewrite Hlen, (resolve_entity_id N e He). simpl.
  eexists. split; [reflexivity|]. split; [|split].
  - split; [now rewrite length_insert|].
    apply Forall_insert; [exact Hrows|]. now rewrite length_insert.
  - unfold read_entry, at_index.
    rewrite list_lookup_insert_eq by lia. simpl.
    rewrite length_insert, Hlen, (resolve_entity_id N e He). simpl.
    rewrite list_lookup_insert_eq; [reflexivity|]. unfold entity_id in He. lia.
  - intros i' e' Hne. unfold read_entry, at_index.
    rewrite list_lookup_insert_ne by congruence. reflexivity.
Qed.

Lemma scatter_ok (m : list (list score)) B N idx v :
  well_shaped m B N ->
  Forall (fun '(i, e) => i < B /\ entity_id N e) idx ->
  exists m', scatter m idx v = inr m' /\ well_shaped m' B N.
Proof.
  revert m. induction idx as [|[i e] idx IH]; intros m Hm Hidx; simpl.
  - eauto.
  - apply Forall_cons in Hidx as [[Hi He] Hidx].
    destruct (write_entry_ok m B N i e v Hm Hi He) as (m1 & -> & Hm1 & _).
    simpl. now apply IH.
Qed.

Lemma select_columns_ok (row : list score) ids :
  Forall (fun e => (- Z.of_nat (length row) <= e < Z.of_nat (length row))%Z) ids ->
  exists r, mapE (fun e => k ← resolve_index (length row) e; at_index row k) ids = inr r.
Proof.
  induction 1 as [|e ids He Hids IH]; simpl; [eauto|].
  destruct (resolve_index_ok (length row) e He) as (k & -> & Hk). simpl.
  unfold at_index in *. destruct (lookup_lt_is_Some_2 row k Hk) as [s ->]. simpl.
  destruct IH as [r ->]. simpl. eauto.
Qed.

Lemma index_cols_ok (m : list (list score)) B N ids :
  well_shaped m B N ->
  Forall (fun e => (- Z.of_nat N <= e < Z.of_nat N)%Z) ids ->
  exists selected, index_cols m ids = inr selected.
Proof.
  intros [_ Hrows] Hids. unfold index_cols.
  induction Hrows as [|row m Hrow Hrows IH]; simpl; [eauto|].
  destruct (select_columns_ok row ids) as [r ->]; [now rewrite Hrow|].
  simpl. destruct IH as [sel ->]. simpl. eauto.
Qed.

Lemma zeros_like_shaped (m : list (list score)) B N :
  well_shaped m B N -> well_shaped (zeros_like m) B N.
Proof.
  intros [HB Hrows]. unfold zeros_like. split; [now rewrite length_map|].
  rewrite Forall_forall in *. intros row Hin.
  apply list_elem_of_fmap in Hin as (r & -> & Hr).
  rewrite length_map. now apply Hrows.
Qed.

(** Reading the true scores off the rows [k], [k+1], ... of the tensor. *)
Lemma gather_rows_ok (m : list (list score)) B N col (bs : MappedTriples) :
  well_shaped m B N ->
  forall k, k + length bs <= B ->
  Forall (fun b => entity_id N (column col b)) bs ->
  exists ts,
    mapE (fun '(i, t) => read_entry m i (column col t)) (zip (seq k (length bs)) bs)
    = inr ts
    /\ length ts = length bs
    /\ forall j b, bs !! j = Some b ->
         exists s, ts !! j = Some s /\ read_entry m (k + j) (column col b) = inr s.
Proof.
  intros Hm. induction bs as [|b bs IH]; intros k Hk Hbs; simpl.
  - exists []. split; [reflexivity|]. split; [reflexivity|]. intros j b Hj. discriminate.
  - apply Forall_cons in Hbs as [Hb Hbs]. simpl in Hk.
    destruct (read_entry_ok m B N k (column col b) Hm ltac:(lia) Hb) as [s Hs].
    rewrite Hs. simpl.
    destruct (IH (S k) ltac:(lia) Hbs) as (ts & -> & Hlen & Hts). simpl.
    exists (s :: ts). split; [reflexivity|]. split; [simpl; lia|].
    intros [|j] b' Hj; simpl in Hj.
    + injection Hj as <-. exists s. split; [reflexivity|]. now rewrite Nat.add_0_r.
    + destruct (Hts j b' Hj) as (s' & Hs' & Hread). exists s'. split; [exact Hs'|].
      now replace (k + S j) with (S k + j) by lia.
Qed.

(** Writing the true scores back into the rows [k], [k+1], ...: the rows
    are distinct, so each row ends with its own true score at its own true
    entity. *)
Lemma assign_rows_ok B N col (bs : MappedTriples) :
  forall (m : list (list score)) k ts,
    well_shaped m B N -> k + length bs <= B -> length ts = length bs ->
    Forall (fun b => entity_id N (column col b)) bs ->
    exists m',
      assign_true m (zip (seq k (length bs)) bs) col ts = inr m'
      /\ well_shaped m' B N
      /\ (forall j b s, bs !! j = Some b -> ts !! j = Some s ->
            read_entry m' (k + j) (column col b) = inr s)
      /\ (forall i e, i < k -> read_entry m' i e = read_entry m i e).
Proof.
  induction bs as [|b bs IH]; intros m k ts Hm Hk Hlen Hbs; simpl.
  - exists m. split; [reflexivity|]. split; [exact Hm|]. split; [|reflexivity].
    intros j b s Hj. discriminate.
  - destruct ts as [|s ts]; [discriminate|]. simpl in Hlen, Hk.
    apply Forall_cons in Hbs as [Hb Hbs].
    destruct (write_entry_ok m B N k (column col b) s Hm ltac:(lia) Hb)
      as (m1 & -> & Hm1 & Hread1 & Hother1).
    simpl.
    destruct (IH m1 (S k) ts Hm1 ltac:(lia) ltac:(lia) Hbs)
      as (m' & -> & Hm' & Hread & Hbelow).
    exists m'. split; [reflexivity|]. split; [exact Hm'|]. split.
    + intros [|j] b' s' Hj Hs'; simpl in Hj, Hs'.
      * injection Hj as <-. injection Hs' as <-.
        rewrite Nat.add_0_r, Hbelow by lia. exact Hread1.
      * replace (k + S j) with (S k + j) by lia. now apply Hread.
    + intros i e Hi. rewrite Hbelow by lia. apply Hother1. lia.
Qed.

(** The filter computed for a batch inside the positives: every row holds
    its own true entity, and every entry is a row of the batch with a valid
    entity id. *)
Lemma sparse_filter_of_positives batch pos relation_filter col N :
  (col = 0 \/ col = 2)%Z ->
  (forall b, b ∈ batch -> b ∈ pos) ->
  (forall p, p ∈ pos -> entity_id N (head_of p) /\ entity_id N (tail_of p)) ->
  relation_filter_ok batch pos relation_filter ->
  exists fb rf,
    create_sparse_positive_filter_ batch pos relation_filter col = inr (fb, rf)
    /\ (forall i b, batch !! i = Some b -> (i, column col b) ∈ fb)
    /\ Forall (fun '(i, e) => i < length batch /\ entity_id N e) fb.
Proof.
  intros Hcol Hsub Hrange Hrf.
  destruct (create_sparse_positive_filter_value _ _ _ _ Hcol Hrf)
    as (both & rf & Heq & _ & Hr & Hc & Hat).
  eexists _, rf. split; [exact Heq|]. split.
  - intros i b Hb.
    assert (Hin : b ∈ pos) by (apply Hsub, list_elem_of_lookup; eauto).
    apply list_elem_of_lookup in Hin as [j Hj].
    apply list_elem_of_fmap. exists (i, j). split.
    + now rewrite list_lookup_fmap, Hj.
    + apply elem_of_nonzero. rewrite Hr, Hc.
      split; [apply lookup_lt_is_Some; eauto|].
      split; [apply lookup_lt_is_Some; eauto|].
      now rewrite (Hat i j b b Hb Hj), !Z.eqb_refl.
  - apply Forall_forall. intros [i e] Hin.
    apply list_elem_of_fmap in Hin as ([i' j] & Hpair & Hin).
    inversion Hpair; subst i' e; clear Hpair.
    apply elem_of_nonzero in Hin as (Hi & Hj & _). rewrite Hr in Hi. rewrite Hc in Hj.
    split; [exact Hi|].
    destruct (lookup_lt_is_Some_2 pos j Hj) as [p Hp].
    rewrite list_lookup_fmap, Hp. simpl.
    destruct (Hrange p) as [Hh Ht]; [apply list_elem_of_lookup; eauto|].
    unfold column. destruct Hcol; subst; simpl; assumption.
Qed.

(** C4.  Take a batch whose triples are all among the positive triples,
    positives whose entities are valid ids for the [N] entities, scores of
    shape (batch_size, N) from the model, a relation filter absent or as
    documented, and filtering switched on (an entity restriction, if any,
    with in-range ids and with the positive mask it needs).  Then the
    sparse positive filter holds every row's own true entity, [_evaluate]
    returns, and in the score tensor as it has been filtered in place and
    rewritten, the entry at each row's true entity is the true score read
    before filtering. *)
Theorem true_score_survives_filtering
    batch (model : @Model score) col filtered_evaluators unfiltered_evaluators slice_size
    pos relation_filter restrict positive_masks_required N raw (w : @World score) :
  (col = 0 \/ col = 2)%Z ->
  (forall b, b ∈ batch -> b ∈ pos) ->
  (forall p, p ∈ pos -> entity_id N (head_of p) /\ entity_id N (tail_of p)) ->
  model_scores model col batch slice_size = inr raw ->
  well_shaped raw (length batch) N ->
  relation_filter_ok batch pos relation_filter ->
  match restrict with
  | None => True
  | Some ids =>
      positive_masks_required = true
      /\ Forall (fun e => (- Z.of_nat N <= e < Z.of_nat N)%Z) ids
  end ->
  exists fb rf true_scores final w',
    create_sparse_positive_filter_ batch pos relation_filter col = inr (fb, rf)
    /\ (forall i b, batch !! i = Some b -> (i, column col b) ∈ fb)
    /\ gather_true raw batch col = inr true_scores
    /\ _evaluate batch model col filtered_evaluators unfiltered_evaluators slice_size
                 (Some pos) relation_filter restrict positive_masks_required true w
        = (inr (Some rf), w')
    /\ heap w' !! length (heap w) = Some final
    /\ forall i b, batch !! i = Some b ->
         exists s, true_scores !! i = Some s
                   /\ read_entry raw i (column col b) = inr s
                   /\ read_entry final i (column col b) = inr s.
Proof.
  intros Hcol Hsub Hrange Hscores Hshape Hrf Hrestrict.
  destruct (sparse_filter_of_positives batch pos relation_filter col N
              Hcol Hsub Hrange Hrf) as (fb & rf & Hfilter & Hself & Hfb).
  assert (Hbatch : Forall (fun b => entity_id N (column col b)) batch).
  { apply Forall_forall. intros b Hb. destruct (Hrange b (Hsub b Hb)) as [Hh Ht].
    unfold column. destruct Hcol; subst; simpl; assumption. }
  destruct (gather_rows_ok raw (length batch) N col batch Hshape 0 ltac:(lia) Hbatch)
    as (ts & Hgather & Hlen & Hts).
  destruct (scatter_ok raw (length batch) N fb score_nan Hshape Hfb)
    as (m1 & Hscatter & Hm1).
  destruct (assign_rows_ok (length batch) N col batch m1 0 ts Hm1 ltac:(lia) Hlen Hbatch)
    as (m2 & Hassign & Hm2 & Hread & _).
  exists fb, rf, ts, m2.
  assert (Hfinal : forall i b, batch !! i = Some b ->
            exists s, ts !! i = Some s
                      /\ read_entry raw i (column col b) = inr s
                      /\ read_entry m2 i (column col b) = inr s).
  { intros i b Hb. destruct (Hts i b Hb) as (s & Hs & Hraw).
    exists s. split; [exact Hs|]. split; [exact Hraw|].
    apply (Hread i b s Hb Hs). }
  assert (Hg : gather_true raw batch col = inr ts) by exact Hgather.
  assert (Hrun : exists w',
            _evaluate batch model col filtered_evaluators unfiltered_evaluators slice_size
                      (Some pos) relation_filter restrict positive_masks_required true w
            = (inr (Some rf), w')
            /\ heap w' !! length (heap w) = Some m2).
  { destruct w as [h tr]. rewrite _evaluate_unfold. cbn [heap].
    replace (negb ((col =? 0)%Z || (col =? 2)%Z)) with false
      by (destruct Hcol; subst; reflexivity).
    cbv zeta. rewrite Hscores, Hg.
    unfold positive_filter_block. cbn [orb]. rewrite Hfilter. cbn [mbind exn_bind].
    assert (Hmask : exists mask,
              positive_mask_block raw (Some fb) positive_masks_required = inr mask
              /\ (positive_masks_required = true ->
                  exists dense, mask = Some dense /\ well_shaped dense (length batch) N)).
    { unfold positive_mask_block. destruct positive_masks_required.
      - cbn [read_local mbind exn_bind]. unfold create_dense_positive_mask_.
        destruct (scatter_ok (zeros_like raw) (length batch) N fb score_one
                    (zeros_like_shaped raw _ _ Hshape) Hfb) as (dense & -> & Hdense).
        cbn [mbind exn_bind]. eexists. split; [reflexivity|]. eauto.
      - eexists. split; [reflexivity|]. discriminate. }
    destruct Hmask as (mask & -> & Hdense).
    destruct restrict as [ids|].
    - destruct Hrestrict as [Hpmr Hids].
      destruct (Hdense Hpmr) as (dense & -> & Hdshape).
      rewrite dispatch_blocks_restricted.
      destruct (index_cols_ok raw _ _ ids Hshape Hids) as [selected ->].
      destruct (index_cols_ok dense _ _ ids Hdshape Hids) as [mask' ->].
      rewrite (filter_block_run _ _ _ _ _ raw)
        by (rewrite lookup_app_l by (rewrite length_app; simpl; lia); apply lookup_fresh).
      cbn [read_local]. rewrite Hscatter. cbv zeta. rewrite Hassign.
      destruct (index_cols_ok m2 _ _ ids Hm2 Hids) as [selected2 ->].
      eexists. split; [reflexivity|]. cbn [heap].
      rewrite lookup_app_l by (rewrite !length_insert, !length_app; simpl; lia).
      apply list_lookup_insert_eq. rewrite length_insert, !length_app. simpl. lia.
    - rewrite (dispatch_blocks_unrestricted _ _ _ _ _ _ raw) by apply lookup_fresh.
      rewrite (filter_block_run _ _ _ _ _ raw) by apply lookup_fresh.
      cbn [read_local]. rewrite Hscatter. cbv zeta. rewrite Hassign.
      eexists. split; [reflexivity|]. cbn [heap].
      apply list_lookup_insert_eq. rewrite length_insert, length_app. simpl. lia. }
  destruct Hrun as (w' & Hrun & Hheap).
  exists w'. repeat (split; [assumption|]). exact Hfinal.
Qed.

End TrueScore.

(* ===================================================================== *)
(** * Part III: the properties at sample inputs                           *)
(* ===================================================================== *)

(** The filter of the end-to-end scenario, tail side. *)
Lemma create_sparse_positive_filter_exact_witness :
  ((2 = 0 \/ 2 = 2)%Z /\ relation_filter_ok sample_triples sample_triples None)
  /\ exists filter_batch rf,
       create_sparse_positive_filter_ sample_triples sample_triples None 2
       = inr (filter_batch, rf)
       /\ forall i e,
            (i, e) ∈ filter_batch <->
            exists b p, sample_triples !! i = Some b /\ p ∈ sample_triples
                        /\ rel_of p = rel_of b
                        /\ column (2 - 2) p = column (2 - 2) b
                        /\ column 2 p = e.
Proof.
  split; [split; [right; reflexivity|exact I]|].
  apply (create_sparse_positive_filter_exact sample_triples sample_triples None 2).
  - right; reflexivity.
  - exact I.
Defined.

Lemma sample_triples_entities p :
  p ∈ sample_triples -> entity_id 3 (head_of p) /\ entity_id 3 (tail_of p).
Proof.
  unfold sample_triples, entity_id. intros Hp.
  apply elem_of_cons in Hp as [->|Hp]; [simpl; lia|].
  apply list_elem_of_singleton in Hp as ->. simpl; lia.
Defined.

Lemma sample_scores_shape :
  well_shaped [[Num 5; Num 1; Num 3]; [Num 2; Num 6; Num 4]] (length sample_triples) 3.
Proof. split; [reflexivity|]. repeat constructor. Defined.

(** The end-to-end scenario: one filtered evaluator, tail side. *)
Lemma true_score_survives_filtering_witness :
  exists fb rf true_scores final w',
    create_sparse_positive_filter_ sample_triples sample_triples None 2 = inr (fb, rf)
    /\ (forall i b, sample_triples !! i = Some b -> (i, column 2 b) ∈ fb)
    /\ gather_true [[Num 5; Num 1; Num 3]; [Num 2; Num 6; Num 4]] sample_triples 2
       = inr true_scores
    /\ _evaluate sample_triples (sample_model false true true) 2
                 [{| ev_id := 0; filtered := true; requires_positive_mask := false |}] []
                 None (Some sample_triples) None None false true
                 {| heap := []; trace := [] |}
       = (inr (Some rf), w')
    /\ heap w' !! length (heap {| heap := []; trace := ([] : list (@Event sample_score)) |})
       = Some final
    /\ forall i b, sample_triples !! i = Some b ->
         exists s, true_scores !! i = Some s
                   /\ read_entry [[Num 5; Num 1; Num 3]; [Num 2; Num 6; Num 4]] i (column 2 b)
                      = inr s
                   /\ read_entry final i (column 2 b) = inr s.
Proof.
  apply (true_score_survives_filtering sample_triples (sample_model false true true) 2
           [{| ev_id := 0; filtered := true; requires_positive_mask := false |}] []
           None sample_triples None None false 3
           [[Num 5; Num 1; Num 3]; [Num 2; Num 6; Num 4]]
           {| heap := []; trace := [] |}).
  - right; reflexivity.
  - intros b Hb. exact Hb.
  - exact sample_triples_entities.
  - reflexivity.
  - exact sample_scores_shape.
  - exact I.
  - exact I.
Defined.

Lemma threshold_scorer_is_threshold_probe key K :
  threshold_probe sample_is_cudnn_error sample_is_cuda_oom_error
                  (threshold_scorer key K) key K.
Proof.
  intros past d v Hd. unfold threshold_scorer. rewrite Hd. split.
  - intros Hle. destruct (K <? v)%Z eqn:E; [|reflexivity].
    apply Z.ltb_lt in E. lia.
  - intros Hlt. destruct (K <? v)%Z eqn:E.
    + eexists. split; [reflexivity|]. exists oom_message. split; reflexivity.
    + apply Z.ltb_ge in E. lia.
Defined.



Lemma failing_scorer_always_fails :
  always_failing_probe sample_is_cudnn_error sample_is_cuda_oom_error failing_scorer.
Proof.
  intros past d. eexists. split; [reflexivity|].
  exists oom_message. split; reflexivity.
Defined.

(** C6 at a sample input: two triples, the default start value, three
    entities, a model that supports slicing. *)
Lemma sizing_exhaustion_witness :
  exists fuel0 log1 last1 e log,
    (forall fuel, fuel0 <= fuel ->
       _param_size_search sample_is_cudnn_error sample_is_cuda_oom_error failing_scorer
                          fuel [] "batch_size" None (sample_model false true true)
                          sample_triples
       = Some (inr (Some 1%Z, false), log1)
       /\ batch_and_slice sample_is_cudnn_error sample_is_cuda_oom_error failing_scorer
                          fuel (sample_model false true true) sample_triples None
          = Some (inl e, log))
    /\ last log1 = Some last1 /\ last1 !! "batch_size" = Some (Some 1%Z)
    /\ is_MemoryError e = true
    /\ (forall e', _check_slicing_availability (sample_model false true true) 1 = inl e' ->
          e = e' /\ log = log1)
    /\ (_check_slicing_availability (sample_model false true true) 1 = inr tt ->
        e = CannotFitHardware
        /\ exists half rest,
             (num_entities (sample_model false true true) <= 2 * half
              <= num_entities (sample_model false true true) + 1)%Z
             /\ log = log1
                      ++ <["batch_size" := Some 1%Z]> (<["slice_size" := Some half]> ∅)
                      :: rest
             /\ forall a, a ∈ rest -> a !! "batch_size" = Some (Some 1%Z)).
Proof.
  apply (sizing_exhaustion sample_is_cudnn_error sample_is_cuda_oom_error failing_scorer
           (sample_model false true true) sample_triples None).
  - apply failing_scorer_always_fails.
  - discriminate.
  - intros s Hs. discriminate.
  - simpl. lia.
Defined.

(** C7 as stated fails: with inverse triples, a model that slices on the
    tail side only passes the check; without inverse triples, the same
    model does not. *)
Lemma slicing_check_sides_swapped :
  _check_slicing_availability (sample_model true false true) 1 = inr tt
  /\ _check_slicing_availability (sample_model false false true) 1
     = inl (SlicingNotImplemented 1).
Proof. split; reflexivity. Qed.


(* ===================================================================== *)
(** * Part IV: further properties of the engine                           *)
(* ===================================================================== *)

(** ** Scattering into a score tensor *)

Section ScatterProperties.

Context {score : Type} {ops : ScoreOps score}.

Lemma write_entry_read (m m' : list (list score)) B N i e v i' e' :
  well_shaped m B N -> i < B -> entity_id N e -> entity_id N e' ->
  write_entry m i e v = inr m' ->
  read_entry m' i' e'
  = if decide (i' = i /\ e' = e) then inr v else read_entry m i' e'.
Proof.
  intros Hm Hi He He' Hw.
  destruct (well_shaped_row m B N i Hm Hi) as (row & Hrow & Hlen).
  destruct Hm as [HB Hrows].
  unfold write_entry, at_index in Hw. rewrite Hrow in Hw. simpl in Hw.
  rewrite Hlen, (resolve_entity_id N e He) in Hw. simpl in Hw.
  injection Hw as <-.
  unfold read_entry, at_index.
  destruct (decide (i' = i)) as [->|Hne].
  - rewrite list_lookup_insert_eq by lia. rewrite Hrow. simpl.
    rewrite length_insert, Hlen, (resolve_entity_id N e' He'). simpl.
    destruct (decide (e' = e)) as [->|Hne].
    + rewrite decide_True by auto.
      rewrite list_lookup_insert_eq; [reflexivity|]. unfold entity_id in He. lia.
    + rewrite decide_False by tauto.
      rewrite list_lookup_insert_ne; [reflexivity|].
      unfold entity_id in *. lia.
  - rewrite decide_False by tauto.
    rewrite list_lookup_insert_ne by congruence. reflexivity.
Qed.

(** After a scatter, an entry holds the scattered value if its coordinates
    are among the indices, and what it held before otherwise. *)
Lemma scatter_read (idx : list (nat * Z)) B N v : forall (m m' : list (list score)) i' e',
  well_shaped m B N ->
  Forall (fun '(i, e) => i < B /\ entity_id N e) idx ->
  entity_id N e' ->
  scatter m idx v = inr m' ->
  well_shaped m' B N
  /\ read_entry m' i' e'
     = if decide ((i', e') ∈ idx) then inr v else read_entry m i' e'.
Proof.
  induction idx as [|[i e] idx IH]; intros m m' i' e' Hm Hidx He' Hs; simpl in Hs.
  - injection Hs as <-. split; [exact Hm|].
    rewrite decide_False; [reflexivity|apply not_elem_of_nil].
  - apply Forall_cons in Hidx as [[Hi He] Hidx].
    destruct (write_entry_ok m B N i e v Hm Hi He) as (m1 & Hw & Hm1 & _).
    rewrite Hw in Hs. simpl in Hs.
    destruct (IH m1 m' i' e' Hm1 Hidx He' Hs) as [Hm' Hread].
    split; [exact Hm'|]. rewrite Hread.
    rewrite (write_entry_read m m1 B N i e v i' e' Hm Hi He He' Hw).
    destruct (decide ((i', e') ∈ idx)) as [Hin|Hnin].
    + rewrite decide_True; [reflexivity|]. now apply list_elem_of_further.
    + destruct (decide (i' = i /\ e' = e)) as [[-> ->]|Hne].
      * rewrite decide_True; [reflexivity|]. apply list_elem_of_here.
      * rewrite decide_False; [reflexivity|].
        intros Hin. apply elem_of_cons in Hin as [[= -> ->]|Hin]; tauto.
Qed.

Lemma read_zeros_like (m : list (list score)) B N i e :
  well_shaped m B N -> i < B -> entity_id N e ->
  read_entry (zeros_like m) i e = inr score_zero.
Proof.
  intros Hm Hi He.
  destruct (well_shaped_row m B N i Hm Hi) as (row & Hrow & Hlen).
  unfold read_entry, at_index, zeros_like.
  rewrite list_lookup_fmap, Hrow. simpl.
  rewrite length_map, Hlen, (resolve_entity_id N e He). simpl.
  rewrite list_lookup_fmap.
  destruct (lookup_lt_is_Some_2 row (Z.to_nat e)) as [s ->];
    [unfold entity_id in He; lia|reflexivity].
Qed.

(** The dense positive mask agrees with the sparse filter: for a filter
    whose entries lie inside the tensor, the call returns a mask of the
    shape of the scores that is 1 at the coordinates of the filter and 0
    everywhere else. *)
Theorem dense_mask_agrees_with_filter (scores : list (list score)) B N filter_batch :
  well_shaped scores B N ->
  Forall (fun '(i, e) => i < B /\ entity_id N e) filter_batch ->
  exists mask,
    create_dense_positive_mask_ (zeros_like scores) filter_batch = inr mask
    /\ well_shaped mask B N
    /\ forall i e, i < B -> entity_id N e ->
         read_entry mask i e
         = inr (if decide ((i, e) ∈ filter_batch) then score_one else score_zero).
Proof.
  intros Hm Hfb. unfold create_dense_positive_mask_.
  pose proof (zeros_like_shaped scores B N Hm) as Hz.
  destruct (scatter_ok (zeros_like scores) B N filter_batch score_one Hz Hfb)
    as (mask & Hs & Hmask).
  exists mask. split; [exact Hs|]. split; [exact Hmask|].
  intros i e Hi He.
  destruct (scatter_read filter_batch B N score_one (zeros_like scores) mask i e
              Hz Hfb He Hs) as [_ ->].
  destruct (decide ((i, e) ∈ filter_batch)); [reflexivity|].
  now apply (read_zeros_like scores B N).
Qed.

(** [filter_scores_] works in place.  For a filter whose entries lie inside
    the tensor it returns the reference it was given, writes only to that
    tensor, keeps its shape, puts NaN at the coordinates of the filter and
    leaves every other entry as it was; besides the write it emits at most
    the warning. *)
Theorem filter_scores_in_place ref (m : list (list score)) B N filter_batch h tr :
  h !! ref = Some m ->
  well_shaped m B N ->
  Forall (fun '(i, e) => i < B /\ entity_id N e) filter_batch ->
  exists m' warn,
    filter_scores_ ref filter_batch {| heap := h; trace := tr |}
    = (inr ref, {| heap := <[ref := m']> h; trace := tr ++ EvInplace ref :: warn |})
    /\ (warn = [] \/ warn = [EvWarning])
    /\ well_shaped m' B N
    /\ (forall ref', ref' <> ref -> <[ref := m']> h !! ref' = h !! ref')
    /\ forall i e, entity_id N e ->
         read_entry m' i e
         = if decide ((i, e) ∈ filter_batch) then inr score_nan else read_entry m i e.
Proof.
  intros Href Hm Hfb.
  destruct (scatter_ok m B N filter_batch score_nan Hm Hfb) as (m' & Hs & Hm').
  exists m', (warning (length (default [] (head m))) m').
  rewrite (filter_scores__run ref m filter_batch h tr Href), Hs.
  split; [now rewrite <- app_assoc|]. split.
  { unfold warning. destruct (all_filtered_row _ m'); auto. }
  split; [exact Hm'|]. split.
  { intros ref' Hne. apply list_lookup_insert_ne. congruence. }
  intros i e He.
  now destruct (scatter_read filter_batch B N score_nan m m' i e Hm Hfb He Hs).
Qed.

End ScatterProperties.

Lemma dense_mask_agrees_with_filter_witness :
  exists mask,
    create_dense_positive_mask_
      (zeros_like [[Num 5; Num 1; Num 3]; [Num 2; Num 6; Num 4]]) [(0, 1%Z); (1, 2%Z)]
    = inr mask
    /\ well_shaped mask 2 3
    /\ forall i e, i < 2 -> entity_id 3 e ->
         read_entry mask i e
         = inr (if decide ((i, e) ∈ [(0, 1%Z); (1, 2%Z)]) then score_one else score_zero).
Proof.
  apply (dense_mask_agrees_with_filter [[Num 5; Num 1; Num 3]; [Num 2; Num 6; Num 4]] 2 3
           [(0, 1%Z); (1, 2%Z)]).
  - exact sample_scores_shape.
  - repeat constructor; unfold entity_id; simpl; lia.
Defined.

Lemma filter_scores_in_place_witness :
  exists m' warn,
    filter_scores_ 0 [(0, 1%Z); (1, 2%Z)]
      {| heap := [[[Num 5; Num 1; Num 3]; [Num 2; Num 6; Num 4]]]; trace := [] |}
    = (inr 0,
       {| heap := <[0 := m']> [[[Num 5; Num 1; Num 3]; [Num 2; Num 6; Num 4]]];
          trace := [] ++ EvInplace 0 :: warn |})
    /\ (warn = [] \/ warn = [EvWarning])
    /\ well_shaped m' 2 3
    /\ (forall ref', ref' <> 0 ->
          <[0 := m']> [[[Num 5; Num 1; Num 3]; [Num 2; Num 6; Num 4]]] !! ref'
          = [[[Num 5; Num 1; Num 3]; [Num 2; Num 6; Num 4]]] !! ref')
    /\ forall i e, entity_id 3 e ->
         read_entry m' i e
         = if decide ((i, e) ∈ [(0, 1%Z); (1, 2%Z)]) then inr score_nan
           else read_entry [[Num 5; Num 1; Num 3]; [Num 2; Num 6; Num 4]] i e.
Proof.
  apply (filter_scores_in_place 0 [[Num 5; Num 1; Num 3]; [Num 2; Num 6; Num 4]] 2 3
           [(0, 1%Z); (1, 2%Z)] [[[Num 5; Num 1; Num 3]; [Num 2; Num 6; Num 4]]] []).
  - reflexivity.
  - exact sample_scores_shape.
  - repeat constructor; unfold entity_id; simpl; lia.
Defined.

(** ** The warning of filter_scores_ *)

Section WarningProperties.

Context {score : Type} {ops : ScoreOps score}.

Lemma filter_keeps_all {A} (P : A -> Prop) `{forall x, Decision (P x)} (l : list A) :
  length (filter P l) = length l <-> Forall P l.
Proof.
  induction l as [|a l IH]; simpl.
  - split; [constructor|reflexivity].
  - rewrite filter_cons. destruct (decide (P a)) as [Ha|Ha]; simpl.
    + rewrite Forall_cons. split.
      * intros Hlen. split; [exact Ha|]. apply IH. lia.
      * intros [_ Hl]. f_equal. now apply IH.
    + split.
      * intros Hlen. pose proof (length_filter P l). lia.
      * intros Hall. apply Forall_cons in Hall as [Hfalse _]. contradiction.
Qed.

Lemma read_entry_of_row (m : list (list score)) row N i e :
  m !! i = Some row -> length row = N -> entity_id N e ->
  exists s, row !! Z.to_nat e = Some s /\ read_entry m i e = inr s.
Proof.
  intros Hrow Hlen He. unfold read_entry, at_index. rewrite Hrow. simpl.
  rewrite Hlen, (resolve_entity_id N e He). simpl.
  destruct (lookup_lt_is_Some_2 row (Z.to_nat e)) as [s Hs];
    [unfold entity_id in He; lia|].
  rewrite Hs. eauto.
Qed.

(** A row of a tensor consists of NaN only iff every entry read from it is
    NaN. *)
Lemma row_all_nan (m : list (list score)) row N i :
  m !! i = Some row -> length row = N ->
  (length (filter (fun s => score_is_nan s = true) row) = N
   <-> forall e s, entity_id N e -> read_entry m i e = inr s -> score_is_nan s = true).
Proof.
  intros Hrow Hlen. rewrite <- Hlen at 1. rewrite filter_keeps_all, Forall_lookup.
  split.
  - intros Hall e s He Hread.
    destruct (read_entry_of_row m row N i e Hrow Hlen He) as (s' & Hs' & Hread').
    rewrite Hread' in Hread. injection Hread as <-. exact (Hall _ _ Hs').
  - intros Hall k s Hk.
    assert (Hlt : k < N) by (rewrite <- Hlen; apply lookup_lt_is_Some; eauto).
    assert (He : entity_id N (Z.of_nat k)) by (unfold entity_id; lia).
    destruct (read_entry_of_row m row N i _ Hrow Hlen He) as (s' & Hs' & Hread').
    rewrite Nat2Z.id, Hk in Hs'. injection Hs' as <-.
    exact (Hall _ _ He Hread').
Qed.

(** For scores without NaN and a filter inside the tensor, [filter_scores_]
    emits its warning exactly when some row has all of its entities in the
    filter. *)
Theorem filter_scores_warns_iff_row_filtered
    ref (m : list (list score)) B N filter_batch h tr :
  h !! ref = Some m ->
  well_shaped m B N ->
  Forall (fun '(i, e) => i < B /\ entity_id N e) filter_batch ->
  score_is_nan score_nan = true ->
  (forall i e s, read_entry m i e = inr s -> score_is_nan s = false) ->
  exists m' warn,
    filter_scores_ ref filter_batch {| heap := h; trace := tr |}
    = (inr ref, {| heap := <[ref := m']> h; trace := tr ++ EvInplace ref :: warn |})
    /\ ((warn = [EvWarning]
         /\ exists i, i < B /\ forall e, entity_id N e -> (i, e) ∈ filter_batch)
        \/ (warn = []
            /\ forall i, i < B -> exists e, entity_id N e /\ (i, e) ∉ filter_batch)).
Proof.
  intros Href Hm Hfb Hnan Hclean.
  destruct (scatter_ok m B N filter_batch score_nan Hm Hfb) as (m' & Hs & Hm').
  exists m', (warning (length (default [] (head m))) m').
  rewrite (filter_scores__run ref m filter_batch h tr Href), Hs.
  split; [now rewrite <- app_assoc|].
  (* reading the rows of the filtered tensor *)
  assert (Hrow : forall i row, m' !! i = Some row ->
            (length (filter (fun s => score_is_nan s = true) row) = N
             <-> forall e, entity_id N e -> (i, e) ∈ filter_batch)).
  { intros i row Hi.
    assert (HiB : i < B).
    { destruct Hm' as [<- _]. apply lookup_lt_is_Some. eauto. }
    assert (Hlen : length row = N).
    { destruct (well_shaped_row m' B N i Hm' HiB) as (row' & Hrow' & Hlen').
      congruence. }
    rewrite (row_all_nan m' row N i Hi Hlen). split.
    - intros Hall e He.
      destruct (scatter_read filter_batch B N score_nan m m' i e Hm Hfb He Hs)
        as [_ Hread].
      destruct (decide ((i, e) ∈ filter_batch)) as [Hin|Hnin]; [exact Hin|].
      destruct (read_entry_ok m B N i e Hm HiB He) as [s Hms].
      rewrite Hms in Hread. pose proof (Hall e s He Hread) as Htrue.
      rewrite (Hclean i e s Hms) in Htrue. discriminate.
    - intros Hall e s He Hread.
      destruct (scatter_read filter_batch B N score_nan m m' i e Hm Hfb He Hs)
        as [_ Hread'].
      rewrite decide_True in Hread' by auto. rewrite Hread' in Hread.
      injection Hread as <-. exact Hnan. }
  unfold warning.
  destruct (all_filtered_row _ m') eqn:Hall.
  - left. split; [reflexivity|].
    unfold all_filtered_row in Hall. apply existsb_exists in Hall as (row & Hin & Hcount).
    apply list_elem_of_In, list_elem_of_lookup in Hin as [i Hi].
    assert (HiB : i < B).
    { destruct Hm' as [<- _]. apply lookup_lt_is_Some. eauto. }
    exists i. split; [exact HiB|]. apply (Hrow i row Hi).
    apply Nat.eqb_eq in Hcount. rewrite Hcount.
    destruct (well_shaped_row m B N 0 Hm ltac:(lia)) as (row0 & Hrow0 & Hlen0).
    destruct m as [|r0 m0]; [discriminate|]. simpl in *. congruence.
  - right. split; [reflexivity|]. intros i HiB.
    destruct (well_shaped_row m' B N i Hm' HiB) as (row & Hi & Hlen).
    destruct (well_shaped_row m B N 0 Hm ltac:(lia)) as (row0 & Hrow0 & Hlen0).
    assert (Hn : length (default [] (head m)) = N).
    { destruct m as [|r0 m0]; [discriminate|]. simpl in *. congruence. }
    rewrite Hn in Hall.
    assert (Hnot : length (filter (fun s => score_is_nan s = true) row) <> N).
    { intros Heq. unfold all_filtered_row in Hall.
      assert (Htrue : existsb
                (fun row => length (filter (fun s => score_is_nan s = true) row) =? N)
                m' = true).
      { apply existsb_exists. exists row. split.
        - apply list_elem_of_In, list_elem_of_lookup. eauto.
        - now apply Nat.eqb_eq. }
      congruence. }
    rewrite (row_all_nan m' row N i Hi Hlen) in Hnot.
    (* some entry of the row is not NaN, so it is not in the filter *)
    assert (Hex : exists e, entity_id N e /\ (i, e) ∉ filter_batch).
    { clear Hall. 
      assert (Hdec : Forall (fun k => (i, Z.of_nat k) ∈ filter_batch) (seq 0 N)
                     \/ Exists (fun k => (i, Z.of_nat k) ∉ filter_batch) (seq 0 N)).
      { destruct (decide (Forall (fun k => (i, Z.of_nat k) ∈ filter_batch) (seq 0 N)))
          as [Hf|Hf]; [now left|right].
        now apply not_Forall_Exists in Hf; [|intros k; apply _]. }
      destruct Hdec as [Hf|He].
      - exfalso. apply Hnot. intros e s He Hread.
        destruct (scatter_read filter_batch B N score_nan m m' i e Hm Hfb He Hs)
          as [_ Hread'].
        rewrite decide_True in Hread'.
        + rewrite Hread' in Hread. injection Hread as <-. exact Hnan.
        + rewrite Forall_forall in Hf.
          replace e with (Z.of_nat (Z.to_nat e)) by (unfold entity_id in He; lia).
          apply Hf. apply elem_of_seq. unfold entity_id in He. lia.
      - apply Exists_exists in He as (k & Hk & Hnin). apply elem_of_seq in Hk.
        exists (Z.of_nat k). split; [unfold entity_id; lia|exact Hnin]. }
    exact Hex.
Qed.

End WarningProperties.

Lemma read_entry_elem {score : Type} (m : list (list score)) i e s :
  read_entry m i e = inr s -> exists row, row ∈ m /\ s ∈ row.
Proof.
  unfold read_entry, at_index.
  destruct (m !! i) as [row|] eqn:Hrow; [|discriminate]. simpl.
  destruct (resolve_index (length row) e) as [|k]; [discriminate|]. simpl.
  destruct (row !! k) as [s'|] eqn:Hk; [|discriminate].
  intros [= <-]. exists row. split; apply list_elem_of_lookup; eauto.
Qed.

Lemma sample_scores_clean i e s :
  read_entry [[Num 5; Num 1; Num 3]; [Num 2; Num 6; Num 4]] i e = inr s ->
  score_is_nan s = false.
Proof.
  intros Hread. apply read_entry_elem in Hread as (row & Hrow & Hs).
  repeat (apply elem_of_cons in Hrow as [->|Hrow]);
    [| |now apply not_elem_of_nil in Hrow];
    repeat (apply elem_of_cons in Hs as [->|Hs]);
    try reflexivity; now apply not_elem_of_nil in Hs.
Defined.

Lemma filter_scores_warns_iff_row_filtered_witness :
  exists m' warn,
    filter_scores_ 0 [(0, 0%Z); (0, 1%Z); (0, 2%Z)]
      {| heap := [[[Num 5; Num 1; Num 3]; [Num 2; Num 6; Num 4]]]; trace := [] |}
    = (inr 0,
       {| heap := <[0 := m']> [[[Num 5; Num 1; Num 3]; [Num 2; Num 6; Num 4]]];
          trace := [] ++ EvInplace 0 :: warn |})
    /\ ((warn = [EvWarning]
         /\ exists i, i < 2 /\ forall e, entity_id 3 e ->
                                  (i, e) ∈ [(0, 0%Z); (0, 1%Z); (0, 2%Z)])
        \/ (warn = []
            /\ forall i, i < 2 ->
                 exists e, entity_id 3 e /\ (i, e) ∉ [(0, 0%Z); (0, 1%Z); (0, 2%Z)])).
Proof.
  apply (filter_scores_warns_iff_row_filtered 0
           [[Num 5; Num 1; Num 3]; [Num 2; Num 6; Num 4]] 2 3
           [(0, 0%Z); (0, 1%Z); (0, 2%Z)]
           [[[Num 5; Num 1; Num 3]; [Num 2; Num 6; Num 4]]] []).
  - reflexivity.
  - exact sample_scores_shape.
  - repeat constructor; unfold entity_id; simpl; lia.
  - reflexivity.
  - exact sample_scores_clean.
Defined.

(** ** What the filtered evaluators receive *)

Section FilteredScores.

Context {score : Type} {ops : ScoreOps score}.

(** Writing the true scores back touches only the true entity of each row. *)
Lemma assign_rows_frame B N col (bs : MappedTriples) :
  forall (m m' : list (list score)) k ts,
    well_shaped m B N -> k + length bs <= B -> length ts = length bs ->
    Forall (fun b => entity_id N (column col b)) bs ->
    assign_true m (zip (seq k (length bs)) bs) col ts = inr m' ->
    forall i e, entity_id N e ->
      (forall j b, bs !! j = Some b -> i = k + j -> e <> column col b) ->
      read_entry m' i e = read_entry m i e.
Proof.
  induction bs as [|b bs IH]; intros m m' k ts Hm Hk Hlen Hbs Ha i e He Hfree;
    simpl in Ha.
  - now injection Ha as <-.
  - destruct ts as [|s ts]; [discriminate|]. simpl in Hlen, Hk.
    apply Forall_cons in Hbs as [Hb Hbs].
    destruct (write_entry_ok m B N k (column col b) s Hm ltac:(lia) Hb)
      as (m1 & Hw & Hm1 & _).
    rewrite Hw in Ha. simpl in Ha.
    rewrite (IH m1 m' (S k) ts Hm1 ltac:(lia) ltac:(lia) Hbs Ha i e He).
    + rewrite (write_entry_read m m1 B N k (column col b) s i e Hm ltac:(lia) Hb He Hw).
      rewrite decide_False; [reflexivity|].
      intros [-> ->]. apply (Hfree 0 b); [reflexivity|lia|reflexivity].
    + intros j b' Hj ->. apply (Hfree (S j) b'); [exact Hj|lia].
Qed.

(** The run of [_evaluate] with filtering and without entity restriction,
    once every step is known to succeed. *)
Lemma _evaluate_filtered_run
    batch (model : @Model score) col filtered_evaluators unfiltered_evaluators slice_size
    pos relation_filter positive_masks_required raw ts fb rf mask m1 m2 h tr :
  (col = 0 \/ col = 2)%Z ->
  model_scores model col batch slice_size = inr raw ->
  gather_true raw batch col = inr ts ->
  create_sparse_positive_filter_ batch pos relation_filter col = inr (fb, rf) ->
  positive_mask_block raw (Some fb) positive_masks_required = inr mask ->
  scatter raw fb score_nan = inr m1 ->
  assign_true m1 (zip (seq 0 (length batch)) batch) col ts = inr m2 ->
  _evaluate batch model col filtered_evaluators unfiltered_evaluators slice_size
            (Some pos) relation_filter None positive_masks_required true
            {| heap := h; trace := tr |}
  = (inr (Some rf),
     {| heap := <[length h := m2]> (<[length h := m1]> (h ++ [raw]));
        trace :=
          tr ++ EvPredict col batch slice_size
             :: dispatch unfiltered_evaluators col batch ts (length h) raw mask
             ++ EvInplace (length h)
             :: warning (length (default [] (head raw))) m1
             ++ EvInplace (length h)
             :: dispatch filtered_evaluators col batch ts (length h) m2 None |}).
Proof.
  intros Hcol Hscores Hg Hfilter Hmask Hs Ha.
  rewrite _evaluate_unfold.
  replace (negb ((col =? 0)%Z || (col =? 2)%Z)) with false
    by (destruct Hcol; subst; reflexivity).
  cbv zeta. rewrite Hscores, Hg.
  unfold positive_filter_block. cbn [orb]. rewrite Hfilter. cbn [mbind exn_bind].
  rewrite Hmask.
  rewrite (dispatch_blocks_unrestricted _ _ _ _ _ _ raw) by apply lookup_fresh.
  rewrite (filter_block_run _ _ _ _ _ raw) by apply lookup_fresh.
  cbn [read_local]. rewrite Hs. cbv zeta. rewrite Ha.
  f_equal. f_equal. rewrite <- !app_assoc. reflexivity.
Qed.

(** The scores the filtered evaluators receive.  Take a batch inside the
    positives, positives with valid entity ids, scores of shape
    (batch_size, N), a relation filter absent or as documented, filtering
    on and no entity restriction.  Then [_evaluate] returns; the last calls
    it makes are those of the filtered evaluators, with the score tensor of
    the model as it then is; and in that tensor each row holds NaN at the
    entities of the other positives of the row and the model's score
    everywhere else, the row's own true entity included. *)
Theorem filtered_scores_spec
    batch (model : @Model score) col filtered_evaluators unfiltered_evaluators slice_size
    pos relation_filter positive_masks_required N raw (w : @World score) :
  (col = 0 \/ col = 2)%Z ->
  (forall b, b ∈ batch -> b ∈ pos) ->
  (forall p, p ∈ pos -> entity_id N (head_of p) /\ entity_id N (tail_of p)) ->
  model_scores model col batch slice_size = inr raw ->
  well_shaped raw (length batch) N ->
  relation_filter_ok batch pos relation_filter ->
  exists fb rf true_scores final w' before,
    create_sparse_positive_filter_ batch pos relation_filter col = inr (fb, rf)
    /\ gather_true raw batch col = inr true_scores
    /\ _evaluate batch model col filtered_evaluators unfiltered_evaluators slice_size
                 (Some pos) relation_filter None positive_masks_required true w
       = (inr (Some rf), w')
    /\ heap w' !! length (heap w) = Some final
    /\ trace w'
       = before ++ dispatch filtered_evaluators col batch true_scores
                            (length (heap w)) final None
    /\ forall i b e, batch !! i = Some b -> entity_id N e ->
         read_entry final i e
         = if decide (e <> column col b /\ (i, e) ∈ fb) then inr score_nan
           else read_entry raw i e.
Proof.
  intros Hcol Hsub Hrange Hscores Hshape Hrf.
  destruct (sparse_filter_of_positives batch pos relation_filter col N
              Hcol Hsub Hrange Hrf) as (fb & rf & Hfilter & Hself & Hfb).
  assert (Hbatch : Forall (fun b => entity_id N (column col b)) batch).
  { apply Forall_forall. intros b Hb. destruct (Hrange b (Hsub b Hb)) as [Hh Ht].
    unfold column. destruct Hcol; subst; simpl; assumption. }
  destruct (gather_rows_ok raw (length batch) N col batch Hshape 0 ltac:(lia) Hbatch)
    as (ts & Hgather & Hlen & Hts).
  destruct (scatter_ok raw (length batch) N fb score_nan Hshape Hfb)
    as (m1 & Hscatter & Hm1).
  destruct (assign_rows_ok (length batch) N col batch m1 0 ts Hm1 ltac:(lia) Hlen Hbatch)
    as (m2 & Hassign & Hm2 & Hread & _).
  assert (Hmask : exists mask,
            positive_mask_block raw (Some fb) positive_masks_required = inr mask).
  { unfold positive_mask_block. destruct positive_masks_required; [|eauto].
    cbn [read_local mbind exn_bind]. unfold create_dense_positive_mask_.
    destruct (scatter_ok (zeros_like raw) (length batch) N fb score_one
                (zeros_like_shaped raw _ _ Hshape) Hfb) as (dense & -> & _).
    cbn [mbind exn_bind]. eauto. }
  destruct Hmask as [mask Hmask].
  destruct w as [h tr].
  exists fb, rf, ts, m2. eexists.
  exists (tr ++ EvPredict col batch slice_size
             :: dispatch unfiltered_evaluators col batch ts (length h) raw mask
             ++ EvInplace (length h)
             :: warning (length (default [] (head raw))) m1
             ++ [EvInplace (length h)]).
  split; [exact Hfilter|]. split; [exact Hgather|]. split.
  { apply (_evaluate_filtered_run batch model col filtered_evaluators
             unfiltered_evaluators slice_size pos relation_filter
             positive_masks_required raw ts fb rf mask m1 m2 h tr);
      assumption. }
  cbn [heap trace]. split.
  { apply list_lookup_insert_eq. rewrite length_insert, length_app. simpl. lia. }
  split.
  { rewrite <- !app_assoc. f_equal. cbn [app]. f_equal.
    rewrite <- !app_assoc. f_equal. cbn [app]. f_equal.
    rewrite <- !app_assoc. reflexivity. }
  intros i b e Hb He.
  assert (Hi : i < length batch) by (apply lookup_lt_is_Some; eauto).
  destruct (Hts i b Hb) as (s & Hs & Hraw).
  destruct (scatter_read fb (length batch) N score_nan raw m1 i e Hshape Hfb He Hscatter)
    as [_ Hm1read].
  destruct (decide (e = column col b)) as [->|Hne].
  - rewrite decide_False by tauto.
    simpl in Hraw. rewrite Hraw. apply (Hread i b s Hb Hs).
  - rewrite (assign_rows_frame (length batch) N col batch m1 m2 0 ts Hm1
               ltac:(lia) Hlen Hbatch Hassign i e He).
    + rewrite Hm1read.
      destruct (decide ((i, e) ∈ fb)) as [Hin|Hnin].
      * now rewrite decide_True.
      * rewrite decide_False by tauto. reflexivity.
    + intros j b' Hj ->. simpl in Hb. rewrite Hb in Hj. now injection Hj as <-.
Qed.

End FilteredScores.

Lemma filtered_scores_spec_witness :
  exists fb rf true_scores final w' before,
    create_sparse_positive_filter_ sample_triples sample_triples None 2 = inr (fb, rf)
    /\ gather_true [[Num 5; Num 1; Num 3]; [Num 2; Num 6; Num 4]] sample_triples 2
       = inr true_scores
    /\ _evaluate sample_triples (sample_model false true true) 2
                 [{| ev_id := 0; filtered := true; requires_positive_mask := false |}] []
                 None (Some sample_triples) None None false true
                 {| heap := []; trace := [] |}
       = (inr (Some rf), w')
    /\ heap w' !! length (heap {| heap := []; trace := ([] : list (@Event sample_score)) |})
       = Some final
    /\ trace w'
       = before
         ++ dispatch [{| ev_id := 0; filtered := true; requires_positive_mask := false |}]
                     2 sample_triples true_scores
                     (length (heap {| heap := []; trace := ([] : list (@Event sample_score)) |}))
                     final None
    /\ forall i b e, sample_triples !! i = Some b -> entity_id 3 e ->
         read_entry final i e
         = if decide (e <> column 2 b /\ (i, e) ∈ fb) then inr score_nan
           else read_entry [[Num 5; Num 1; Num 3]; [Num 2; Num 6; Num 4]] i e.
Proof.
  apply (filtered_scores_spec sample_triples (sample_model false true true) 2
           [{| ev_id := 0; filtered := true; requires_positive_mask := false |}] []
           None sample_triples None false 3
           [[Num 5; Num 1; Num 3]; [Num 2; Num 6; Num 4]]
           {| heap := []; trace := [] |}).
  - right; reflexivity.
  - intros b Hb. exact Hb.
  - exact sample_triples_entities.
  - reflexivity.
  - exact sample_scores_shape.
  - exact I.
Defined.

(** ** Evaluation without filtered evaluators *)

Section UnfilteredRun.

Context {score : Type} {ops : ScoreOps score}.

(** With filtering switched off, [_evaluate] writes to no tensor: whatever
    the other arguments are and whether it returns or raises, the tensor
    store it leaves is the one it found followed by the tensors it created,
    the first of which is the model's score tensor, unchanged; and the
    trace it adds holds only the scoring call and calls of unfiltered
    evaluators, so that no in-place write, no warning and no call of a
    filtered evaluator occurs. *)
Theorem evaluation_without_filtering_only_allocates
    batch (model : @Model score) col filtered_evaluators unfiltered_evaluators slice_size
    all_pos_triples relation_filter restrict positive_masks_required (w : @World score) :
  let w' :=
    snd (_evaluate batch model col filtered_evaluators unfiltered_evaluators slice_size
                   all_pos_triples relation_filter restrict positive_masks_required
                   false w) in
  exists created added,
    heap w' = heap w ++ created
    /\ trace w' = trace w ++ added
    /\ (forall ev, ev ∈ added ->
          ev = EvPredict col batch slice_size
          \/ exists e true_scores ref view mask,
               e ∈ unfiltered_evaluators
               /\ ev = EvProcess e (col =? 2)%Z batch true_scores ref view mask)
    /\ (forall raw, (col = 0 \/ col = 2)%Z ->
          model_scores model col batch slice_size = inr raw ->
          head created = Some raw).
Proof.
  destruct w as [h tr]. cbv zeta. rewrite _evaluate_unfold. cbn [heap trace].
  assert (Hnone : exists created added : list _,
             h = h ++ created /\ tr = tr ++ added
             /\ (forall ev, ev ∈ added ->
                   ev = EvPredict col batch slice_size
                   \/ exists e true_scores ref view mask,
                        e ∈ unfiltered_evaluators
                        /\ ev = EvProcess e (col =? 2)%Z batch true_scores ref view mask)
             /\ (forall raw : list (list score), False -> head created = Some raw)).
  { exists [], []. rewrite !app_nil_r. repeat split; try tauto.
    intros ev Hev. now apply not_elem_of_nil in Hev. }
  destruct (negb ((col =? 0)%Z || (col =? 2)%Z)) eqn:Hcol.
  { cbn [snd heap trace]. destruct Hnone as (c & a & ? & ? & ? & ?).
    exists c, a. repeat split; try assumption.
    intros raw [->| ->]; discriminate. }
  clear Hnone. cbv zeta.
  assert (Hpredict : forall ev, ev ∈ [EvPredict col batch slice_size] ->
            ev = EvPredict col batch slice_size
            \/ exists e true_scores ref (view : list (list score)) mask,
                 e ∈ unfiltered_evaluators
                 /\ ev = EvProcess e (col =? 2)%Z batch true_scores ref view mask).
  { intros ev Hev. apply list_elem_of_singleton in Hev. now left. }
  destruct (model_scores model col batch slice_size) as [e|raw] eqn:Hs.
  { exists [], [EvPredict col batch slice_size]. cbn [snd heap trace].
    rewrite app_nil_r. repeat split; [exact Hpredict|discriminate]. }
  assert (Hscored : forall more,
            exists created added : list _,
              (h ++ [raw]) ++ more = h ++ created
              /\ tr ++ [EvPredict col batch slice_size] = tr ++ added
              /\ (forall ev, ev ∈ added ->
                    ev = EvPredict col batch slice_size
                    \/ exists e true_scores ref (view : list (list score)) mask,
                         e ∈ unfiltered_evaluators
                         /\ ev = EvProcess e (col =? 2)%Z batch true_scores ref view mask)
              /\ (forall raw' : list (list score), (col = 0 \/ col = 2)%Z ->
                    inr raw = (inr raw' : foreign_exn + _) -> head created = Some raw')).
  { intros more. exists (raw :: more), [EvPredict col batch slice_size].
    rewrite <- app_assoc. repeat split; [exact Hpredict|].
    intros raw' _ [= <-]. reflexivity. }
  assert (Hdispatched : forall more ts ref (view : list (list score)) mask,
            exists created added : list _,
              (h ++ [raw]) ++ more = h ++ created
              /\ (tr ++ [EvPredict col batch slice_size])
                 ++ dispatch unfiltered_evaluators col batch ts ref view mask
                 = tr ++ added
              /\ (forall ev, ev ∈ added ->
                    ev = EvPredict col batch slice_size
                    \/ exists e true_scores ref (view : list (list score)) mask,
                         e ∈ unfiltered_evaluators
                         /\ ev = EvProcess e (col =? 2)%Z batch true_scores ref view mask)
              /\ (forall raw' : list (list score), (col = 0 \/ col = 2)%Z ->
                    inr raw = (inr raw' : foreign_exn + _) -> head created = Some raw')).
  { intros more ts ref view mask.
    exists (raw :: more),
      (EvPredict col batch slice_size
       :: dispatch unfiltered_evaluators col batch ts ref view mask).
    rewrite <- !app_assoc. repeat split.
    - intros ev Hev. apply elem_of_cons in Hev as [->|Hev]; [now left|].
      right. apply elem_of_dispatch in Hev as (e & He & ->). eauto 8.
    - intros raw' _ [= <-]. reflexivity. }
  pose proof (Hscored []) as Hscored0. rewrite app_nil_r in Hscored0.
  destruct (gather_true raw batch col) as [e|ts]; [exact Hscored0|].
  destruct (positive_filter_block _ _ _ _ _ _) as [e|[pf rf']]; [exact Hscored0|].
  destruct (positive_mask_block raw pf positive_masks_required) as [e|mask];
    [exact Hscored0|].
  destruct restrict as [ids|].
  - rewrite dispatch_blocks_restricted.
    destruct (index_cols raw ids) as [e|selected]; [exact Hscored0|].
    destruct mask as [mask|]; [|exact (Hscored [selected])].
    destruct (index_cols mask ids) as [e|mask']; [exact (Hscored [selected])|].
    rewrite (filter_block_run _ _ _ _ _ raw).
    + exact (Hdispatched [selected] ts _ selected (Some mask')).
    + rewrite lookup_app_l by (rewrite length_app; simpl; lia). apply lookup_fresh.
  - rewrite (dispatch_blocks_unrestricted _ _ _ _ _ _ raw) by apply lookup_fresh.
    rewrite (filter_block_run _ _ _ _ _ raw) by apply lookup_fresh.
    pose proof (Hdispatched [] ts (length h) raw mask) as Hd.
    rewrite app_nil_r in Hd. exact Hd.
Qed.

End UnfilteredRun.

(** ** Reusing the relation filter *)

Lemma bind_ext_in {A B} (f g : A -> list B) (l : list A) :
  (forall x, x ∈ l -> f x = g x) -> l ≫= f = l ≫= g.
Proof.
  induction l as [|a l IH]; intros H; [reflexivity|].
  cbn. rewrite (H a) by (apply elem_of_cons; now left).
  rewrite IH; [reflexivity|]. intros x Hx. apply H. apply elem_of_cons; now right.
Qed.

(** [nonzero] reads a tensor only inside its shape. *)
Lemma nonzero_ext (a b : BoolTensor) :
  bt_rows a = bt_rows b -> bt_cols a = bt_cols b ->
  (forall i j, i < bt_rows a -> j < bt_cols a -> bt_at a i j = bt_at b i j) ->
  nonzero a = nonzero b.
Proof.
  intros Hr Hc Hat. unfold nonzero. rewrite <- Hr, <- Hc.
  apply bind_ext_in. intros i Hi. apply elem_of_seq in Hi.
  apply bind_ext_in. intros j Hj. apply elem_of_seq in Hj.
  rewrite Hat by lia. reflexivity.
Qed.

(** The relation filter is made to be reused: [_evaluate] hands the filter
    the tail side computed to the head side.  For a column in {0, 2} and
    any relation filter that fits its documentation, the call that is given
    the filter returns the very filter it was given and the same list of
    (row, entity) pairs, in the same order, as the call that computes the
    relation filter afresh; and the filter a fresh call returns fits the
    documentation. *)
Theorem relation_filter_reuse hrt_batch all_pos_triples rf filter_col :
  (filter_col = 0 \/ filter_col = 2)%Z ->
  relation_filter_ok hrt_batch all_pos_triples (Some rf) ->
  exists filter_batch fresh,
    create_sparse_positive_filter_ hrt_batch all_pos_triples None filter_col
    = inr (filter_batch, fresh)
    /\ relation_filter_ok hrt_batch all_pos_triples (Some fresh)
    /\ create_sparse_positive_filter_ hrt_batch all_pos_triples (Some rf) filter_col
       = inr (filter_batch, rf).
Proof.
  intros Hcol Hrf.
  destruct (create_sparse_positive_filter_value hrt_batch all_pos_triples None filter_col
              Hcol I) as (both0 & fresh & Heq0 & Hfresh & Hr0 & Hc0 & Hat0).
  destruct (create_sparse_positive_filter_value hrt_batch all_pos_triples (Some rf)
              filter_col Hcol Hrf) as (both1 & rf' & Heq1 & _ & Hr1 & Hc1 & Hat1).
  assert (rf' = rf) as ->.
  { revert Heq1. unfold create_sparse_positive_filter_.
    replace (negb ((filter_col =? 0)%Z || (filter_col =? 2)%Z)) with false
      by (destruct Hcol; subst; reflexivity).
    cbv zeta. destruct (tensor_and _ rf) as [e|both]; [discriminate|].
    cbn [mbind exn_bind]. destruct (mapE _ (nonzero both)); [discriminate|].
    now intros [= _ ->]. }
  eexists _, fresh. split; [exact Heq0|]. split; [exact Hfresh|].
  rewrite Heq1. rewrite (nonzero_ext both1 both0); [reflexivity| | |].
  - now rewrite Hr0, Hr1.
  - now rewrite Hc0, Hc1.
  - intros i j Hi Hj. rewrite Hr1 in Hi. rewrite Hc1 in Hj.
    destruct (lookup_lt_is_Some_2 hrt_batch i Hi) as [b Hb].
    destruct (lookup_lt_is_Some_2 all_pos_triples j Hj) as [p Hp].
    now rewrite (Hat0 i j b p Hb Hp), (Hat1 i j b p Hb Hp).
Qed.

Lemma relation_filter_reuse_witness :
  exists filter_batch fresh,
    create_sparse_positive_filter_ sample_triples sample_triples None 0
    = inr (filter_batch, fresh)
    /\ relation_filter_ok sample_triples sample_triples (Some fresh)
    /\ create_sparse_positive_filter_ sample_triples sample_triples
         (Some {| bt_rows := 2; bt_cols := 2; bt_at := fun _ _ => true |}) 0
       = inr (filter_batch, {| bt_rows := 2; bt_cols := 2; bt_at := fun _ _ => true |}).
Proof.
  apply (relation_filter_reuse sample_triples sample_triples
           {| bt_rows := 2; bt_cols := 2; bt_at := fun _ _ => true |} 0).
  - left; reflexivity.
  - split; [reflexivity|]. split; [reflexivity|].
    intros i j b p Hb Hp.
    destruct i as [|[|i]]; simpl in Hb; try discriminate;
      destruct j as [|[|j]]; simpl in Hp; try discriminate;
      injection Hb as <-; injection Hp as <-; reflexivity.
Defined.

(** ** The size search on an arbitrary probe *)

Section SearchInvariants.

Context {score : Type} {ops : ScoreOps score}.

Variables is_cudnn_error is_cuda_oom_error : string -> bool.
Variable probe : list Attempt -> Attempt -> option exn.

Abbreviation step := (search_step is_cudnn_error is_cuda_oom_error probe).
Abbreviation loop := (search_loop is_cudnn_error is_cuda_oom_error probe).
Abbreviation memory := (memory_error is_cudnn_error is_cuda_oom_error).
Abbreviation ends := (ends_with is_cudnn_error is_cuda_oom_error probe).

(** The outcomes of a probe after which the search goes on or stops of its
    own accord: success, and a memory-class error. *)
Definition tolerated (outcome : option exn) : Prop :=
  match outcome with
  | None => True
  | Some e => memory e
  end.

(** One iteration, whatever the probe does. *)
Lemma step_inv key maximum_triples st :
  match step key maximum_triples st with
  | Continue st' =>
      attempts st' = attempts st ++ [values_dict st]
      /\ tolerated (probe (attempts st) (values_dict st))
  | Break st' =>
      st' = probed st
      /\ match probe (attempts st) (values_dict st) with
         | None => evaluated_once st = true
         | Some e => memory e /\ values_dict st !! key = Some (Some 1%Z)
         end
  | Raise e st' => st' = probed st
  end.
Proof.
  destruct st as [d rm eo log]. unfold search_step, probed.
  cbn [values_dict attempts reached_max evaluated_once].
  destruct (probe log d) as [e|].
  - destruct e as [| | | | | | | | | | |msg| |]; try reflexivity.
    destruct (negb (is_cudnn_error msg) && negb (is_cuda_oom_error msg)) eqn:Hm;
      [reflexivity|].
    assert (Hmem : memory (RuntimeError msg)).
    { exists msg. split; [reflexivity|].
      destruct (is_cudnn_error msg), (is_cuda_oom_error msg); simpl in *; congruence. }
    unfold dict_get. destruct (d !! key) as [[z|]|] eqn:Hk; cbn; try reflexivity.
    destruct (z =? 1)%Z eqn:Hz; cbn.
    + apply Z.eqb_eq in Hz. subst z. now repeat split.
    + now split.
  - unfold dict_get.
    destruct rm; cbn.
    + destruct eo; cbn; now repeat split.
    + destruct (d !! "batch_size") as [[b|]|]; cbn; try reflexivity.
      destruct (b <? maximum_triples)%Z; cbn.
      * destruct (d !! key) as [[z|]|]; cbn; try reflexivity. now split.
      * destruct eo; cbn; now repeat split.
Qed.

(** What a search that returns a pair leaves behind. *)
Lemma search_loop_sound key maximum_triples fuel : forall st v flag log,
  loop fuel key maximum_triples st = Some (inr (v, flag), log) ->
  exists earlier d,
    log = attempts st ++ earlier ++ [d]
    /\ d !! key = Some v
    /\ (forall k d', (earlier ++ [d]) !! k = Some d' ->
          tolerated (probe (attempts st ++ take k (earlier ++ [d])) d'))
    /\ (flag = false ->
        v = Some 1%Z /\ exists e, probe (attempts st ++ earlier) d = Some e /\ memory e).
Proof.
  induction fuel as [|fuel IH]; intros st v flag log Hrun; [discriminate|].
  simpl in Hrun. pose proof (step_inv key maximum_triples st) as Hstep.
  destruct (step key maximum_triples st) as [st'|st'|e st'].
  - destruct Hstep as [Hlog Hok].
    destruct (IH st' v flag log Hrun) as (earlier & d & -> & Hd & Hall & Hflag).
    exists (values_dict st :: earlier), d. rewrite Hlog, <- !app_assoc.
    split; [reflexivity|]. split; [exact Hd|]. split.
    + intros [|k] d' Hk; simpl in Hk.
      * injection Hk as <-. simpl. now rewrite app_nil_r.
      * specialize (Hall k d' Hk). rewrite Hlog, <- app_assoc in Hall. exact Hall.
    + intros Hf. destruct (Hflag Hf) as [Hv Hlast]. split; [exact Hv|].
      rewrite Hlog, <- app_assoc in Hlast. exact Hlast.
  - destruct Hstep as [-> Hok]. unfold probed in Hrun.
    cbn [values_dict attempts evaluated_once] in Hrun. unfold dict_get in Hrun.
    destruct (values_dict st !! key) as [v'|] eqn:Hk; [|discriminate].
    cbn in Hrun. injection Hrun as <- <- <-.
    exists [], (values_dict st). rewrite app_nil_r. cbn [app].
    split; [reflexivity|]. split; [exact Hk|]. split.
    + intros [|k] d' Hd'; simpl in Hd'; [|discriminate].
      injection Hd' as <-. simpl. rewrite app_nil_r.
      destruct (probe (attempts st) (values_dict st)); [apply Hok|exact I].
    + intros Hf. destruct (probe (attempts st) (values_dict st)) as [e|]; [|congruence].
      destruct Hok as [Hmem Hone]. injection Hone as ->.
      split; [reflexivity|]. eauto.
  - discriminate.
Qed.

(** Whatever the probe does, a pair that the size search returns is backed
    by its probes: the search made at least one probe; every probe it made
    either succeeded or failed with a memory-class error; the last probe
    was made with the returned value; and if the flag is False, the
    returned value is 1 and the last probe failed with a memory-class
    error. *)
Theorem param_size_search_result_backed
    fuel history key start (model : @Model score) (mapped_triples : MappedTriples)
    v flag log :
  _param_size_search is_cudnn_error is_cuda_oom_error probe fuel history key start
                     model mapped_triples
  = Some (inr (v, flag), log) ->
  exists earlier d,
    log = history ++ earlier ++ [d]
    /\ d !! key = Some v
    /\ (forall k d', (earlier ++ [d]) !! k = Some d' ->
          tolerated (probe (history ++ take k (earlier ++ [d])) d'))
    /\ (flag = false ->
        v = Some 1%Z /\ exists e, probe (history ++ earlier) d = Some e /\ memory e).
Proof.
  unfold _param_size_search.
  destruct (String.eqb key "batch_size").
  - intros Hrun. exact (search_loop_sound _ _ _ _ _ _ _ Hrun).
  - destruct (String.eqb key "slice_size"); [|discriminate].
    destruct (_check_slicing_availability model 1); [discriminate|].
    intros Hrun. exact (search_loop_sound _ _ _ _ _ _ _ Hrun).
Qed.


(** *** The probes of a batch-size search *)

(** The keyword arguments of a batch-size probe over [maximum_triples]
    triples. *)
Definition batch_probe (maximum_triples : Z) (d : Attempt) : Prop :=
  exists b, d !! "batch_size" = Some (Some b) /\ d !! "slice_size" = Some None
            /\ (1 <= b < 2 * maximum_triples)%Z.

Lemma batch_probe_insert maximum_triples d b :
  batch_probe maximum_triples d -> (1 <= b < 2 * maximum_triples)%Z ->
  batch_probe maximum_triples (<["batch_size" := Some b]> d).
Proof.
  intros (b0 & _ & Hs & _) Hb. exists b. split; [apply lookup_insert_eq|].
  split; [|exact Hb]. rewrite lookup_insert_ne by discriminate. exact Hs.
Qed.

Lemma batch_step_inv maximum_triples st :
  batch_probe maximum_triples (values_dict st) ->
  match step "batch_size" maximum_triples st with
  | Continue st' =>
      attempts st' = attempts st ++ [values_dict st]
      /\ batch_probe maximum_triples (values_dict st')
  | Break st' | Raise _ st' => attempts st' = attempts st ++ [values_dict st]
  end.
Proof.
  destruct st as [d rm eo log]. cbn [values_dict attempts].
  intros Hd. pose proof Hd as (b & Hb & Hs & Hrange).
  unfold search_step. cbn [values_dict attempts reached_max evaluated_once].
  destruct (probe log d) as [e|].
  - destruct e as [| | | | | | | | | | |msg| |]; try reflexivity.
    destruct (negb (is_cudnn_error msg) && negb (is_cuda_oom_error msg));
      [reflexivity|].
    unfold dict_get. rewrite Hb. cbn.
    destruct (b =? 1)%Z eqn:Hone; cbn; [reflexivity|].
    split; [reflexivity|]. apply batch_probe_insert; [exact Hd|].
    apply Z.eqb_neq in Hone.
    assert (1 <= b / 2)%Z by (apply Z.div_le_lower_bound; lia).
    assert (b / 2 < b)%Z by (apply Z.div_lt; lia). lia.
  - unfold dict_get. rewrite Hb.
    destruct rm; cbn.
    + destruct eo; cbn; [reflexivity|]. now split.
    + destruct (b <? maximum_triples)%Z eqn:Hlt; cbn.
      * split; [reflexivity|]. apply batch_probe_insert; [exact Hd|].
        apply Z.ltb_lt in Hlt. lia.
      * destruct eo; cbn; [reflexivity|]. now split.
Qed.

Lemma batch_loop_probes maximum_triples fuel : forall st result log,
  batch_probe maximum_triples (values_dict st) ->
  loop fuel "batch_size" maximum_triples st = Some (result, log) ->
  exists made, log = attempts st ++ made /\ made <> []
               /\ Forall (batch_probe maximum_triples) made.
Proof.
  induction fuel as [|fuel IH]; intros st result log Hd Hrun; [discriminate|].
  simpl in Hrun. pose proof (batch_step_inv maximum_triples st Hd) as Hstep.
  destruct (step "batch_size" maximum_triples st) as [st'|st'|e st'].
  - destruct Hstep as [Hlog Hd'].
    destruct (IH st' result log Hd' Hrun) as (made & -> & _ & Hall).
    exists (values_dict st :: made). rewrite Hlog, <- app_assoc.
    split; [reflexivity|]. split; [discriminate|]. now constructor.
  - injection Hrun as _ <-. exists [values_dict st].
    split; [exact Hstep|]. split; [discriminate|]. now repeat constructor.
  - injection Hrun as _ <-. exists [values_dict st].
    split; [exact Hstep|]. split; [discriminate|]. now repeat constructor.
Qed.

(** The start value of a batch-size search: the default 256 for [None],
    and no more than the number of triples. *)
Lemma batch_start_probe (mapped_triples : MappedTriples) start :
  mapped_triples <> [] ->
  (forall s, start = Some s -> (1 <= s)%Z) ->
  let maximum_triples := Z.of_nat (length mapped_triples) in
  let s0 := default 256%Z start in
  let s1 := if (s0 >? maximum_triples)%Z then maximum_triples else s0 in
  (1 <= maximum_triples)%Z /\ (1 <= s1 <= maximum_triples)%Z
  /\ dict_ok "batch_size" (<["slice_size" := None]> (<["batch_size" := Some s1]> ∅)) s1
  /\ batch_probe maximum_triples
       (<["slice_size" := None]> (<["batch_size" := Some s1]> ∅)).
Proof.
  intros Hne Hstart maximum_triples s0 s1.
  assert (Hmax : (1 <= maximum_triples)%Z).
  { subst maximum_triples. destruct mapped_triples; [congruence|]. simpl length. lia. }
  assert (Hs0 : (1 <= s0)%Z).
  { subst s0. destruct start as [s|]; simpl; [now apply Hstart|lia]. }
  assert (Hs1 : (1 <= s1 <= maximum_triples)%Z).
  { subst s1. destruct (s0 >? maximum_triples)%Z eqn:E; [lia|].
    rewrite Z.gtb_ltb in E. apply Z.ltb_ge in E. lia. }
  assert (Hb : (<["slice_size" := None]> (<["batch_size" := Some s1]> ∅) : Attempt)
                 !! "batch_size" = Some (Some s1)).
  { rewrite lookup_insert_ne by discriminate. apply lookup_insert_eq. }
  split; [exact Hmax|]. split; [exact Hs1|]. split; [now split|].
  exists s1. split; [exact Hb|]. split; [apply lookup_insert_eq|lia].
Qed.

(** Whatever the probe does, a batch-size search over a non-empty triple
    set, started at [None] or from 1 on, that comes to an end (by returning
    or by raising) has made at least one probe, and every probe it made had
    no slice size and a batch size of at least 1 and below twice the number
    of triples. *)
Theorem batch_size_probes_bounded
    fuel history start (model : @Model score) (mapped_triples : MappedTriples)
    result log :
  mapped_triples <> [] ->
  (forall s, start = Some s -> (1 <= s)%Z) ->
  _param_size_search is_cudnn_error is_cuda_oom_error probe fuel history "batch_size"
                     start model mapped_triples
  = Some (result, log) ->
  exists made,
    log = history ++ made /\ made <> []
    /\ forall d, d ∈ made ->
         exists b, d !! "batch_size" = Some (Some b) /\ d !! "slice_size" = Some None
                   /\ (1 <= b < 2 * Z.of_nat (length mapped_triples))%Z.
Proof.
  intros Hne Hstart Hrun.
  destruct (batch_start_probe mapped_triples start Hne Hstart) as (_ & _ & _ & Hd).
  unfold _param_size_search in Hrun. simpl String.eqb in Hrun. cbv iota zeta in Hrun.
  destruct (batch_loop_probes _ fuel
              {| values_dict := _; reached_max := false; evaluated_once := false;
                 attempts := history |} result log Hd Hrun)
    as (made & Hlog & Hmade & Hall).
  exists made. split; [exact Hlog|]. split; [exact Hmade|].
  intros d Hin. exact (proj1 (Forall_forall _ _) Hall d Hin).
Qed.

(** *** Termination of the batch-size search *)

Lemma ends_raise key maximum_triples st st' e :
  step key maximum_triples st = Raise e st' ->
  ends key maximum_triples st (inl e, attempts st').
Proof.
  intros Hstep. exists 1. intros fuel Hle.
  destruct fuel as [|fuel]; [lia|]. simpl. now rewrite Hstep.
Qed.

(** A probe that raises anything but a memory-class error ends the search. *)
Lemma step_other key maximum_triples st e :
  probe (attempts st) (values_dict st) = Some e ->
  memory e \/ step key maximum_triples st = Raise e (probed st).
Proof.
  destruct st as [d rm eo log]. cbn [values_dict attempts]. intros Hp.
  unfold search_step, probed. cbn [values_dict attempts reached_max evaluated_once].
  rewrite Hp.
  destruct e as [| | | | | | | | | | |msg| |]; try (right; reflexivity).
  destruct (negb (is_cudnn_error msg) && negb (is_cuda_oom_error msg)) eqn:Hm;
    [right; reflexivity|].
  left. exists msg. split; [reflexivity|].
  destruct (is_cudnn_error msg), (is_cuda_oom_error msg); simpl in *; congruence.
Qed.

(** After a first failure the search ends, whatever the probe does. *)
Lemma shrink_total key maximum_triples n : forall v d eo log,
  Z.to_nat v <= n -> (1 <= v)%Z -> dict_ok key d v ->
  exists result,
    ends key maximum_triples
      {| values_dict := d; reached_max := true; evaluated_once := eo; attempts := log |}
      result.
Proof.
  induction n as [|n IH]; intros v d eo log Hn Hv Hd; [lia|].
  pose proof Hd as [Hk Hb].
  assert (Hfail : forall eo log e, probe log d = Some e ->
            exists result,
              ends key maximum_triples
                {| values_dict := d; reached_max := true; evaluated_once := eo;
                   attempts := log |} result).
  { intros eo' log' e He.
    destruct (step_other key maximum_triples
                {| values_dict := d; reached_max := true; evaluated_once := eo';
                   attempts := log' |} e He) as [Hmem|Hraise].
    - pose proof (step_memory_failure is_cudnn_error is_cuda_oom_error probe key
                    maximum_triples
                    {| values_dict := d; reached_max := true; evaluated_once := eo';
                       attempts := log' |} e v He Hmem Hk) as Hstep.
      destruct (v =? 1)%Z eqn:Hone.
      + eexists. eapply ends_break; [exact Hstep|exact Hk].
      + apply Z.eqb_neq in Hone.
        assert (1 <= v / 2)%Z by (apply Z.div_le_lower_bound; lia).
        assert (v / 2 < v)%Z by (apply Z.div_lt; lia).
        destruct (IH (v / 2)%Z (<[key := Some (v / 2)%Z]> d) false (log' ++ [d]))
          as [result Hends]; [lia|lia|exact (dict_ok_insert _ _ v _ Hd)|].
        exists result. eapply ends_continue; [exact Hstep|exact Hends].
    - eexists. eapply ends_raise. exact Hraise. }
  assert (Htrue : forall log,
            exists result,
              ends key maximum_triples
                {| values_dict := d; reached_max := true; evaluated_once := true;
                   attempts := log |} result).
  { intros log'. destruct (probe log' d) as [e|] eqn:He; [now apply (Hfail _ _ e)|].
    pose proof (step_success is_cudnn_error is_cuda_oom_error probe key maximum_triples
                  {| values_dict := d; reached_max := true; evaluated_once := true;
                     attempts := log' |} v (batch_size_at key v) He Hk Hb) as Hstep.
    cbn in Hstep. eexists. eapply ends_break; [exact Hstep|exact Hk]. }
  destruct eo; [apply Htrue|].
  destruct (probe log d) as [e|] eqn:He; [now apply (Hfail _ _ e)|].
  pose proof (step_success is_cudnn_error is_cuda_oom_error probe key maximum_triples
                {| values_dict := d; reached_max := true; evaluated_once := false;
                   attempts := log |} v (batch_size_at key v) He Hk Hb) as Hstep.
  cbn in Hstep. destruct (Htrue (log ++ [d])) as [result Hends].
  exists result. eapply ends_continue; [exact Hstep|exact Hends].
Qed.

(** Before the first failure the batch size doubles while it is below the
    number of triples. *)
Lemma grow_total maximum_triples n : forall v d eo log,
  Z.to_nat (maximum_triples - v) < n -> (1 <= v)%Z -> dict_ok "batch_size" d v ->
  exists result,
    ends "batch_size" maximum_triples
      {| values_dict := d; reached_max := false; evaluated_once := eo; attempts := log |}
      result.
Proof.
  induction n as [|n IH]; intros v d eo log Hn Hv Hd; [lia|].
  pose proof Hd as [Hk Hb]. change (batch_size_at "batch_size" v) with v in Hb.
  assert (Hfail : forall eo log e, probe log d = Some e ->
            exists result,
              ends "batch_size" maximum_triples
                {| values_dict := d; reached_max := false; evaluated_once := eo;
                   attempts := log |} result).
  { intros eo' log' e He.
    destruct (step_other "batch_size" maximum_triples
                {| values_dict := d; reached_max := false; evaluated_once := eo';
                   attempts := log' |} e He) as [Hmem|Hraise].
    - pose proof (step_memory_failure is_cudnn_error is_cuda_oom_error probe "batch_size"
                    maximum_triples
                    {| values_dict := d; reached_max := false; evaluated_once := eo';
                       attempts := log' |} e v He Hmem Hk) as Hstep.
      destruct (v =? 1)%Z eqn:Hone.
      + eexists. eapply ends_break; [exact Hstep|exact Hk].
      + apply Z.eqb_neq in Hone.
        assert (1 <= v / 2)%Z by (apply Z.div_le_lower_bound; lia).
        destruct (shrink_total "batch_size" maximum_triples (Z.to_nat (v / 2)) (v / 2)%Z
                    (<["batch_size" := Some (v / 2)%Z]> d) false (log' ++ [d]))
          as [result Hends]; [lia|lia|exact (dict_ok_insert _ _ v _ Hd)|].
        exists result. eapply ends_continue; [exact Hstep|exact Hends].
    - eexists. eapply ends_raise. exact Hraise. }
  assert (Hgrow : forall eo log, probe log d = None -> (v < maximum_triples)%Z ->
            exists result,
              ends "batch_size" maximum_triples
                {| values_dict := d; reached_max := false; evaluated_once := eo;
                   attempts := log |} result).
  { intros eo' log' He Hlt.
    pose proof (step_success is_cudnn_error is_cuda_oom_error probe "batch_size"
                  maximum_triples
                  {| values_dict := d; reached_max := false; evaluated_once := eo';
                     attempts := log' |} v v He Hk Hb) as Hstep.
    cbn [reached_max negb andb] in Hstep.
    replace (v <? maximum_triples)%Z with true in Hstep
      by (symmetry; now apply Z.ltb_lt).
    destruct (IH (v * 2)%Z (<["batch_size" := Some (v * 2)%Z]> d) true (log' ++ [d]))
      as [result Hends]; [lia|lia|exact (dict_ok_insert _ _ v _ Hd)|].
    exists result. eapply ends_continue; [exact Hstep|exact Hends]. }
  assert (Htrue : forall log,
            exists result,
              ends "batch_size" maximum_triples
                {| values_dict := d; reached_max := false; evaluated_once := true;
                   attempts := log |} result).
  { intros log'. destruct (probe log' d) as [e|] eqn:He; [now apply (Hfail _ _ e)|].
    destruct (Z_lt_ge_dec v maximum_triples) as [Hlt|Hge]; [now apply Hgrow|].
    pose proof (step_success is_cudnn_error is_cuda_oom_error probe "batch_size"
                  maximum_triples
                  {| values_dict := d; reached_max := false; evaluated_once := true;
                     attempts := log' |} v v He Hk Hb) as Hstep.
    cbn [reached_max evaluated_once negb andb] in Hstep.
    replace (v <? maximum_triples)%Z with false in Hstep
      by (symmetry; apply Z.ltb_ge; lia).
    eexists. eapply ends_break; [exact Hstep|exact Hk]. }
  destruct eo; [apply Htrue|].
  destruct (probe log d) as [e|] eqn:He; [now apply (Hfail _ _ e)|].
  destruct (Z_lt_ge_dec v maximum_triples) as [Hlt|Hge]; [now apply Hgrow|].
  pose proof (step_success is_cudnn_error is_cuda_oom_error probe "batch_size"
                maximum_triples
                {| values_dict := d; reached_max := false; evaluated_once := false;
                   attempts := log |} v v He Hk Hb) as Hstep.
  cbn [reached_max evaluated_once negb andb] in Hstep.
  replace (v <? maximum_triples)%Z with false in Hstep
    by (symmetry; apply Z.ltb_ge; lia).
  destruct (Htrue (log ++ [d])) as [result Hends].
  exists result. eapply ends_continue; [exact Hstep|exact Hends].
Qed.

(** Whatever the probe does, the batch-size search over a non-empty triple
    set, started at [None] or from 1 on, comes to an end: from some number
    of iterations on, [while True] has been left, by [break] or by an
    exception. *)
Theorem batch_size_search_terminates
    history start (model : @Model score) (mapped_triples : MappedTriples) :
  mapped_triples <> [] ->
  (forall s, start = Some s -> (1 <= s)%Z) ->
  exists fuel0 result,
    forall fuel, fuel0 <= fuel ->
      _param_size_search is_cudnn_error is_cuda_oom_error probe fuel history "batch_size"
                         start model mapped_triples
      = Some result.
Proof.
  intros Hne Hstart.
  destruct (batch_start_probe mapped_triples start Hne Hstart) as (_ & Hs1 & Hd & _).
  cbv zeta in Hs1, Hd.
  edestruct (grow_total (Z.of_nat (length mapped_triples))) as [result [fuel0 Hends]];
    [| |exact Hd|]; [apply Nat.lt_succ_diag_r|lia|].
  exists fuel0, result. intros fuel Hle.
  unfold _param_size_search. simpl String.eqb. cbv iota zeta. now apply Hends.
Qed.

(** *** Searches that do not end *)

Lemma loop_at_zero key maximum_triples fuel :
  always_failing_probe is_cudnn_error is_cuda_oom_error probe ->
  forall v (d : Attempt) rm eo log,
    (v <= 0)%Z -> d !! key = Some (Some v) ->
    loop fuel key maximum_triples
      {| values_dict := d; reached_max := rm; evaluated_once := eo; attempts := log |}
    = None.
Proof.
  intros Hfail. induction fuel as [|fuel IH]; intros v d rm eo log Hv Hk; [reflexivity|].
  destruct (Hfail log d) as (e & He & Hmem). simpl.
  erewrite (step_memory_failure _ _ _ _ _ _ e v); [|exact He|exact Hmem|exact Hk].
  replace (v =? 1)%Z with false by (symmetry; apply Z.eqb_neq; lia).
  apply (IH (v / 2)%Z); [|apply lookup_insert_eq].
  apply Z.div_le_upper_bound; lia.
Qed.

(** On a probe that always fails with a memory-class error, a batch-size
    search over an empty triple set, or started at a value below 1, never
    comes to an end: the value it halves never becomes 1. *)
Theorem batch_size_search_below_one_diverges
    fuel history start (model : @Model score) (mapped_triples : MappedTriples) :
  always_failing_probe is_cudnn_error is_cuda_oom_error probe ->
  mapped_triples = [] \/ (exists s, start = Some s /\ (s <= 0)%Z) ->
  _param_size_search is_cudnn_error is_cuda_oom_error probe fuel history "batch_size"
                     start model mapped_triples
  = None.
Proof.
  intros Hfail Hcase.
  unfold _param_size_search. simpl String.eqb. cbv iota zeta.
  set (maximum_triples := Z.of_nat (length mapped_triples)).
  set (s0 := default 256%Z start).
  set (s1 := if (s0 >? maximum_triples)%Z then maximum_triples else s0).
  apply (loop_at_zero _ _ _ Hfail s1).
  - subst s1. destruct (s0 >? maximum_triples)%Z eqn:E.
    + rewrite Z.gtb_ltb in E. apply Z.ltb_lt in E.
      destruct Hcase as [->|(s & -> & Hs)]; [subst maximum_triples; simpl; lia|].
      subst s0. simpl in *. lia.
    + rewrite Z.gtb_ltb in E. apply Z.ltb_ge in E.
      destruct Hcase as [->|(s & -> & Hs)]; [subst maximum_triples; simpl in *; lia|].
      subst s0. simpl in *. lia.
  - rewrite lookup_insert_ne by discriminate. apply lookup_insert_eq.
Qed.

(** Every search that ends has probed the value it started with. *)
Lemma loop_probes_first key maximum_triples fuel : forall st result log,
  loop fuel key maximum_triples st = Some (result, log) ->
  exists later, log = attempts st ++ values_dict st :: later.
Proof.
  induction fuel as [|fuel IH]; intros st result log Hrun; [discriminate|].
  simpl in Hrun. pose proof (step_inv key maximum_triples st) as Hstep.
  destruct (step key maximum_triples st) as [st'|st'|e st'].
  - destruct Hstep as [Hlog _].
    destruct (IH st' result log Hrun) as (later & ->).
    exists (values_dict st' :: later). rewrite Hlog, <- app_assoc. reflexivity.
  - destruct Hstep as [-> _]. injection Hrun as _ <-. now exists [].
  - subst st'. injection Hrun as _ <-. now exists [].
Qed.

(** A slice-size search that has not failed yet doubles the slice size
    after every successful probe, as the batch size in force, 1, is below
    the number of triples. *)
Lemma slice_loop_fails maximum_triples fuel : forall s (d : Attempt) eo log result log',
  (1 < maximum_triples)%Z ->
  d !! "slice_size" = Some (Some s) -> d !! "batch_size" = Some (Some 1%Z) ->
  loop fuel "slice_size" maximum_triples
    {| values_dict := d; reached_max := false; evaluated_once := eo; attempts := log |}
  = Some (result, log') ->
  exists earlier d' later e,
    log' = log ++ earlier ++ d' :: later /\ probe (log ++ earlier) d' = Some e.
Proof.
  induction fuel as [|fuel IH]; intros s d eo log result log' Hmax Hk Hb Hrun;
    [discriminate|].
  destruct (probe log d) as [e|] eqn:He.
  - destruct (loop_probes_first _ _ _ _ _ _ Hrun) as (later & ->).
    cbn [attempts values_dict]. exists [], d, later, e.
    rewrite app_nil_r. now split.
  - simpl in Hrun.
    rewrite (step_success is_cudnn_error is_cuda_oom_error probe "slice_size"
               maximum_triples
               {| values_dict := d; reached_max := false; evaluated_once := eo;
                  attempts := log |} s 1%Z He Hk Hb) in Hrun.
    cbn [reached_max negb andb] in Hrun.
    replace (1 <? maximum_triples)%Z with true in Hrun
      by (symmetry; now apply Z.ltb_lt).
    cbn [values_dict attempts] in Hrun.
    destruct (IH (s * 2)%Z _ true _ result log' Hmax
                (lookup_insert_eq _ _ _)
                ltac:(rewrite lookup_insert_ne by discriminate; exact Hb) Hrun)
      as (earlier & d' & later & e & -> & He').
    exists (d :: earlier), d', later, e. rewrite <- !app_assoc in *. now split.
Qed.

(** A slice-size search over two or more triples ends only after a probe
    has raised: as long as every probe succeeds, the slice size is doubled
    and probed again, whatever the number of entities is.  So whenever the
    search has come to an end on a model that passes the slicing check, one
    of the probes it made raised an exception. *)
Theorem slice_size_search_ends_only_after_failure
    fuel history s (model : @Model score) (mapped_triples : MappedTriples) result log :
  2 <= length mapped_triples ->
  _check_slicing_availability model 1 = inr tt ->
  _param_size_search is_cudnn_error is_cuda_oom_error probe fuel history "slice_size"
                     (Some s) model mapped_triples
  = Some (result, log) ->
  exists earlier d later e,
    log = history ++ earlier ++ d :: later /\ probe (history ++ earlier) d = Some e.
Proof.
  intros Hlen Hcheck. unfold _param_size_search. simpl String.eqb. cbv iota zeta.
  rewrite Hcheck. intros Hrun.
  assert (Hmax : (1 < Z.of_nat (length mapped_triples))%Z) by lia.
  refine (slice_loop_fails _ fuel s _ false history result log Hmax _ _ Hrun).
  - rewrite lookup_insert_ne by discriminate. apply lookup_insert_eq.
  - apply lookup_insert_eq.
Qed.

(** *** The controller *)

(** A search that returns with the flag False. *)
Lemma unsuccessful_search fuel history key start (model : @Model score)
    (mapped_triples : MappedTriples) v log :
  _param_size_search is_cudnn_error is_cuda_oom_error probe fuel history key start
                     model mapped_triples
  = Some (inr (v, false), log) ->
  v = Some 1%Z
  /\ exists earlier d e,
       log = history ++ earlier ++ [d] /\ d !! key = Some (Some 1%Z)
       /\ probe (history ++ earlier) d = Some e /\ memory e.
Proof.
  intros Hrun.
  assert (Hloop : exists maximum_triples st,
            attempts st = history
            /\ loop fuel key maximum_triples st = Some (inr (v, false), log)).
  { unfold _param_size_search in Hrun.
    destruct (String.eqb key "batch_size"); [eexists _, _; split; [|exact Hrun]; reflexivity|].
    destruct (String.eqb key "slice_size"); [|discriminate].
    destruct (_check_slicing_availability model 1); [discriminate|].
    eexists _, _; split; [|exact Hrun]; reflexivity. }
  destruct Hloop as (maximum_triples & st & <- & Hloop).
  destruct (search_loop_sound _ _ _ _ _ _ _ Hloop)
    as (earlier & d & -> & Hd & _ & Hflag).
  destruct (Hflag eq_refl) as (-> & e & He & Hmem).
  split; [reflexivity|]. exists earlier, d, e. now repeat split.
Qed.

(** Whatever the probe does, the controller returns a slice size only
    together with the batch size 1: if [batch_and_slice] returns a pair
    whose slice size is not [None], then its batch size is 1, and among the
    probes it made there is one with batch size 1 that failed with a
    memory-class error. *)
Theorem batch_and_slice_slices_at_batch_size_one
    fuel (model : @Model score) (mapped_triples : MappedTriples) start
    batch_size slice_size log :
  batch_and_slice is_cudnn_error is_cuda_oom_error probe fuel model mapped_triples start
  = Some (inr (batch_size, slice_size), log) ->
  slice_size <> None ->
  batch_size = Some 1%Z
  /\ exists earlier d later e,
       log = earlier ++ d :: later
       /\ d !! "batch_size" = Some (Some 1%Z)
       /\ probe earlier d = Some e /\ memory e.
Proof.
  unfold batch_and_slice. intros Hrun Hslice.
  destruct (_param_size_search _ _ _ fuel [] "batch_size" start model mapped_triples)
    as [[[e|[v flag]] log1]|] eqn:H1; try discriminate.
  destruct flag; [injection Hrun as _ <- _; congruence|].
  destruct (ceil_half (num_entities model)) as [e|start_value]; [discriminate|].
  destruct (_param_size_search _ _ _ fuel log1 "slice_size" _ model mapped_triples)
    as [[[e|[v2 flag2]] log2]|] eqn:H2; try discriminate.
  destruct flag2; [|discriminate]. injection Hrun as <- <- <-.
  destruct (unsuccessful_search _ _ _ _ _ _ _ _ H1)
    as (-> & earlier & d & e & -> & Hd & He & Hmem).
  split; [reflexivity|].
  assert (Hext : exists later, log2 = ([] ++ earlier ++ [d]) ++ later).
  { clear -H2. unfold _param_size_search in H2. simpl String.eqb in H2.
    cbv iota zeta in H2.
    destruct (_check_slicing_availability model 1); [discriminate|].
    destruct (loop_probes_first _ _ _ _ _ _ H2) as (later & ->).
    cbn [attempts]. eauto. }
  destruct Hext as (later & ->).
  exists earlier, d, later, e. cbn [app] in *. rewrite <- app_assoc.
  now repeat split.
Qed.

End SearchInvariants.

(** A synthetic probe for a model that fits the hardware only when sliced:
    it fails with an out-of-memory error unless a slice size of at most
    [K] is set. *)
Definition slicing_scorer (K : Z) : list Attempt -> Attempt -> option exn :=
  fun _ d =>
    match d !! "slice_size" with
    | Some (Some v) => if (K <? v)%Z then Some (RuntimeError oom_message) else None
    | _ => Some (RuntimeError oom_message)
    end.

(** The probes of a batch-size search over four triples, started at 4, on
    a probe that fails above 3. *)
Definition sample_batch_log : list Attempt :=
  match _param_size_search sample_is_cudnn_error sample_is_cuda_oom_error
          (threshold_scorer "batch_size" 3) 5 [] "batch_size" (Some 4%Z)
          (sample_model false true true) [hrt 0 0 1; hrt 1 0 2; hrt 2 0 0; hrt 0 1 2] with
  | Some (_, log) => log
  | None => []
  end.

Lemma param_size_search_result_backed_witness :
  exists earlier d,
    sample_batch_log = [] ++ earlier ++ [d]
    /\ d !! "batch_size" = Some (Some 2%Z)
    /\ (forall k d', (earlier ++ [d]) !! k = Some d' ->
          tolerated sample_is_cudnn_error sample_is_cuda_oom_error
            (threshold_scorer "batch_size" 3 ([] ++ take k (earlier ++ [d])) d'))
    /\ (true = false ->
        Some 2%Z = Some 1%Z
        /\ exists e, threshold_scorer "batch_size" 3 ([] ++ earlier) d = Some e
                     /\ memory_error sample_is_cudnn_error sample_is_cuda_oom_error e).
Proof.
  apply (param_size_search_result_backed sample_is_cudnn_error sample_is_cuda_oom_error
           (threshold_scorer "batch_size" 3) 5 [] "batch_size" (Some 4%Z)
           (sample_model false true true) [hrt 0 0 1; hrt 1 0 2; hrt 2 0 0; hrt 0 1 2]
           (Some 2%Z) true sample_batch_log).
  vm_compute. reflexivity.
Defined.

Lemma batch_size_probes_bounded_witness :
  exists made,
    sample_batch_log = [] ++ made /\ made <> []
    /\ forall d, d ∈ made ->
         exists b, d !! "batch_size" = Some (Some b) /\ d !! "slice_size" = Some None
                   /\ (1 <= b < 2 * Z.of_nat (length [hrt 0 0 1; hrt 1 0 2;
                                                       hrt 2 0 0; hrt 0 1 2]))%Z.
Proof.
  apply (batch_size_probes_bounded sample_is_cudnn_error sample_is_cuda_oom_error
           (threshold_scorer "batch_size" 3) 5 [] (Some 4%Z)
           (sample_model false true true) [hrt 0 0 1; hrt 1 0 2; hrt 2 0 0; hrt 0 1 2]
           (inr (Some 2%Z, true)) sample_batch_log).
  - discriminate.
  - intros s [= <-]. lia.
  - vm_compute. reflexivity.
Defined.

Lemma batch_size_search_terminates_witness :
  exists fuel0 result,
    forall fuel, fuel0 <= fuel ->
      _param_size_search sample_is_cudnn_error sample_is_cuda_oom_error
        (slicing_scorer 2) fuel [] "batch_size" (Some 2%Z)
        (sample_model false true true) sample_triples
      = Some result.
Proof.
  apply (batch_size_search_terminates sample_is_cudnn_error sample_is_cuda_oom_error
           (slicing_scorer 2) [] (Some 2%Z) (sample_model false true true)
           sample_triples).
  - discriminate.
  - intros s [= <-]. lia.
Defined.

Lemma batch_size_search_below_one_diverges_witness :
  _param_size_search sample_is_cudnn_error sample_is_cuda_oom_error failing_scorer
    7 [] "batch_size" None (sample_model false true true) []
  = None.
Proof.
  apply (batch_size_search_below_one_diverges sample_is_cudnn_error
           sample_is_cuda_oom_error failing_scorer 7 [] None
           (sample_model false true true) []).
  - apply failing_scorer_always_fails.
  - left. reflexivity.
Defined.

(** The probes of a slice-size search over the two sample triples, started
    at 2, on a probe that fails above 2. *)
Definition sample_slice_log : list Attempt :=
  match _param_size_search sample_is_cudnn_error sample_is_cuda_oom_error
          (threshold_scorer "slice_size" 2) 6 [] "slice_size" (Some 2%Z)
          (sample_model false true true) sample_triples with
  | Some (_, log) => log
  | None => []
  end.

Lemma slice_size_search_ends_only_after_failure_witness :
  exists earlier d later e,
    sample_slice_log = [] ++ earlier ++ d :: later
    /\ threshold_scorer "slice_size" 2 ([] ++ earlier) d = Some e.
Proof.
  apply (slice_size_search_ends_only_after_failure sample_is_cudnn_error
           sample_is_cuda_oom_error (threshold_scorer "slice_size" 2) 6 [] 2
           (sample_model false true true) sample_triples (inr (Some 2%Z, true))
           sample_slice_log).
  - simpl. lia.
  - reflexivity.
  - vm_compute. reflexivity.
Defined.

(** The probes of the controller on the sample triples, for a model that
    fits only when sliced to at most 2. *)
Definition sample_controller_log : list Attempt :=
  match batch_and_slice sample_is_cudnn_error sample_is_cuda_oom_error
          (slicing_scorer 2) 8 (sample_model false true true) sample_triples None with
  | Some (_, log) => log
  | None => []
  end.

Lemma batch_and_slice_slices_at_batch_size_one_witness :
  Some 1%Z = Some 1%Z
  /\ exists earlier d later e,
       sample_controller_log = earlier ++ d :: later
       /\ d !! "batch_size" = Some (Some 1%Z)
       /\ slicing_scorer 2 earlier d = Some e
       /\ memory_error sample_is_cudnn_error sample_is_cuda_oom_error e.
Proof.
  apply (batch_and_slice_slices_at_batch_size_one sample_is_cudnn_error
           sample_is_cuda_oom_error (slicing_scorer 2) 8 (sample_model false true true)
           sample_triples None (Some 1%Z) (Some 2%Z) sample_controller_log).
  - vm_compute. reflexivity.
  - discriminate.
Defined.

(** ** The controller outside its domain *)

(** The sample model with [n] entities. *)
Definition sized_model (n : Z) : @Model sample_score := {|
  factory_mapped_triples := sample_triples;
  create_inverse_triples := false;
  can_slice_h := true;
  can_slice_t := true;
  num_entities := n;
  predict_scores_all_tails _ _ := inr [[Num 5; Num 1; Num 3]; [Num 2; Num 6; Num 4]];
  predict_scores_all_heads _ _ := inr [[Num 7; Num 8; Num 9]; [Num 1; Num 2; Num 3]]
|}.

Section Divergence.

Context {score : Type} {ops : ScoreOps score}.

Variables is_cudnn_error is_cuda_oom_error : string -> bool.
Variable probe : list Attempt -> Attempt -> option exn.
Hypothesis Hfail : always_failing_probe is_cudnn_error is_cuda_oom_error probe.

(** The batch-size search of the controller does not end when it starts
    below 1. *)
Lemma controller_diverges_in_batch_search
    fuel (model : @Model score) (mapped_triples : MappedTriples) start :
  mapped_triples = [] \/ (exists s, start = Some s /\ (s <= 0)%Z) ->
  batch_and_slice is_cudnn_error is_cuda_oom_error probe fuel model mapped_triples start
  = None.
Proof.
  intros Hcase. unfold batch_and_slice, _param_size_search.
  simpl String.eqb. cbv iota zeta.
  set (maximum_triples := Z.of_nat (length mapped_triples)).
  set (s0 := default 256%Z start).
  set (s1 := if (s0 >? maximum_triples)%Z then maximum_triples else s0).
  rewrite (loop_at_zero is_cudnn_error is_cuda_oom_error probe "batch_size"
             maximum_triples fuel Hfail s1); [reflexivity| |].
  - subst s1. destruct (s0 >? maximum_triples)%Z eqn:E; rewrite Z.gtb_ltb in E.
    + apply Z.ltb_lt in E.
      destruct Hcase as [->|(s & -> & Hs)]; [subst maximum_triples; simpl; lia|].
      subst s0. simpl in *. lia.
    + apply Z.ltb_ge in E.
      destruct Hcase as [->|(s & -> & Hs)]; [subst maximum_triples; simpl in *; lia|].
      subst s0. simpl in *. lia.
  - rewrite lookup_insert_ne by discriminate. apply lookup_insert_eq.
Qed.

(** Nor does its slice-size search. *)
Lemma controller_diverges_in_slice_search
    fuel (model : @Model score) (mapped_triples : MappedTriples) start c :
  _check_slicing_availability model 1 = inr tt ->
  ceil_half (num_entities model) = inr c ->
  (c <= 0)%Z ->
  (forall e log,
     _param_size_search is_cudnn_error is_cuda_oom_error probe fuel [] "batch_size" start
                        model mapped_triples
     <> Some (inl e, log)) ->
  (forall v log,
     _param_size_search is_cudnn_error is_cuda_oom_error probe fuel [] "batch_size" start
                        model mapped_triples
     <> Some (inr (v, true), log)) ->
  batch_and_slice is_cudnn_error is_cuda_oom_error probe fuel model mapped_triples start
  = None.
Proof.
  intros Hcheck Hhalf Hc Hnoraise Hnosuccess. unfold batch_and_slice.
  destruct (_param_size_search _ _ _ fuel [] "batch_size" start model mapped_triples)
    as [[[e|[v flag]] log1]|] eqn:H1; [now destruct (Hnoraise e log1)| |reflexivity].
  destruct flag; [now destruct (Hnosuccess v log1)|].
  rewrite Hhalf. unfold _param_size_search. simpl String.eqb. cbv iota zeta.
  rewrite Hcheck.
  rewrite (loop_at_zero is_cudnn_error is_cuda_oom_error probe "slice_size" _ fuel
             Hfail c); [reflexivity|exact Hc|].
  rewrite lookup_insert_ne by discriminate. apply lookup_insert_eq.
Qed.

(** On a probe that always fails, a batch-size search that ends has not
    succeeded and has not raised. *)
Lemma failing_search_result
    fuel (model : @Model score) (mapped_triples : MappedTriples) start result log :
  mapped_triples <> [] ->
  (forall s, start = Some s -> (1 <= s)%Z) ->
  _param_size_search is_cudnn_error is_cuda_oom_error probe fuel [] "batch_size" start
                     model mapped_triples
  = Some (result, log) ->
  result = inr (Some 1%Z, false).
Proof.
  intros Hne Hstart Hrun.
  set (maximum_triples := Z.of_nat (length mapped_triples)).
  assert (Hmax : (1 <= maximum_triples)%Z).
  { subst maximum_triples. destruct mapped_triples; [congruence|]. simpl length. lia. }
  set (s0 := default 256%Z start).
  assert (Hs0 : (1 <= s0)%Z).
  { subst s0. destruct start as [s|]; simpl; [now apply Hstart|lia]. }
  set (s1 := if (s0 >? maximum_triples)%Z then maximum_triples else s0).
  assert (Hs1 : (1 <= s1)%Z) by (subst s1; destruct (s0 >? maximum_triples)%Z; lia).
  set (d0 := <["slice_size" := None]> (<["batch_size" := Some s1]> (∅ : Attempt))).
  destruct (all_fail_ends is_cudnn_error is_cuda_oom_error probe "batch_size"
              maximum_triples (Z.to_nat s1) Hfail s1 d0 false [])
    as (last1 & rest1 & [fuel1 Hends1] & _); [lia|exact Hs1| |].
  { subst d0. rewrite lookup_insert_ne by discriminate. apply lookup_insert_eq. }
  unfold _param_size_search in Hrun. simpl String.eqb in Hrun. cbv iota zeta in Hrun.
  fold maximum_triples s0 s1 d0 in Hrun.
  pose proof (search_loop_more_fuel is_cudnn_error is_cuda_oom_error probe "batch_size"
                maximum_triples fuel _ _ (max fuel fuel1) Hrun ltac:(lia)) as Hmore.
  rewrite Hends1 in Hmore by lia. now injection Hmore as <- _.
Qed.

End Divergence.

(** C6 as stated fails outside these bounds.  On the probe that always
    fails with an out-of-memory error: with an empty triple set the
    batch-size search never ends, and neither does it when started at 0;
    with a model of no entities the slice-size search never ends; in all
    three cases the controller raises nothing, however long it runs.  And
    with 2^53 + 1 entities the slice-size search starts at 2^52, which is
    less than half the number of entities. *)
Lemma sizing_exhaustion_outside_bounds :
  always_failing_probe sample_is_cudnn_error sample_is_cuda_oom_error failing_scorer
  /\ (forall fuel,
        batch_and_slice sample_is_cudnn_error sample_is_cuda_oom_error failing_scorer
                        fuel (sized_model 3) [] None
        = None)
  /\ (forall fuel,
        batch_and_slice sample_is_cudnn_error sample_is_cuda_oom_error failing_scorer
                        fuel (sized_model 3) sample_triples (Some 0%Z)
        = None)
  /\ (forall fuel,
        batch_and_slice sample_is_cudnn_error sample_is_cuda_oom_error failing_scorer
                        fuel (sized_model 0) sample_triples None
        = None)
  /\ (exists fuel0 log1 rest,
        (forall fuel, fuel0 <= fuel ->
           batch_and_slice sample_is_cudnn_error sample_is_cuda_oom_error failing_scorer
                           fuel (sized_model (2 ^ 53 + 1)) sample_triples None
           = Some (inl CannotFitHardware,
                   log1 ++ <["batch_size" := Some 1%Z]>
                             (<["slice_size" := Some (2 ^ 52)%Z]> ∅) :: rest))
        /\ (2 * 2 ^ 52 < 2 ^ 53 + 1)%Z).
Proof.
  split; [apply failing_scorer_always_fails|].
  split.
  { intros fuel. apply controller_diverges_in_batch_search;
      [apply failing_scorer_always_fails|now left]. }
  split.
  { intros fuel. apply controller_diverges_in_batch_search;
      [apply failing_scorer_always_fails|right; exists 0%Z; split; [reflexivity|lia]]. }
  split.
  { intros fuel.
    apply (controller_diverges_in_slice_search _ _ _ failing_scorer_always_fails
             fuel (sized_model 0) sample_triples None 0%Z);
      [reflexivity|reflexivity|lia| |].
    - intros e log Hrun.
      pose proof (failing_search_result _ _ _ failing_scorer_always_fails fuel
                    (sized_model 0) sample_triples None (inl e) log
                    ltac:(discriminate) ltac:(discriminate) Hrun) as Heq.
      discriminate Heq.
    - intros v log Hrun.
      pose proof (failing_search_result _ _ _ failing_scorer_always_fails fuel
                    (sized_model 0) sample_triples None (inr (v, true)) log
                    ltac:(discriminate) ltac:(discriminate) Hrun) as Heq.
      discriminate Heq. }
  destruct (exhaustion_run sample_is_cudnn_error sample_is_cuda_oom_error failing_scorer
              (sized_model (2 ^ 53 + 1)) sample_triples None (2 ^ 52)%Z
              failing_scorer_always_fails)
    as (fuel0 & log1 & last1 & e & log & Hrun & _ & _ & _ & _ & Hyes);
    [discriminate|discriminate|reflexivity|lia|].
  destruct (Hyes eq_refl) as (-> & rest & -> & _).
  exists fuel0, log1, rest. split; [|lia].
  intros fuel Hle. exact (proj2 (Hrun fuel Hle)).
Qed.

(** ** Evaluation restricted to entities of interest *)

Section RestrictedRun.

Context {score : Type} {ops : ScoreOps score}.

Lemma mapE_lookup {A B} (f : A -> exn + B) (l : list A) : forall r,
  mapE f l = inr r ->
  length r = length l
  /\ forall k a, l !! k = Some a -> exists b, f a = inr b /\ r !! k = Some b.
Proof.
  induction l as [|a l IH]; intros r Hr; simpl in Hr.
  - injection Hr as <-. split; [reflexivity|]. intros k a Hk. discriminate.
  - destruct (f a) as [e|b] eqn:Hfa; [discriminate|]. simpl in Hr.
    destruct (mapE f l) as [e|r'] eqn:Hl; [discriminate|]. simpl in Hr.
    injection Hr as <-. destruct (IH r' eq_refl) as [Hlen Hall].
    split; [simpl; now rewrite Hlen|].
    intros [|k] a' Hk; simpl in Hk.
    + injection Hk as <-. eauto.
    + now apply Hall.
Qed.

(** [m[:, ids]] for valid entity ids: column [k] of the result is column
    [ids[k]] of [m]. *)
Lemma index_cols_read (m : list (list score)) B N ids :
  well_shaped m B N ->
  Forall (entity_id N) ids ->
  exists selected,
    index_cols m ids = inr selected
    /\ well_shaped selected B (length ids)
    /\ forall i k e, i < B -> ids !! k = Some e ->
         read_entry selected i (Z.of_nat k) = read_entry m i e.
Proof.
  intros Hm Hids.
  destruct (index_cols_ok m B N ids Hm) as [selected Hsel].
  { eapply Forall_impl; [exact Hids|]. unfold entity_id. intros e He. lia. }
  exists selected. split; [exact Hsel|].
  unfold index_cols in Hsel. destruct (mapE_lookup _ _ _ Hsel) as [Hlen Hrows].
  assert (Hrow : forall i, i < B ->
            exists row row', m !! i = Some row /\ length row = N
                             /\ selected !! i = Some row'
                             /\ length row' = length ids
                             /\ forall k e, ids !! k = Some e ->
                                  row' !! k = row !! Z.to_nat e).
  { intros i Hi. destruct (well_shaped_row m B N i Hm Hi) as (row & Hrow & HN).
    destruct (Hrows i row Hrow) as (row' & Hsome & Hrow').
    destruct (mapE_lookup _ _ _ Hsome) as [Hlen' Hcols].
    exists row, row'. repeat split; try assumption.
    intros k e Hk. destruct (Hcols k e Hk) as (s & Hs & ->).
    rewrite HN, (resolve_entity_id N e) in Hs
      by (exact (proj1 (Forall_forall _ _) Hids e
                   ltac:(apply list_elem_of_lookup; eauto))).
    simpl in Hs. unfold at_index in Hs.
    destruct (row !! Z.to_nat e); [now injection Hs as ->|discriminate]. }
  split.
  - split; [rewrite Hlen; apply Hm|].
    apply Forall_forall. intros row' Hin. apply list_elem_of_lookup in Hin as [i Hi].
    assert (Hlt : i < B).
    { destruct Hm as [<- _]. rewrite <- Hlen. apply lookup_lt_is_Some. eauto. }
    destruct (Hrow i Hlt) as (row & row2 & _ & _ & Hsel2 & Hl & _).
    rewrite Hi in Hsel2. now injection Hsel2 as ->.
  - intros i k e Hi Hk.
    destruct (Hrow i Hi) as (row & row' & Hr & HN & Hr' & Hl & Hcols).
    assert (He : entity_id N e).
    { apply (proj1 (Forall_forall _ _) Hids). apply list_elem_of_lookup. eauto. }
    assert (Hklt : k < length ids) by (apply lookup_lt_is_Some; eauto).
    unfold read_entry, at_index. rewrite Hr, Hr'. simpl.
    rewrite Hl, HN, (resolve_entity_id N e He).
    rewrite (resolve_entity_id (length ids) (Z.of_nat k))
      by (unfold entity_id; lia).
    simpl. rewrite Nat2Z.id. now rewrite (Hcols k e Hk).
Qed.

(** The tensors [_evaluate] computes from the scores of the model for a
    batch inside the positives. *)
Lemma filter_pipeline batch pos relation_filter col N (raw : list (list score)) :
  (col = 0 \/ col = 2)%Z ->
  (forall b, b ∈ batch -> b ∈ pos) ->
  (forall p, p ∈ pos -> entity_id N (head_of p) /\ entity_id N (tail_of p)) ->
  well_shaped raw (length batch) N ->
  relation_filter_ok batch pos relation_filter ->
  exists fb rf ts dense m1 m2,
    create_sparse_positive_filter_ batch pos relation_filter col = inr (fb, rf)
    /\ gather_true raw batch col = inr ts
    /\ scatter (zeros_like raw) fb score_one = inr dense
    /\ scatter raw fb score_nan = inr m1
    /\ assign_true m1 (zip (seq 0 (length batch)) batch) col ts = inr m2
    /\ well_shaped dense (length batch) N
    /\ well_shaped m2 (length batch) N
    /\ (forall i e, i < length batch -> entity_id N e ->
          read_entry dense i e
          = inr (if decide ((i, e) ∈ fb) then score_one else score_zero))
    /\ (forall i b e, batch !! i = Some b -> entity_id N e ->
          read_entry m2 i e
          = if decide (e <> column col b /\ (i, e) ∈ fb) then inr score_nan
            else read_entry raw i e).
Proof.
  intros Hcol Hsub Hrange Hshape Hrf.
  destruct (sparse_filter_of_positives batch pos relation_filter col N
              Hcol Hsub Hrange Hrf) as (fb & rf & Hfilter & Hself & Hfb).
  assert (Hbatch : Forall (fun b => entity_id N (column col b)) batch).
  { apply Forall_forall. intros b Hb. destruct (Hrange b (Hsub b Hb)) as [Hh Ht].
    unfold column. destruct Hcol; subst; simpl; assumption. }
  destruct (gather_rows_ok raw (length batch) N col batch Hshape 0 ltac:(lia) Hbatch)
    as (ts & Hgather & Hlen & Hts).
  destruct (scatter_ok raw (length batch) N fb score_nan Hshape Hfb)
    as (m1 & Hscatter & Hm1).
  destruct (assign_rows_ok (length batch) N col batch m1 0 ts Hm1 ltac:(lia) Hlen Hbatch)
    as (m2 & Hassign & Hm2 & Hread & _).
  pose proof (zeros_like_shaped raw _ _ Hshape) as Hz.
  destruct (scatter_ok (zeros_like raw) (length batch) N fb score_one Hz Hfb)
    as (dense & Hdense & Hdshape).
  exists fb, rf, ts, dense, m1, m2.
  do 7 (split; [assumption|]). split.
  - intros i e Hi He.
    destruct (scatter_read fb (length batch) N score_one (zeros_like raw) dense i e
                Hz Hfb He Hdense) as [_ ->].
    destruct (decide ((i, e) ∈ fb)); [reflexivity|].
    now apply (read_zeros_like raw (length batch) N).
  - intros i b e Hb He.
    assert (Hi : i < length batch) by (apply lookup_lt_is_Some; eauto).
    destruct (Hts i b Hb) as (s & Hs & Hraw). simpl in Hraw.
    destruct (scatter_read fb (length batch) N score_nan raw m1 i e Hshape Hfb He
                Hscatter) as [_ Hm1read].
    destruct (decide (e = column col b)) as [->|Hne].
    + rewrite decide_False by tauto. rewrite Hraw. apply (Hread i b s Hb Hs).
    + rewrite (assign_rows_frame (length batch) N col batch m1 m2 0 ts Hm1
                 ltac:(lia) Hlen Hbatch Hassign i e He).
      * rewrite Hm1read.
        destruct (decide ((i, e) ∈ fb)) as [Hin|Hnin].
        -- now rewrite decide_True.
        -- rewrite decide_False by tauto. reflexivity.
      * intros j b' Hj ->. simpl in Hb. rewrite Hb in Hj. now injection Hj as <-.
Qed.

(** Evaluation restricted to entities of interest.  Take a batch inside the
    positives, positives and restriction ids that are valid entity ids,
    scores of shape (batch_size, N), a relation filter absent or as
    documented, and both the positive mask and filtering required.  Then
    [_evaluate] returns, having called first the unfiltered and then the
    filtered evaluators, with only in-place writes and possibly the warning
    in between.  All evaluators receive tensors with one column per id of
    the restriction: column [k] stands for the entity [ids[k]].  The
    unfiltered evaluators receive the scores of the model and a mask that
    is 1 exactly where the filter has the entity; the filtered evaluators
    receive NaN for the other positives of the row and the score of the
    model elsewhere. *)
Theorem restricted_evaluation_views
    batch (model : @Model score) col filtered_evaluators unfiltered_evaluators slice_size
    pos relation_filter ids N raw (w : @World score) :
  (col = 0 \/ col = 2)%Z ->
  (forall b, b ∈ batch -> b ∈ pos) ->
  (forall p, p ∈ pos -> entity_id N (head_of p) /\ entity_id N (tail_of p)) ->
  Forall (entity_id N) ids ->
  model_scores model col batch slice_size = inr raw ->
  well_shaped raw (length batch) N ->
  relation_filter_ok batch pos relation_filter ->
  exists fb rf true_scores view mask filtered_view w' between,
    create_sparse_positive_filter_ batch pos relation_filter col = inr (fb, rf)
    /\ gather_true raw batch col = inr true_scores
    /\ _evaluate batch model col filtered_evaluators unfiltered_evaluators slice_size
                 (Some pos) relation_filter (Some ids) true true w
       = (inr (Some rf), w')
    /\ trace w'
       = trace w
         ++ EvPredict col batch slice_size
         :: dispatch unfiltered_evaluators col batch true_scores
                     (S (length (heap w))) view (Some mask)
         ++ between
         ++ dispatch filtered_evaluators col batch true_scores
                     (S (S (length (heap w)))) filtered_view None
    /\ (forall ev, ev ∈ between -> ev = EvInplace (length (heap w)) \/ ev = EvWarning)
    /\ well_shaped view (length batch) (length ids)
    /\ well_shaped mask (length batch) (length ids)
    /\ well_shaped filtered_view (length batch) (length ids)
    /\ forall i b k e, batch !! i = Some b -> ids !! k = Some e ->
         read_entry view i (Z.of_nat k) = read_entry raw i e
         /\ read_entry mask i (Z.of_nat k)
            = inr (if decide ((i, e) ∈ fb) then score_one else score_zero)
         /\ read_entry filtered_view i (Z.of_nat k)
            = if decide (e <> column col b /\ (i, e) ∈ fb) then inr score_nan
              else read_entry raw i e.
Proof.
  intros Hcol Hsub Hrange Hids Hscores Hshape Hrf.
  destruct (filter_pipeline batch pos relation_filter col N raw Hcol Hsub Hrange
              Hshape Hrf)
    as (fb & rf & ts & dense & m1 & m2 & Hfilter & Hgather & Hdense & Hscatter
        & Hassign & Hdshape & Hm2 & Hdread & Hm2read).
  destruct (index_cols_read raw _ N ids Hshape Hids) as (view & Hview & Hvshape & Hvread).
  destruct (index_cols_read dense _ N ids Hdshape Hids)
    as (mask & Hmask & Hmshape & Hmread).
  destruct (index_cols_read m2 _ N ids Hm2 Hids) as (fview & Hfview & Hfshape & Hfread).
  destruct w as [h tr].
  exists fb, rf, ts, view, mask, fview. eexists.
  exists (EvInplace (length h) :: warning (length (default [] (head raw))) m1
          ++ [EvInplace (length h)]).
  split; [exact Hfilter|]. split; [exact Hgather|]. split.
  { rewrite _evaluate_unfold.
    replace (negb ((col =? 0)%Z || (col =? 2)%Z)) with false
      by (destruct Hcol; subst; reflexivity).
    cbv zeta. rewrite Hscores, Hgather.
    unfold positive_filter_block. cbn [orb]. rewrite Hfilter. cbn [mbind exn_bind].
    unfold positive_mask_block. cbn [read_local mbind exn_bind].
    unfold create_dense_positive_mask_. rewrite Hdense. cbn [mbind exn_bind].
    rewrite dispatch_blocks_restricted, Hview, Hmask.
    rewrite (filter_block_run _ _ _ _ _ raw)
      by (rewrite lookup_app_l by (rewrite length_app; simpl; lia); apply lookup_fresh).
    cbn [read_local]. rewrite Hscatter. cbv zeta. rewrite Hassign, Hfview.
    reflexivity. }
  cbn [heap trace].
  split.
  { rewrite !length_insert, !length_app. cbn [length].
    replace (length h + 1 + 1) with (S (S (length h))) by lia.
    replace (length h + 1) with (S (length h)) by lia.
    rewrite <- !app_assoc. f_equal. cbn [app]. f_equal. f_equal.
    cbn [app]. f_equal. rewrite <- !app_assoc. reflexivity. }
  split.
  { intros ev Hev. apply elem_of_cons in Hev as [->|Hev]; [now left|].
    apply elem_of_app in Hev as [Hev|Hev].
    - right. now apply elem_of_warning in Hev.
    - apply list_elem_of_singleton in Hev. now left. }
  do 3 (split; [assumption|]).
  intros i b k e Hb Hk.
  assert (Hi : i < length batch) by (apply lookup_lt_is_Some; eauto).
  assert (He : entity_id N e).
  { apply (proj1 (Forall_forall _ _) Hids). apply list_elem_of_lookup. eauto. }
  rewrite (Hvread i k e Hi Hk), (Hmread i k e Hi Hk), (Hfread i k e Hi Hk).
  split; [reflexivity|]. split; [now apply Hdread|now apply (Hm2read i b e)].
Qed.

End RestrictedRun.

Lemma restricted_evaluation_views_witness :
  exists fb rf true_scores view mask filtered_view w' between,
    create_sparse_positive_filter_ sample_triples sample_triples None 2 = inr (fb, rf)
    /\ gather_true [[Num 5; Num 1; Num 3]; [Num 2; Num 6; Num 4]] sample_triples 2
       = inr true_scores
    /\ _evaluate sample_triples (sample_model false true true) 2
                 [{| ev_id := 0; filtered := true; requires_positive_mask := false |}]
                 [{| ev_id := 1; filtered := false; requires_positive_mask := true |}]
                 None (Some sample_triples) None (Some [2; 0]%Z) true true
                 {| heap := []; trace := [] |}
       = (inr (Some rf), w')
    /\ trace w'
       = trace {| heap := []; trace := ([] : list (@Event sample_score)) |}
         ++ EvPredict 2 sample_triples None
         :: dispatch [{| ev_id := 1; filtered := false; requires_positive_mask := true |}]
                     2 sample_triples true_scores
                     (S (length (heap {| heap := [];
                                         trace := ([] : list (@Event sample_score)) |})))
                     view (Some mask)
         ++ between
         ++ dispatch [{| ev_id := 0; filtered := true; requires_positive_mask := false |}]
                     2 sample_triples true_scores
                     (S (S (length (heap {| heap := [];
                                            trace := ([] : list (@Event sample_score)) |}))))
                     filtered_view None
    /\ (forall ev, ev ∈ between ->
          ev = EvInplace (length (heap {| heap := [];
                                          trace := ([] : list (@Event sample_score)) |}))
          \/ ev = EvWarning)
    /\ well_shaped view (length sample_triples) (length [2; 0]%Z)
    /\ well_shaped mask (length sample_triples) (length [2; 0]%Z)
    /\ well_shaped filtered_view (length sample_triples) (length [2; 0]%Z)
    /\ forall i b k e, sample_triples !! i = Some b -> [2; 0]%Z !! k = Some e ->
         read_entry view i (Z.of_nat k)
         = read_entry [[Num 5; Num 1; Num 3]; [Num 2; Num 6; Num 4]] i e
         /\ read_entry mask i (Z.of_nat k)
            = inr (if decide ((i, e) ∈ fb) then score_one else score_zero)
         /\ read_entry filtered_view i (Z.of_nat k)
            = if decide (e <> column 2 b /\ (i, e) ∈ fb) then inr score_nan
              else read_entry [[Num 5; Num 1; Num 3]; [Num 2; Num 6; Num 4]] i e.
Proof.
  apply (restricted_evaluation_views sample_triples (sample_model false true true) 2
           [{| ev_id := 0; filtered := true; requires_positive_mask := false |}]
           [{| ev_id := 1; filtered := false; requires_positive_mask := true |}]
           None sample_triples None [2; 0]%Z 3
           [[Num 5; Num 1; Num 3]; [Num 2; Num 6; Num 4]]
           {| heap := []; trace := [] |}).
  - right; reflexivity.
  - intros b Hb. exact Hb.
  - exact sample_triples_entities.
  - repeat constructor; unfold entity_id; lia.
  - reflexivity.
  - exact sample_scores_shape.
  - exact I.
Defined.

(** ** The triples that are evaluated *)

Lemma select_rows_map {A} (f : A -> bool) (l : list A) :
  select_rows l (map f l) = List.filter f l.
Proof.
  unfold select_rows. induction l as [|a l IH]; [reflexivity|].
  cbn. fold (mbind (M := list) (fun '(r, b) => if b : bool then [r] else [])
               (zip l (map f l))).
  rewrite IH. destruct (f a); reflexivity.
Qed.

Lemma filter_all {A} (l : list A) : List.filter (fun _ => true) l = l.
Proof. induction l as [|a l IH]; simpl; [reflexivity|]. now rewrite IH. Qed.

(** The triples [evaluate] goes on with are the given triples, in their
    order and with their repetitions, without those the restriction drops.
    With [memory_intense_filtering] a triple stays when its head and its
    tail are allowed entities and its relation is an allowed relation.
    Without it (the default) a triple stays when its head or its tail is an
    allowed entity, and a relation restriction drops nothing: given alone,
    it leaves all triples in. *)
Theorem restrict_triples_spec mapped_triples restrict_entities_to restrict_relations_to
    memory_intense_filtering :
  restrict_triples mapped_triples restrict_entities_to restrict_relations_to
                   memory_intense_filtering
  = List.filter
      (fun t =>
         if memory_intense_filtering then
           allowed (head_of t) restrict_entities_to
           && allowed (tail_of t) restrict_entities_to
           && allowed (rel_of t) restrict_relations_to
         else
           match restrict_entities_to with
           | Some ids => any_eq (head_of t) ids || any_eq (tail_of t) ids
           | None => true
           end)
      mapped_triples.
Proof.
  unfold restrict_triples.
  destruct (bool_decide (is_Some restrict_relations_to)
            || bool_decide (is_Some restrict_entities_to)) eqn:Hany.
  - cbv zeta. destruct memory_intense_filtering.
    + replace (_compute_triples_mask_high_memory mapped_triples restrict_entities_to
                 restrict_relations_to)
        with (map (fun t => allowed (head_of t) restrict_entities_to
                            && allowed (tail_of t) restrict_entities_to
                            && allowed (rel_of t) restrict_relations_to) mapped_triples);
        [apply select_rows_map|].
      unfold _compute_triples_mask_high_memory. rewrite repeat_as_map.
      destruct restrict_entities_to as [ents|], restrict_relations_to as [rels|]; simpl;
        rewrite ?mask_and_map; apply map_ext_bool; intros t;
        unfold column; simpl; now rewrite ?andb_true_r.
    + replace (_compute_triples_mask_low_memory mapped_triples restrict_entities_to
                 restrict_relations_to)
        with (map (fun t => match restrict_entities_to with
                            | Some ids => any_eq (head_of t) ids || any_eq (tail_of t) ids
                            | None => true
                            end) mapped_triples);
        [apply select_rows_map|].
      unfold _compute_triples_mask_low_memory. rewrite !repeat_as_map.
      destruct restrict_entities_to as [ents|]; [|reflexivity].
      rewrite low_memory_entity_loop, mask_and_map.
      apply map_ext_bool. intros t. reflexivity.
  - destruct restrict_entities_to, restrict_relations_to; try discriminate.
    destruct memory_intense_filtering; simpl; now rewrite filter_all.
Qed.

(** ** evaluate without a batch *)

Section NoBatch.

Context {score : Type} {ops : ScoreOps score}.

(** When the triples that remain are cut into no batch, [evaluate] makes no
    scoring call and no [process] call on any evaluator, creates and writes
    no score tensor and logs no filter warning: of what the trace records,
    it makes only the calls of [finalize], on every evaluator it was given,
    once each and in the given order.  It returns one result per evaluator
    in that order, as a list, unless [squeeze] is set and there is exactly
    one evaluator (given alone or as a one-element collection): then it
    returns that one result itself. *)
Theorem evaluate_without_batches
    (split_list_in_batches_iter : MappedTriples -> Z -> list MappedTriples)
    (model : @Model score) mapped_triples evaluators only_size_probing batch_size
    slice_size squeeze restrict_entities_to restrict_relations_to
    memory_intense_filtering (w : @World score) :
  split_list_in_batches_iter
    (restrict_triples mapped_triples restrict_entities_to restrict_relations_to
                      memory_intense_filtering)
    (default 1%Z batch_size) = [] ->
  let evaluator_list :=
    match evaluators with
    | OneEvaluator e => [e]
    | ManyEvaluators l => l
    end in
  evaluate split_list_in_batches_iter model mapped_triples evaluators only_size_probing
           batch_size slice_size squeeze restrict_entities_to restrict_relations_to
           memory_intense_filtering w
  = (inr (match evaluator_list with
          | [e] => if squeeze then SingleResult (ResultsOf e)
                   else ResultList [ResultsOf e]
          | _ => ResultList (ResultsOf <$> evaluator_list)
          end),
     {| heap := heap w; trace := trace w ++ (EvFinalize <$> evaluator_list) |}).
Proof.
  intros Hnil evaluator_list. unfold evaluate. rewrite Hnil.
  destruct w as [h tr]. rewrite run_bind. simpl evaluate_batches.
  unfold mret at 1, M_ret at 1.
  rewrite run_bind, finalize_all_run. fold evaluator_list. cbn [heap trace].
  destruct evaluator_list as [|e [|e' rest]]; [reflexivity| |reflexivity].
  destruct squeeze; reflexivity.
Qed.

End NoBatch.

Lemma evaluate_without_batches_witness :
  evaluate singleton_batches (sample_model false true true) []
           (ManyEvaluators [{| ev_id := 0; filtered := true;
                               requires_positive_mask := false |}])
           false None None true None None false
           {| heap := []; trace := [] |}
  = (inr (SingleResult
            (ResultsOf {| ev_id := 0; filtered := true;
                          requires_positive_mask := false |})),
     {| heap := [];
        trace := [] ++ (EvFinalize <$> [{| ev_id := 0; filtered := true;
                                           requires_positive_mask := false |}]) |}).
Proof.
  apply (evaluate_without_batches singleton_batches (sample_model false true true) []
           (ManyEvaluators [{| ev_id := 0; filtered := true;
                               requires_positive_mask := false |}])
           false None None true None None false {| heap := []; trace := [] |}).
  reflexivity.
Defined.
